(** * Message board agent: post ledger, channel registry and batch chain

    A shallow embedding of the indexed-record revision of the message
    board agent ([MessageBoardAgent], the class that stores one record per
    post plus [posts/index.json]) together with the properties of its
    ledger writer, storage backend, access check, channel registry and
    chain batcher.

    Conventions.
    - JavaScript strings are byte strings ([string]); text is taken in its
      UTF-8 encoding, which is what [crypto.createHash(..).update(str)]
      hashes.
    - Integers that the code uses as counters, ids and timestamps are [N].
    - A call that can throw returns a [result]; what the code catches is
      caught in the model at the same place.
    - The outcomes of external collaborators (the authorization oracle,
      the HTTP upload to the content store, the clock) are inputs of the
      functions that consult them. *)

From Stdlib Require Import ZArith NArith List String Ascii Bool Lia DecimalString.
From stdpp Require Import base option list gmap strings.
Import ListNotations.
Local Open Scope Z_scope.

(* ================================================================== *)
(** * SHA-256 ([crypto.createHash('sha256')]) *)
(* ================================================================== *)

Module Sha256.

(** 32-bit words are [Z] values in [0, 2^32); every operation that can
    leave the range wraps explicitly. *)
Definition wmod : Z := 0x100000000.
Definition w32 (x : Z) : Z := x mod wmod.
Definition add32 (x y : Z) : Z := w32 (x + y).
Definition not32 (x : Z) : Z := Z.lxor x 0xFFFFFFFF.
Definition rotr (n x : Z) : Z :=
  Z.lor (Z.shiftr x n) (w32 (Z.shiftl x (32 - n))).
Definition shr (n x : Z) : Z := Z.shiftr x n.

Definition Ch (x y z : Z) : Z := Z.lxor (Z.land x y) (Z.land (not32 x) z).
Definition Maj (x y z : Z) : Z :=
  Z.lxor (Z.lxor (Z.land x y) (Z.land x z)) (Z.land y z).
Definition Sigma0 (x : Z) : Z := Z.lxor (Z.lxor (rotr 2 x) (rotr 13 x)) (rotr 22 x).
Definition Sigma1 (x : Z) : Z := Z.lxor (Z.lxor (rotr 6 x) (rotr 11 x)) (rotr 25 x).
Definition sigma0 (x : Z) : Z := Z.lxor (Z.lxor (rotr 7 x) (rotr 18 x)) (shr 3 x).
Definition sigma1 (x : Z) : Z := Z.lxor (Z.lxor (rotr 17 x) (rotr 19 x)) (shr 10 x).

(** The round constants and the initial hash value are, by their
    definition, the first 32 bits of the fractional parts of the cube
    roots of the first 64 primes and of the square roots of the first 8.
    They are computed here from that definition; the test vectors further
    down check the result. *)
Definition is_prime (n : Z) : bool :=
  forallb (fun d => negb (n mod d =? 0)) (map Z.of_nat (seq 2 (Z.to_nat n - 2))).

Definition primes (count : nat) : list Z :=
  firstn count (filter is_prime (map Z.of_nat (seq 2 310))).

(** The largest [x] below [2^(bit+1)] above the bits already fixed with
    [x^3 <= n], one bit at a time from the top. *)
Fixpoint cube_root_bits (bit : nat) (x n : Z) : Z :=
  let candidate := x + 2 ^ Z.of_nat bit in
  let x' := if candidate * candidate * candidate <=? n then candidate else x in
  match bit with
  | O => x'
  | S b => cube_root_bits b x' n
  end.

Definition cube_root (n : Z) : Z := cube_root_bits 40 0 n.

Definition K : list Z :=
  Eval vm_compute in map (fun p => w32 (cube_root (p * 2 ^ 96))) (primes 64).

Definition H0 : list Z :=
  Eval vm_compute in map (fun p => w32 (Z.sqrt (p * 2 ^ 64))) (primes 8).

(** ** Padding and parsing into big-endian words *)

Definition bytes_of_string (s : string) : list Z :=
  map (fun c => Z.of_N (N_of_ascii c)) (list_ascii_of_string s).

(** [be_bytes k x]: the [k] low-order bytes of [x], most significant
    first. *)
Fixpoint be_bytes (k : nat) (x : Z) : list Z :=
  match k with
  | O => []
  | S k' => be_bytes k' (Z.shiftr x 8) ++ [Z.land x 0xFF]
  end.

Definition pad (msg : list Z) : list Z :=
  let len := Z.of_nat (length msg) in
  let zeros := Z.to_nat ((55 - len) mod 64) in
  msg ++ [0x80] ++ repeat 0 zeros ++ be_bytes 8 (8 * len).

Fixpoint words_of_bytes (fuel : nat) (bs : list Z) : list Z :=
  match fuel, bs with
  | S f, b0 :: b1 :: b2 :: b3 :: rest =>
      (Z.shiftl b0 24 + Z.shiftl b1 16 + Z.shiftl b2 8 + b3)
        :: words_of_bytes f rest
  | _, _ => []
  end.

Fixpoint blocks_of_words (fuel : nat) (ws : list Z) : list (list Z) :=
  match fuel, ws with
  | S f, _ :: _ => firstn 16 ws :: blocks_of_words f (skipn 16 ws)
  | _, _ => []
  end.

(** ** Message schedule and compression *)

(** The schedule is grown newest-first: [rev_w] holds [W[t-1]; W[t-2]; ..]. *)
Fixpoint extend (n : nat) (rev_w : list Z) : list Z :=
  match n with
  | O => rev_w
  | S n' =>
      let w :=
        add32 (add32 (sigma1 (nth 1 rev_w 0)) (nth 6 rev_w 0))
              (add32 (sigma0 (nth 14 rev_w 0)) (nth 15 rev_w 0)) in
      extend n' (w :: rev_w)
  end.

Definition schedule (block : list Z) : list Z := rev (extend 48 (rev block)).

Record regs : Type := Regs { ra : Z; rb : Z; rc : Z; rd : Z; re : Z; rf : Z; rg : Z; rh : Z }.

Definition round (r : regs) (kw : Z * Z) : regs :=
  let '(k, w) := kw in
  let t1 := add32 (add32 (add32 (rh r) (Sigma1 (re r))) (Ch (re r) (rf r) (rg r)))
                  (add32 k w) in
  let t2 := add32 (Sigma0 (ra r)) (Maj (ra r) (rb r) (rc r)) in
  Regs (add32 t1 t2) (ra r) (rb r) (rc r) (add32 (rd r) t1) (re r) (rf r) (rg r).

Definition regs_of (h : list Z) : regs :=
  Regs (nth 0 h 0) (nth 1 h 0) (nth 2 h 0) (nth 3 h 0)
       (nth 4 h 0) (nth 5 h 0) (nth 6 h 0) (nth 7 h 0).

Definition list_of (r : regs) : list Z :=
  [ra r; rb r; rc r; rd r; re r; rf r; rg r; rh r].

Definition compress (h : list Z) (block : list Z) : list Z :=
  let r := fold_left round (combine K (schedule block)) (regs_of h) in
  map (fun p => add32 (fst p) (snd p)) (combine h (list_of r)).

(** ** Lower-case hexadecimal output ([digest('hex')]) *)

Definition hex_digit (d : Z) : ascii :=
  if d <? 10 then ascii_of_N (Z.to_N (48 + d)) else ascii_of_N (Z.to_N (87 + d)).

Fixpoint hex_of (k : nat) (x : Z) (acc : string) : string :=
  match k with
  | O => acc
  | S k' => hex_of k' (Z.shiftr x 4) (String (hex_digit (Z.land x 0xF)) acc)
  end.

Definition hex_of_words (ws : list Z) : string :=
  fold_right (fun w acc => hex_of 8 w acc) EmptyString ws.

Definition digest_words (s : string) : list Z :=
  let bs := pad (bytes_of_string s) in
  let ws := words_of_bytes (length bs) bs in
  fold_left compress (blocks_of_words (length ws) ws) H0.

Definition sha256 (s : string) : string := hex_of_words (digest_words s).

End Sha256.

(* ================================================================== *)
(** * Data model *)
(* ================================================================== *)

(** A call that may throw. *)
Inductive result (A : Type) : Type :=
| Ok (a : A)
| Throw.
Arguments Ok {A} a.
Arguments Throw {A}.

(** [x || null] on an optional string: the empty string is falsy too. *)
Definition truthy_str (o : option string) : option string :=
  match o with
  | Some s => if decide (s = "") then None else Some s
  | None => None
  end.

Record Comment : Type := mkComment {
  c_id : N;
  c_text : string;
  c_author : string;
  c_authorName : option string;
  c_timestamp : N
}.

(** The post object built by [router.post('/api/posts')]; [p_editedAt] is
    the property that [router.patch] adds. *)
Record Post : Type := mkPost {
  p_id : N;
  p_text : string;
  p_image : option string;
  p_author : string;
  p_authorName : option string;
  p_timestamp : N;
  p_comments : list Comment;
  p_channel : option string;
  p_editedAt : option N
}.

(** The chain link pushed by [addPostToBatch]: the post's own properties
    spread, plus the chain properties. *)
Record ChainedPost : Type := mkChained {
  cp_post : Post;
  cp_hash : string;
  cp_previousHash : string;
  cp_chainIndex : nat;
  cp_userSignature : option string;
  cp_ipfsHash : option string;
  cp_ipfsUrl : option string
}.

(** Per-domain batch state, [this.domainStates.get(domain)]. *)
Record DomainState : Type := mkState {
  postChain : list ChainedPost;
  lastHash : string
}.

(** The content of [message-board-batch.json]. *)
Record BatchData : Type := mkBatchData {
  bd_chain : list ChainedPost;
  bd_lastHash : string;
  bd_lastFlush : N
}.

(** What the agent holds for one domain: the entry of [this.domainStates]
    (absent until [getDomainState] first materialises it) and the batch
    file of that domain. *)
Record Batcher : Type := mkBatcher {
  loaded : option DomainState;
  batchFile : option BatchData
}.

(** [this.lastHash] as set by the constructor. *)
Definition genesisHash : string :=
  "0000000000000000000000000000000000000000000000000000000000000000".

(* ================================================================== *)
(** * [JSON.stringify] of the hashed object *)
(* ================================================================== *)

Module Json.

Local Open Scope string_scope.

Definition dquote : ascii := "034"%char.
Definition backslash : ascii := "092"%char.

Definition hex4 (n : N) : string :=
  Sha256.hex_of 4 (Z.of_N n) "".

(** [QuoteJSONString] on one code unit. *)
Definition escape_char (c : ascii) : string :=
  let n := N_of_ascii c in
  if (n =? 8)%N then String backslash "b"
  else if (n =? 9)%N then String backslash "t"
  else if (n =? 10)%N then String backslash "n"
  else if (n =? 12)%N then String backslash "f"
  else if (n =? 13)%N then String backslash "r"
  else if (n =? 34)%N then String backslash (String dquote "")
  else if (n =? 92)%N then String backslash (String backslash "")
  else if (n <? 32)%N then String backslash ("u" ++ hex4 n)
  else String c "".

Fixpoint escape (s : string) : string :=
  match s with
  | EmptyString => ""
  | String c rest => escape_char c ++ escape rest
  end.

Definition str (s : string) : string :=
  String dquote (escape s ++ String dquote "").

Definition num (n : N) : string := NilEmpty.string_of_uint (N.to_uint n).

Definition opt {A} (f : A -> string) (o : option A) : string :=
  match o with
  | Some a => f a
  | None => "null"
  end.

(** ["key":value] *)
Definition member (k v : string) : string := str k ++ ":" ++ v.

Fixpoint commas (l : list string) : string :=
  match l with
  | [] => ""
  | [x] => x
  | x :: rest => x ++ "," ++ commas rest
  end.

Definition obj (members : list string) : string := "{" ++ commas members ++ "}".
Definition arr (items : list string) : string := "[" ++ commas items ++ "]".

Definition comment (c : Comment) : string :=
  obj [ member "id" (num (c_id c));
        member "text" (str (c_text c));
        member "author" (str (c_author c));
        member "authorName" (opt str (c_authorName c));
        member "timestamp" (num (c_timestamp c)) ].

Definition post_members (p : Post) : list string :=
  [ member "id" (num (p_id p));
    member "text" (str (p_text p));
    member "image" (opt str (p_image p));
    member "author" (str (p_author p));
    member "authorName" (opt str (p_authorName p));
    member "timestamp" (num (p_timestamp p));
    member "comments" (arr (map comment (p_comments p)));
    member "channel" (opt str (p_channel p)) ]
  ++ match p_editedAt p with
     | Some t => [ member "editedAt" (num t) ]
     | None => []
     end.

(** [JSON.stringify({...post, previousHash})] *)
Definition post_with_previousHash (p : Post) (previousHash : string) : string :=
  obj (post_members p ++ [ member "previousHash" (str previousHash) ]).

End Json.

(** [hashPost(post, previousHash)] *)
Definition hashPost (post : Post) (previousHash : string) : string :=
  Sha256.sha256 (Json.post_with_previousHash post previousHash).

(* ================================================================== *)
(** * String helpers of the request handlers *)
(* ================================================================== *)

Module Js.

Definition bytes (s : string) : list N := map N_of_ascii (list_ascii_of_string s).
Definition of_bytes (bs : list N) : string :=
  string_of_list_ascii (map ascii_of_N bs).

(** Removes one leading white-space code point, in UTF-8: TAB, LF, VT,
    FF, CR, SP, U+00A0, U+1680, U+2000..U+200A, U+2028, U+2029, U+202F,
    U+205F, U+3000 and U+FEFF, the set that [String.prototype.trim]
    strips. *)
Definition strip_ws (bs : list N) : option (list N) :=
  match bs with
  | b0 :: r0 =>
      if ((9 <=? b0) && (b0 <=? 13) || (b0 =? 32))%N then Some r0
      else
        match r0 with
        | b1 :: r1 =>
            if ((b0 =? 0xC2) && (b1 =? 0xA0))%N then Some r1
            else
              match r1 with
              | b2 :: r2 =>
                  if ((b0 =? 0xE1) && (b1 =? 0x9A) && (b2 =? 0x80)
                      || (b0 =? 0xE2) && (b1 =? 0x80)
                         && ((0x80 <=? b2) && (b2 <=? 0x8A)
                             || (b2 =? 0xA8) || (b2 =? 0xA9) || (b2 =? 0xAF))
                      || (b0 =? 0xE2) && (b1 =? 0x81) && (b2 =? 0x9F)
                      || (b0 =? 0xE3) && (b1 =? 0x80) && (b2 =? 0x80)
                      || (b0 =? 0xEF) && (b1 =? 0xBB) && (b2 =? 0xBF))%N
                  then Some r2 else None
              | [] => None
              end
        | [] => None
        end
  | [] => None
  end.

Fixpoint trimStart_fuel (fuel : nat) (bs : list N) : list N :=
  match fuel with
  | O => bs
  | S f =>
      match strip_ws bs with
      | Some r => trimStart_fuel f r
      | None => bs
      end
  end.

Definition trimStart (bs : list N) : list N := trimStart_fuel (length bs) bs.

Definition all_ws (bs : list N) : bool :=
  match trimStart bs with
  | [] => true
  | _ :: _ => false
  end.

Fixpoint trimEnd (bs : list N) : list N :=
  match bs with
  | [] => []
  | b :: r => if all_ws bs then [] else b :: trimEnd r
  end.

(** [s.trim()] *)
Definition trim (s : string) : string := of_bytes (trimEnd (trimStart (bytes s))).

(** [s.toLowerCase()] on the ASCII letters, which is all that occurs in
    the hexadecimal addresses it is applied to. *)
Definition lower_char (c : ascii) : ascii :=
  let n := N_of_ascii c in
  if ((65 <=? n) && (n <=? 90))%N then ascii_of_N (n + 32) else c.

Definition toLowerCase (s : string) : string :=
  string_of_list_ascii (map lower_char (list_ascii_of_string s)).

(** [s.startsWith(p)] *)
Definition startsWith (s p : string) : bool := String.prefix p s.

End Js.

(* ================================================================== *)
(** * Chain batcher *)
(* ================================================================== *)

(** [this.rootConfig.ipfs]: the section may be missing from the root
    configuration, and its [url] may be unset. *)
Record IpfsConfig : Type := mkIpfs {
  ipfs_url : option string;
  ipfs_gateway : string
}.

Record RootConfig : Type := mkRoot {
  rc_ipfs : option IpfsConfig
}.

(** What the content store does with one [fetch(url + '/add')]:
    the call rejects, or a response arrives with [response.ok] and the
    outcome of [response.json()] ([None] when that throws, otherwise the
    [Hash] member of the body, which may be absent). *)
Inductive FetchOutcome : Type :=
| FetchRejects
| FetchResponse (ok : bool) (json : option (option string)).

Record IpfsResult : Type := mkIpfsResult {
  ir_hash : option string;
  ir_url : string
}.

(** [uploadToIPFS(data)].  The uploaded body does not influence what the
    function returns, so it is not an argument here.  Reading
    [this.rootConfig.ipfs.url] stands before the [try] and throws when the
    [ipfs] section is missing; everything after it is caught. *)
Definition uploadToIPFS (cfg : RootConfig) (net : FetchOutcome)
  : result (option IpfsResult) :=
  match rc_ipfs cfg with
  | None => Throw
  | Some ipfs =>
      match truthy_str (ipfs_url ipfs) with
      | None => Ok None
      | Some _ =>
          match net with
          | FetchRejects => Ok None
          | FetchResponse false _ => Ok None
          | FetchResponse true None => Ok None
          | FetchResponse true (Some h) =>
              Ok (Some (mkIpfsResult h
                          (ipfs_gateway ipfs +:+ "/ipfs/" +:+ default "undefined" h)))
          end
      end
  end.

(** ** The batch file

    [Config] is a class of the [epistery] package, which is not part of
    this repository.  [getDomainState] calls its [readFile] on the batch
    file and uses the result as an object with the members [chain] and
    [lastHash], defaulting when the result is falsy; the other callers of
    [readFile] in the agent ([migrateLegacyData], [loadSidebarLinks]) pass
    the result through [JSON.parse] and expect a throw for an absent
    file.  What the call hands back is therefore not decided here: the
    behaviour of [readFile] is a parameter of the batcher. *)

(** What one call of [config.readFile('message-board-batch.json')] does:
    it throws, or returns a falsy value, or returns a value on which the
    members [chain] and [lastHash] are read ([None] for [undefined], which
    is what both are on a buffer or a string of raw content). *)
Inductive BatchRead : Type :=
| ReadThrows
| ReadFalsy
| ReadValue (chain : option (list ChainedPost)) (lastHash : option string).

(** The behaviours of [readFile]: on an absent file it throws (as
    [fs.readFileSync] does) or returns a falsy value; on a present file
    it returns the raw content that [saveBatchState] wrote, or the object
    parsed from it. *)
Inductive OnAbsent : Type := AbsentThrows | AbsentFalsy.
Inductive OnPresent : Type := PresentRaw | PresentParsed.

Record ReadFile : Type := mkReadFile {
  onAbsent : OnAbsent;
  onPresent : OnPresent
}.

Definition readFile (rf : ReadFile) (file : option BatchData) : BatchRead :=
  match file with
  | None =>
      match onAbsent rf with
      | AbsentThrows => ReadThrows
      | AbsentFalsy => ReadFalsy
      end
  | Some bd =>
      match onPresent rf with
      | PresentRaw => ReadValue None None
      | PresentParsed => ReadValue (Some (bd_chain bd)) (Some (bd_lastHash bd))
      end
  end.

(** [getDomainState(domain)].  Nothing in it is caught: a throw of
    [readFile] leaves the function, and no entry is put into
    [domainStates]. *)
Definition getDomainState (rf : ReadFile) (b : Batcher)
  : result (Batcher * DomainState) :=
  match loaded b with
  | Some s => Ok (b, s)
  | None =>
      match readFile rf (batchFile b) with
      | ReadThrows => Throw
      | ReadFalsy =>
          let s := mkState [] genesisHash in
          Ok (mkBatcher (Some s) (batchFile b), s)
      | ReadValue chain lastHash =>
          let s := mkState (default [] chain)
                           (default genesisHash (truthy_str lastHash)) in
          Ok (mkBatcher (Some s) (batchFile b), s)
      end
  end.

(** [saveBatchState(domain)], given the value of [Date.now()].  Writing
    the file is taken to succeed. *)
Definition saveBatchState (rf : ReadFile) (now : N) (b : Batcher) : result Batcher :=
  match getDomainState rf b with
  | Throw => Throw
  | Ok (b1, state) =>
      Ok (mkBatcher (loaded b1)
                    (Some (mkBatchData (postChain state) (lastHash state) now)))
  end.

(** [flushBatch(domain)].  [net] is what the content store does with the
    upload of the summary and [now] the clock.  The summary object is only
    the body of that upload and the result of the upload is only logged,
    so neither appears here.  [getDomainState] is called before the [try]:
    its throw leaves the function.  The [try] covers everything after the
    emptiness test, and the [catch] only logs, leaving the state as it was
    at the throw. *)
Definition flushBatch (rf : ReadFile) (cfg : RootConfig) (net : FetchOutcome) (now : N)
    (b : Batcher) : Batcher * result unit :=
  match getDomainState rf b with
  | Throw => (b, Throw)
  | Ok (b1, state) =>
      match postChain state with
      | [] => (b1, Ok tt)
      | _ :: _ =>
          match uploadToIPFS cfg net with
          | Throw => (b1, Ok tt)
          | Ok _batchIpfs =>
              let state' := mkState [] (Sha256.sha256 (lastHash state)) in
              let b2 := mkBatcher (Some state') (batchFile b1) in
              match saveBatchState rf now b2 with
              | Ok b3 => (b3, Ok tt)
              | Throw => (b2, Ok tt)
              end
          end
      end
  end.

(** The environment of one [addPostToBatch] call: the content store's
    behaviour on the upload of the link and on the upload of the batch
    summary (consulted only when the call flushes), and the clock. *)
Record BatchEnv : Type := mkEnv {
  env_link : FetchOutcome;
  env_batch : FetchOutcome;
  env_now : N
}.

(** The link as [addPostToBatch] first builds it. *)
Definition newLink (post : Post) (userSignature : option string)
    (state : DomainState) : ChainedPost :=
  mkChained post (hashPost post (lastHash state)) (lastHash state)
            (length (postChain state)) userSignature None None.

(** [chainedPost.ipfsHash = ..; chainedPost.ipfsUrl = ..] when the upload
    returned a result. *)
Definition attachIpfs (l : ChainedPost) (r : option IpfsResult) : ChainedPost :=
  match r with
  | Some res =>
      mkChained (cp_post l) (cp_hash l) (cp_previousHash l) (cp_chainIndex l)
                (cp_userSignature l) (ir_hash res) (Some (ir_url res))
  | None => l
  end.

(** [addPostToBatch(post, userSignature, domain)] with the domain's batch
    threshold, run to completion.  [signPostAsServer] only contributes to
    the uploaded body and cannot throw, so it leaves no trace here.  The
    result pairs the batcher after the call with the returned link, or
    with [Throw] when [getDomainState] or the upload threw (nothing is
    pushed then). *)
Definition addPostToBatch (rf : ReadFile) (cfg : RootConfig) (batchThreshold : nat)
    (env : BatchEnv) (post : Post) (userSignature : option string)
    (b : Batcher) : Batcher * result ChainedPost :=
  match getDomainState rf b with
  | Throw => (b, Throw)
  | Ok (b1, state) =>
      let chainedPost := newLink post userSignature state in
      match uploadToIPFS cfg (env_link env) with
      | Throw => (b1, Throw)
      | Ok ipfsResult =>
          let chainedPost := attachIpfs chainedPost ipfsResult in
          let state' := mkState (postChain state ++ [chainedPost]) (cp_hash chainedPost) in
          let b2 := mkBatcher (Some state') (batchFile b1) in
          match saveBatchState rf (env_now env) b2 with
          | Throw => (b2, Throw)
          | Ok b3 =>
              if (batchThreshold <=? length (postChain state'))%nat
              then
                match flushBatch rf cfg (env_batch env) (env_now env) b3 with
                | (b4, Ok _) => (b4, Ok chainedPost)
                | (b4, Throw) => (b4, Throw)
                end
              else (b3, Ok chainedPost)
          end
      end
  end.

(** [batchThreshold: this.manifestConfig.batchThreshold || 5] of
    [getDomainConfig]: an absent or zero manifest value gives 5. *)
Definition default_batchThreshold (manifest : option nat) : nat :=
  match manifest with
  | Some (S n) => S n
  | _ => 5%nat
  end.

(** The agent as the constructor leaves it, for a domain without a batch
    file. *)
Definition fresh_batcher : Batcher := mkBatcher None None.

(** A domain before its first use by the process: no state in memory, and
    a batch file that is absent or holds an empty chain under the genesis
    hash. *)
Definition at_start (b : Batcher) : Prop :=
  loaded b = None
  /\ match batchFile b with
     | None => True
     | Some bd => bd_chain bd = [] /\ bd_lastHash bd = genesisHash
     end.

(** A process restart: the in-memory map is gone, the files stay. *)
Definition restart (b : Batcher) : Batcher := mkBatcher None (batchFile b).

(** The state the next [getDomainState] call returns, if it returns. *)
Definition current_state (rf : ReadFile) (b : Batcher) : option DomainState :=
  match getDomainState rf b with
  | Ok (_, s) => Some s
  | Throw => None
  end.

(** Appending a sequence of posts, one call after the other, each to
    completion: the batcher at the end and the links the calls returned,
    in order.  A call that throws returns no link and leaves its batcher
    to the next one. *)
Fixpoint addPosts (rf : ReadFile) (cfg : RootConfig) (batchThreshold : nat)
    (calls : list (BatchEnv * Post)) (b : Batcher) : Batcher * list ChainedPost :=
  match calls with
  | [] => (b, [])
  | (env, post) :: rest =>
      let '(b1, r) := addPostToBatch rf cfg batchThreshold env post None b in
      let '(b2, links) := addPosts rf cfg batchThreshold rest b1 in
      (b2, match r with Ok l => l :: links | Throw => links end)
  end.

(** What can happen to a domain's batcher: an append, a forced flush
    ([cleanup]) or a restart of the process. *)
Inductive BatchOp : Type :=
| OpAdd (env : BatchEnv) (post : Post) (userSignature : option string)
| OpFlush (net : FetchOutcome) (now : N)
| OpRestart.

Definition batch_step (rf : ReadFile) (cfg : RootConfig) (batchThreshold : nat)
    (b : Batcher) (op : BatchOp) : Batcher :=
  match op with
  | OpAdd env post sig => fst (addPostToBatch rf cfg batchThreshold env post sig b)
  | OpFlush net now => fst (flushBatch rf cfg net now b)
  | OpRestart => restart b
  end.

Definition batch_run (rf : ReadFile) (cfg : RootConfig) (batchThreshold : nat)
    (ops : list BatchOp) (b : Batcher) : Batcher :=
  fold_left (batch_step rf cfg batchThreshold) ops b.

(** ** Appends in flight

    [addPostToBatch] is asynchronous.  It builds its link from the state
    it finds (the hash, [previousHash: state.lastHash] and
    [chainIndex: state.postChain.length]), then awaits the server's
    signature and the upload, and only afterwards pushes the link and
    sets [state.lastHash].  The post handler starts one call per accepted
    post from [setImmediate] and awaits none of them, so a second call
    can begin while the first one awaits.  The two halves of a call: *)

(** up to the first [await]: the state is fetched and the link built; *)
Definition addPostToBatch_begin (rf : ReadFile) (post : Post)
    (userSignature : option string) (b : Batcher) : result (Batcher * ChainedPost) :=
  match getDomainState rf b with
  | Throw => Throw
  | Ok (b1, state) => Ok (b1, newLink post userSignature state)
  end.

(** from the upload on.  [state] is the object the call fetched at its
    start: the domain's entry in [domainStates], which [getDomainState]
    returns. *)
Definition addPostToBatch_resume (rf : ReadFile) (cfg : RootConfig) (batchThreshold : nat)
    (env : BatchEnv) (chainedPost : ChainedPost) (b : Batcher)
  : Batcher * result ChainedPost :=
  match getDomainState rf b with
  | Throw => (b, Throw)
  | Ok (b1, state) =>
      match uploadToIPFS cfg (env_link env) with
      | Throw => (b1, Throw)
      | Ok ipfsResult =>
          let chainedPost := attachIpfs chainedPost ipfsResult in
          let state' := mkState (postChain state ++ [chainedPost]) (cp_hash chainedPost) in
          let b2 := mkBatcher (Some state') (batchFile b1) in
          match saveBatchState rf (env_now env) b2 with
          | Throw => (b2, Throw)
          | Ok b3 =>
              if (batchThreshold <=? length (postChain state'))%nat
              then
                match flushBatch rf cfg (env_batch env) (env_now env) b3 with
                | (b4, Ok _) => (b4, Ok chainedPost)
                | (b4, Throw) => (b4, Throw)
                end
              else (b3, Ok chainedPost)
          end
      end
  end.

(** Two posts accepted in quick succession: both calls begin before
    either upload settles, then both resume.  The batcher at the end, or
    [None] when a call threw. *)
Definition two_in_flight (rf : ReadFile) (cfg : RootConfig) (batchThreshold : nat)
    (env : BatchEnv) (post1 post2 : Post) (b : Batcher) : option Batcher :=
  match addPostToBatch_begin rf post1 None b with
  | Throw => None
  | Ok (b1, link1) =>
      match addPostToBatch_begin rf post2 None b1 with
      | Throw => None
      | Ok (b2, link2) =>
          match addPostToBatch_resume rf cfg batchThreshold env link1 b2 with
          | (_, Throw) => None
          | (b3, Ok _) =>
              match addPostToBatch_resume rf cfg batchThreshold env link2 b3 with
              | (_, Throw) => None
              | (b4, Ok _) => Some b4
              end
          end
      end
  end.

(** Chain integrity relative to a root: the first link points at [root],
    every later link at the hash of its predecessor, and [last] is the
    hash of the final link (or [root] when there is none). *)
Fixpoint linked (root : string) (chain : list ChainedPost) (last : string) : Prop :=
  match chain with
  | [] => last = root
  | l :: rest => cp_previousHash l = root /\ linked (cp_hash l) rest last
  end.

(** The same, by index, as the specification words it. *)
Definition chain_integrity (root : string) (chain : list ChainedPost) : Prop :=
  (forall l, chain !! 0%nat = Some l -> cp_previousHash l = root) /\
  (forall i l l', chain !! i = Some l -> chain !! S i = Some l' ->
                  cp_previousHash l' = cp_hash l).


(** The link's hash is [hashPost] of its post and its [previousHash]. *)
Definition well_hashed (l : ChainedPost) : Prop :=
  cp_hash l = hashPost (cp_post l) (cp_previousHash l).

(** The content store is unreachable or refuses: [uploadToIPFS] returns
    [null]. *)
Definition upload_fails (cfg : RootConfig) (net : FetchOutcome) : Prop :=
  uploadToIPFS cfg net = Ok None.

(** The upload throws: [this.rootConfig.ipfs.url] is evaluated before the
    [try], so a root configuration without its [ipfs] section makes the
    call throw. *)
Definition upload_throws (cfg : RootConfig) (net : FetchOutcome) : Prop :=
  uploadToIPFS cfg net = Throw.

(** An anchoring call that fails, one way or the other. *)
Definition anchoring_fails (cfg : RootConfig) (net : FetchOutcome) : Prop :=
  upload_fails cfg net \/ upload_throws cfg net.

(* ================================================================== *)
(** * Tenant storage backend *)
(* ================================================================== *)

(** One metadata entry of [posts/index.json]. *)
Record IndexEntry : Type := mkMeta {
  ie_id : N;
  ie_timestamp : N;
  ie_author : string;
  ie_channel : option string
}.

Record Index : Type := mkIndex {
  ix_nextId : N;
  ix_posts : list IndexEntry
}.

(** The object [readData] returns and the request handlers mutate. *)
Record Data : Type := mkData {
  d_posts : list Post;
  d_nextId : N
}.

(** [message-board-posts.json], the legacy monolith, as [config.readFile]
    and [JSON.parse] find it: absent (the error carries [ENOENT] or a
    message with [not found]), unreadable (any other error, which
    [migrateLegacyData] rethrows), or a parsed [{posts, nextId}]. *)
Inductive LegacyFile : Type :=
| LegacyMissing
| LegacyUnreadable
| LegacyData (d : Data).

(** The durable state of one domain.  [indexFile = None] stands for every
    way in which reading and parsing [posts/index.json] throws;
    [postFiles] maps [id] to the content of [posts/<id>.json], and a
    missing key stands for a record that cannot be read or parsed.  Files
    hold the values themselves: [JSON.parse (JSON.stringify v)] is taken
    to give [v] back.  Writes to the storage backend are taken to succeed. *)
Record Storage : Type := mkStorage {
  indexFile : option Index;
  postFiles : gmap N Post;
  legacyFile : LegacyFile
}.

Definition empty_storage : Storage := mkStorage None ∅ LegacyMissing.

(** [p => ({id, timestamp, author, channel: p.channel || null})] *)
Definition meta_of (p : Post) : IndexEntry :=
  mkMeta (p_id p) (p_timestamp p) (p_author p) (truthy_str (p_channel p)).

(** The index object that [writeData] and [migrateLegacyData] build. *)
Definition index_of (data : Data) : Index :=
  mkIndex (d_nextId data) (map meta_of (d_posts data)).

(** [Math.max(...posts.map(p => p.id), 0)] *)
Definition max_id (posts : list Post) : N :=
  fold_right (fun p m => N.max (p_id p) m) 0%N posts.

(** [writePost(domain, post)] *)
Definition writePost (post : Post) (st : Storage) : Storage :=
  mkStorage (indexFile st) (<[p_id post := post]> (postFiles st)) (legacyFile st).

(** [deletePost(domain, postId)] *)
Definition deletePost (postId : N) (st : Storage) : Storage :=
  mkStorage (indexFile st) (delete postId (postFiles st)) (legacyFile st).

(** [writeData(domain, data)] *)
Definition writeData (data : Data) (st : Storage) : Storage :=
  mkStorage (Some (index_of data)) (postFiles st) (legacyFile st).

(** [migrateLegacyData(domain, storage)] *)
Definition migrateLegacyData (st : Storage) : result (Storage * Data) :=
  match legacyFile st with
  | LegacyData data =>
      let st1 := fold_left (fun s p => writePost p s) (d_posts data) st in
      Ok (writeData data st1, data)
  | LegacyMissing => Ok (st, mkData [] 1)
  | LegacyUnreadable => Throw
  end.

(** [readData(domain)].  With an index: the posts are the records the
    index names, in index order, unreadable ones dropped; [nextId] falls
    back to one more than the largest id when the stored one is falsy. *)
Definition readData (st : Storage) : result (Storage * Data) :=
  match indexFile st with
  | Some index =>
      let posts := omap (fun meta => postFiles st !! ie_id meta) (ix_posts index) in
      Ok (st, mkData posts
                     (if (ix_nextId index =? 0)%N then (max_id posts + 1)%N
                      else ix_nextId index))
  | None => migrateLegacyData st
  end.

(** The storage after a call of [migrateLegacyData], whatever it returns. *)
Definition after_migration (st : Storage) : Storage :=
  match migrateLegacyData st with
  | Ok (st', _) => st'
  | Throw => st
  end.

(** The data a call of [migrateLegacyData] returns, if it returns. *)
Definition migrated_data (st : Storage) : option Data :=
  match migrateLegacyData st with
  | Ok (_, d) => Some d
  | Throw => None
  end.

(* ================================================================== *)
(** * Access resolver *)
(* ================================================================== *)

(** [req.domainAcl.checkAgentAccess(..)]: the call throws (oracle
    unreachable), or yields an object whose [level] is a number. *)
Inductive AccessCheck : Type :=
| AccessThrows
| AccessLevel (level : N).

(** One entry of an access list, as [getACL] returns it. *)
Record AclEntry : Type := mkAclEntry {
  acl_addr : string;
  acl_name : option string
}.

(** The external authorization oracle as one request sees it: the answer
    of [checkAgentAccess] for the caller, the names of the lists that
    [getListsForMember] reports for the caller, the entries [getACL]
    returns for a list, and the answer of [isInACL] for the caller and a
    list.  Each of the contract calls may throw. *)
Record Oracle : Type := mkOracle {
  oracle_access : AccessCheck;
  oracle_listsForMember : result (list string);
  oracle_getACL : string -> result (list AclEntry);
  oracle_isInACL : string -> result bool
}.

Record Client : Type := mkClient {
  address : string
}.

Record User : Type := mkUser {
  u_address : string;
  u_name : option string
}.

Record Permission : Type := mkPermission {
  allowed : bool;
  reason : option string;
  user : option User;
  level : option N
}.

(** The loop of [getUserName] over the caller's lists: the first list
    whose entry for the address carries a name that is not blank. *)
Fixpoint getUserName_lists (o : Oracle) (address : string) (lists : list string)
  : result (option string) :=
  match lists with
  | [] => Ok None
  | listName :: rest =>
      match oracle_getACL o listName with
      | Throw => Throw
      | Ok aclEntries =>
          let userEntry :=
            find (fun e => bool_decide (Js.toLowerCase (acl_addr e)
                                        = Js.toLowerCase address)) aclEntries in
          match userEntry with
          | Some e =>
              match truthy_str (acl_name e) with
              | Some name =>
                  if bool_decide (Js.trim name = "") then getUserName_lists o address rest
                  else Ok (Some name)
              | None => getUserName_lists o address rest
              end
          | None => getUserName_lists o address rest
          end
      end
  end.

(** [getUserName(req, address)]: any throw is caught and gives [null]. *)
Definition getUserName (o : Oracle) (address : string) : option string :=
  match oracle_listsForMember o with
  | Throw => None
  | Ok lists =>
      match getUserName_lists o address lists with
      | Throw => None
      | Ok name => name
      end
  end.

(** [checkPostingPermission(req)] *)
Definition checkPostingPermission (client : option Client) (o : Oracle) : Permission :=
  match client with
  | None => mkPermission false (Some "Authentication required") None None
  | Some c =>
      match oracle_access o with
      | AccessLevel l =>
          if (2 <=? l)%N
          then mkPermission true None
                            (Some (mkUser (address c) (getUserName o (address c)))) (Some l)
          else mkPermission false
                 (Some "You need editor privileges to post. Request access in the sidebar.")
                 None None
      | AccessThrows => mkPermission false (Some "Permission check failed") None None
      end
  end.

(** [checkAdminPermission(req)] *)
Definition checkAdminPermission (client : option Client) (o : Oracle) : Permission :=
  match client with
  | None => mkPermission false (Some "Authentication required") None None
  | Some c =>
      match oracle_access o with
      | AccessLevel l =>
          if (3 <=? l)%N
          then mkPermission true None (Some (mkUser (address c) None)) (Some l)
          else mkPermission false (Some "Admin permission required") None None
      | AccessThrows => mkPermission false (Some "Permission check failed") None None
      end
  end.

(* ================================================================== *)
(** * Channel registry *)
(* ================================================================== *)

Record Channel : Type := mkChannel {
  ch_name : string;
  ch_list : option string
}.

(** An element of [messageBoard.channels]: a channel object, or a string
    that the handlers pass through [JSON.parse].  For a string entry the
    outcome of parsing is recorded: [Throw] when [JSON.parse] throws,
    [Ok None] when it yields [null], [Ok (Some c)] when it yields an
    object. *)
Inductive ChannelEntry : Type :=
| ChObj (c : Channel)
| ChStr (parsed : result (option Channel)).

(** [typeof c === 'string' ? JSON.parse(c) : c] followed by [ch.name]:
    reading [name] off [null] throws. *)
Definition entry_name (e : ChannelEntry) : result string :=
  match e with
  | ChObj c => Ok (ch_name c)
  | ChStr (Ok (Some c)) => Ok (ch_name c)
  | ChStr (Ok None) => Throw
  | ChStr Throw => Throw
  end.

(** [channels.find(c => parse(c).name === name)]: whether a match is
    found; evaluation stops at the first match and throws at the first
    entry that cannot be examined before one. *)
Fixpoint channel_exists (name : string) (channels : list ChannelEntry) : result bool :=
  match channels with
  | [] => Ok false
  | e :: rest =>
      match entry_name e with
      | Throw => Throw
      | Ok n => if decide (n = name) then Ok true else channel_exists name rest
      end
  end.

(** A character of the class [[a-z0-9-]]. *)
Definition channel_char (c : ascii) : bool :=
  let n := N_of_ascii c in
  ((97 <=? n) && (n <=? 122) || (48 <=? n) && (n <=? 57) || (n =? 45))%N.

(** [/^[a-z0-9-]+$/.test(name)] *)
Definition channel_pattern (name : string) : bool :=
  match name with
  | EmptyString => false
  | _ => forallb channel_char (list_ascii_of_string name)
  end.

(** An HTTP answer: a JSON body, a status with the handler's own error
    message (further members of an error body are left out), or the
    answer of the handler's outer [catch], status 500 with the message of
    whatever was thrown. *)
Inductive Response (A : Type) : Type :=
| Json (body : A)
| Error (status : N) (message : string)
| ServerError.
Arguments Json {A} body.
Arguments Error {A} status message.
Arguments ServerError {A}.

(** [router.post('/api/channels')].  [name] and [listRef] are the members [name] and [list] of
    the request body; the result is the channel list of the domain
    afterwards and the answer. *)
Definition createChannel (client : option Client) (o : Oracle)
    (name listRef : option string) (channels : list ChannelEntry)
  : list ChannelEntry * Response Channel :=
  if negb (allowed (checkAdminPermission client o))
  then (channels, Error 403 "Only admins can add channels")
  else
    match truthy_str name with
    | None =>
        (channels,
         Error 400 "Invalid channel name. Use lowercase letters, numbers, and hyphens only.")
    | Some name =>
        if negb (channel_pattern name)
        then (channels,
              Error 400 "Invalid channel name. Use lowercase letters, numbers, and hyphens only.")
        else if decide (name = "general")
        then (channels,
              Error 400 ("Channel name " +:+ Json.str "general"
                         +:+ " is reserved for uncategorized posts."))
        else
          match channel_exists name channels with
          | Throw => (channels, ServerError)
          | Ok true => (channels, Error 400 "Channel already exists")
          | Ok false =>
              let ch := mkChannel name (truthy_str listRef) in
              (channels ++ [ChObj ch], Json ch)
          end
    end.

(** The names currently in the channel set (entries that cannot be
    examined carry none). *)
Definition channel_names (channels : list ChannelEntry) : list string :=
  omap (fun e => match entry_name e with Ok n => Some n | Throw => None end) channels.

(** [channels.map(parse).filter(Boolean)] of [getAccessibleChannelNames]. *)
Fixpoint parsed_channels (channels : list ChannelEntry) : result (list Channel) :=
  match channels with
  | [] => Ok []
  | e :: rest =>
      match e with
      | ChStr Throw => Throw
      | ChStr (Ok None) => parsed_channels rest
      | ChObj c | ChStr (Ok (Some c)) =>
          match parsed_channels rest with
          | Ok cs => Ok (c :: cs)
          | Throw => Throw
          end
      end
  end.

(** The loop over the channels for a caller below admin level. *)
Fixpoint accessible_below_admin (o : Oracle) (l : N) (channels : list Channel)
    (acc : gset string) : result (gset string) :=
  match channels with
  | [] => Ok acc
  | ch :: rest =>
      match truthy_str (ch_list ch) with
      | None =>
          accessible_below_admin o l rest
            (if (1 <=? l)%N then acc ∪ {[ ch_name ch ]} else acc)
      | Some listRef =>
          match oracle_isInACL o listRef with
          | Throw => Throw
          | Ok isInList =>
              accessible_below_admin o l rest
                (if isInList then acc ∪ {[ ch_name ch ]} else acc)
          end
      end
  end.

(** [getAccessibleChannelNames(req)].  Nothing in it is caught: a throw of
    the oracle or of [JSON.parse] leaves the function. *)
Definition getAccessibleChannelNames (client : option Client) (o : Oracle)
    (channels : list ChannelEntry) : result (gset string) :=
  match parsed_channels channels with
  | Throw => Throw
  | Ok chs =>
      let general : gset string := {[ "general" ]} in
      let authenticated :=
        match client with
        | Some c => negb (bool_decide (address c = ""))
        | None => false
        end in
      if authenticated then
        match oracle_access o with
        | AccessThrows => Throw
        | AccessLevel l =>
            if (3 <=? l)%N
            then Ok (general ∪ list_to_set (map ch_name chs))
            else accessible_below_admin o l chs general
        end
      else
        Ok (general ∪
            list_to_set (map ch_name
              (filter (fun ch => truthy_str (ch_list ch) = None) chs)))
  end.

(* ================================================================== *)
(** * Ledger writer *)
(* ================================================================== *)

(** [messageBoard.imageSettings], as far as the post handler reads it:
    the size limit in bytes ([maxProcessedSize * 1024 * 1024], rounded
    down, which does not change a comparison with an integer), the limit
    as it is printed in the error message, and [allowSvg]. *)
Record ImageSettings : Type := mkImageSettings {
  maxProcessedBytes : N;
  maxProcessedSize : string;
  allowSvg : bool
}.

(** [req.boardConfig.data.messageBoard] *)
Record BoardConfig : Type := mkBoard {
  minNotabotPoints : N;
  batchThreshold : nat;
  channels : list ChannelEntry;
  imageSettings : ImageSettings
}.

(** The members of the body of a post request. *)
Record PostBody : Type := mkBody {
  body_text : option string;
  body_image : option string;
  body_channel : option string
}.

(** A message handed to [broadcast]. *)
Inductive Event : Type :=
| NewPost (post : Post)
| NewComment (postId : N) (comment : Comment)
| DeletePost (postId : N)
| EditPost (post : Post).

(** What a write handler leaves behind: the storage, the answer, the
    broadcast message if any, and the post handed to [addPostToBatch]
    through [setImmediate] if any. *)
Record Outcome (A : Type) : Type := mkOutcome {
  out_storage : Storage;
  out_response : Response A;
  out_broadcast : option Event;
  out_batch : option Post
}.
Arguments mkOutcome {A} _ _ _ _.
Arguments out_storage {A} _.
Arguments out_response {A} _.
Arguments out_broadcast {A} _.
Arguments out_batch {A} _.

(** A handler that answers without having changed anything. *)
Definition reject {A} (st : Storage) (r : Response A) : Outcome A :=
  mkOutcome st r None None.

(** The post object of [router.post('/api/posts')]. *)
Definition newPost (data : Data) (body_text : string) (image channel : option string)
    (u : User) (now : N) : Post :=
  mkPost (d_nextId data) (Js.trim body_text) (truthy_str image) (u_address u)
         (truthy_str (u_name u)) now [] (truthy_str channel) None.

(** [data.nextId++] and [data.posts.unshift(post)] *)
Definition unshiftPost (post : Post) (data : Data) : Data :=
  mkData (post :: d_posts data) (d_nextId data + 1).

Section Ledger.

(** [sanitizeSvg(dataUrl)] is a cascade of regular-expression
    replacements in the source.  The post handler stores its result in
    [req.body.image], which it does not read again, so that only whether
    the call throws reaches the handler's behaviour; the function is a
    parameter here. *)
Variable sanitizeSvg : string -> result string.

(** The image checks of the post handler; [Some r] is the answer that
    ends the request. *)
Definition validateImage (settings : ImageSettings) (image : string)
  : option (Response Post) :=
  if negb (Js.startsWith image "data:image/")
  then Some (Error 400 "Invalid image format")
  else
    let sizeInBytes := ((3 * N.of_nat (String.length image) + 2) / 4)%N in
    if (maxProcessedBytes settings <? sizeInBytes)%N
    then Some (Error 400 ("Image too large. Maximum size is "
                          +:+ maxProcessedSize settings +:+ "MB."))
    else
      let isJpeg := Js.startsWith image "data:image/jpeg" in
      let isSvg := Js.startsWith image "data:image/svg+xml" in
      if negb isJpeg && negb isSvg
      then Some (Error 400 "Only JPEG and SVG images are allowed")
      else if isSvg && negb (allowSvg settings)
      then Some (Error 400 "SVG images are not allowed on this board")
      else if isSvg then
        match sanitizeSvg image with
        | Ok _ => None
        | Throw => Some (Error 400 "Invalid or malicious SVG content")
        end
      else None.

(** Everything the post handler checks before it consults the access
    resolver, in the handler's order: text, channel, image. *)
Definition validatePost (cfg : BoardConfig) (body : PostBody)
  : option (Response Post) :=
  match truthy_str (body_text body) with
  | None => Some (Error 400 "Text is required")
  | Some text =>
      if (String.length (Js.trim text) =? 0)%nat
      then Some (Error 400 "Text is required")
      else
        let channel_answer :=
          match truthy_str (body_channel body) with
          | None => None
          | Some channel =>
              if decide (channel = "general") then None
              else
                match channel_exists channel (channels cfg) with
                | Throw => Some ServerError
                | Ok false => Some (Error 400 "Invalid channel")
                | Ok true => None
                end
          end in
        match channel_answer with
        | Some r => Some r
        | None =>
            match truthy_str (body_image body) with
            | None => None
            | Some image => validateImage (imageSettings cfg) image
            end
        end
  end.

(** [router.post('/api/posts')]: submitPost. *)
Definition submitPost (cfg : BoardConfig) (client : option Client) (o : Oracle)
    (body : PostBody) (now : N) (st : Storage) : Outcome Post :=
  match validatePost cfg body with
  | Some r => reject st r
  | None =>
      let permission := checkPostingPermission client o in
      match allowed permission, user permission with
      | true, Some u =>
          match readData st with
          | Throw => reject st ServerError
          | Ok (st1, data) =>
              let post := newPost data (default "" (body_text body))
                                  (body_image body) (body_channel body) u now in
              let data' := unshiftPost post data in
              let st2 := writeData data' (writePost post st1) in
              mkOutcome st2 (Json post) (Some (NewPost post)) (Some post)
          end
      | _, _ => reject st (Error 403 (default "" (reason permission)))
      end
  end.

End Ledger.

(** Replaces the first element that satisfies [f], as a mutation of the
    object that [Array.prototype.find] returned does. *)
Fixpoint update_first {A} (f : A -> bool) (g : A -> A) (l : list A) : list A :=
  match l with
  | [] => []
  | x :: rest => if f x then g x :: rest else x :: update_first f g rest
  end.

(** [splice(findIndex(f), 1)] when an element satisfies [f]. *)
Fixpoint remove_first {A} (f : A -> bool) (l : list A) : list A :=
  match l with
  | [] => []
  | x :: rest => if f x then rest else x :: remove_first f rest
  end.

Definition has_id (postId : N) (p : Post) : bool := (p_id p =? postId)%N.

Definition pushComment (c : Comment) (p : Post) : Post :=
  mkPost (p_id p) (p_text p) (p_image p) (p_author p) (p_authorName p)
         (p_timestamp p) (p_comments p ++ [c]) (p_channel p) (p_editedAt p).

Definition setText (text : string) (now : N) (p : Post) : Post :=
  mkPost (p_id p) text (p_image p) (p_author p) (p_authorName p)
         (p_timestamp p) (p_comments p) (p_channel p) (Some now).

(** [router.post('/api/posts/:id/comments')]: submitComment. *)
Definition submitComment (client : option Client) (o : Oracle)
    (postId : N) (body_text : option string) (now : N) (st : Storage)
  : Outcome Comment :=
  match truthy_str body_text with
  | None => reject st (Error 400 "Text is required")
  | Some text =>
      if (String.length (Js.trim text) =? 0)%nat
      then reject st (Error 400 "Text is required")
      else
        let permission := checkPostingPermission client o in
        match allowed permission, user permission with
        | true, Some u =>
            match readData st with
            | Throw => reject st ServerError
            | Ok (st1, data) =>
                match find (has_id postId) (d_posts data) with
                | None => reject st1 (Error 404 "Post not found")
                | Some post =>
                    let comment :=
                      mkComment now (Js.trim text) (u_address u)
                                (truthy_str (u_name u)) now in
                    let data' :=
                      mkData (update_first (has_id postId) (pushComment comment)
                                           (d_posts data))
                             (d_nextId data) in
                    let st2 := writeData data' (writePost (pushComment comment post) st1) in
                    mkOutcome st2 (Json comment) (Some (NewComment postId comment)) None
                end
            end
        | _, _ => reject st (Error 403 (default "" (reason permission)))
        end
  end.

(** [router.delete('/api/posts/:id')] *)
Definition deletePostRequest (client : option Client) (o : Oracle)
    (postId : N) (st : Storage) : Outcome unit :=
  match client with
  | None => reject st (Error 401 "Authentication required")
  | Some c =>
      match readData st with
      | Throw => reject st ServerError
      | Ok (st1, data) =>
          match find (has_id postId) (d_posts data) with
          | None => reject st1 (Error 404 "Post not found")
          | Some post =>
              let isAuthor :=
                bool_decide (Js.toLowerCase (p_author post) = Js.toLowerCase (address c)) in
              if isAuthor || allowed (checkAdminPermission client o)
              then
                let data' := mkData (remove_first (has_id postId) (d_posts data))
                                    (d_nextId data) in
                mkOutcome (writeData data' (deletePost postId st1)) (Json tt)
                          (Some (DeletePost postId)) None
              else reject st1
                     (Error 403 "You can only delete your own posts unless you are an admin")
          end
      end
  end.

(** [router.patch('/api/posts/:id')] *)
Definition editPostRequest (client : option Client)
    (postId : N) (body_text : option string) (now : N) (st : Storage)
  : Outcome Post :=
  match truthy_str body_text with
  | None => reject st (Error 400 "Text is required")
  | Some text =>
      if (String.length (Js.trim text) =? 0)%nat
      then reject st (Error 400 "Text is required")
      else
        match client with
        | None => reject st (Error 401 "Authentication required")
        | Some c =>
            match readData st with
            | Throw => reject st ServerError
            | Ok (st1, data) =>
                match find (has_id postId) (d_posts data) with
                | None => reject st1 (Error 404 "Post not found")
                | Some post =>
                    if bool_decide (Js.toLowerCase (p_author post)
                                    = Js.toLowerCase (address c))
                    then
                      let post' := setText (Js.trim text) now post in
                      let data' :=
                        mkData (update_first (has_id postId) (setText (Js.trim text) now)
                                             (d_posts data))
                               (d_nextId data) in
                      mkOutcome (writeData data' (writePost post' st1)) (Json post')
                                (Some (EditPost post')) None
                    else reject st1 (Error 403 "Only the author can edit this post")
                end
            end
        end
  end.

(** [post.channel || 'general'] *)
Definition channel_or_general (p : Post) : string :=
  default "general" (truthy_str (p_channel p)).

(** [router.get('/api/posts')]: the list read.  [channel] is the query
    parameter. *)
Definition getPosts (cfg : BoardConfig) (client : option Client) (o : Oracle)
    (channel : option string) (st : Storage) : Storage * Response (list Post) :=
  match readData st with
  | Throw => (st, ServerError)
  | Ok (st1, data) =>
      match getAccessibleChannelNames client o (channels cfg) with
      | Throw => (st1, ServerError)
      | Ok accessible =>
          let posts :=
            filter (fun post => channel_or_general post ∈ accessible) (d_posts data) in
          match truthy_str channel with
          | None => (st1, Json posts)
          | Some channel =>
              if decide (channel ∈ accessible) then
                if decide (channel = "general")
                then (st1, Json (filter (fun post =>
                                           truthy_str (p_channel post) = None
                                           ∨ p_channel post = Some "general") posts))
                else (st1, Json (filter (fun post => p_channel post = Some channel) posts))
              else (st1, Error 403 "Access denied")
          end
      end
  end.

(* ================================================================== *)
(** * Sequences of requests *)
(* ================================================================== *)

(** One request to [router.post('/api/posts')] with all it reads from
    outside: caller, oracle answers, body and clock. *)
Record PostRequest : Type := mkPostRequest {
  rq_client : option Client;
  rq_oracle : Oracle;
  rq_body : PostBody;
  rq_now : N
}.

(** The requests a domain's ledger serves. *)
Inductive LedgerOp : Type :=
| OpSubmit (rq : PostRequest)
| OpComment (client : option Client) (o : Oracle) (postId : N)
            (body_text : option string) (now : N)
| OpDelete (client : option Client) (o : Oracle) (postId : N)
| OpEdit (client : option Client) (postId : N) (body_text : option string) (now : N)
| OpList (client : option Client) (o : Oracle) (channel : option string).

Section Runs.

Variable sanitizeSvg : string -> result string.
Variable cfg : BoardConfig.

Definition submit (rq : PostRequest) (st : Storage) : Outcome Post :=
  submitPost sanitizeSvg cfg (rq_client rq) (rq_oracle rq) (rq_body rq) (rq_now rq) st.

(** The request passes the input checks and the access check. *)
Definition acceptable (rq : PostRequest) : bool :=
  match validatePost sanitizeSvg cfg (rq_body rq) with
  | Some _ => false
  | None => allowed (checkPostingPermission (rq_client rq) (rq_oracle rq))
  end.

(** Requests served one after the other, each to completion: the
    storage at the end and the answers in order. *)
Fixpoint submitAll (rqs : list PostRequest) (st : Storage)
  : Storage * list (Response Post) :=
  match rqs with
  | [] => (st, [])
  | rq :: rest =>
      let out := submit rq st in
      let '(st', answers) := submitAll rest (out_storage out) in
      (st', out_response out :: answers)
  end.

Definition ledger_step (st : Storage) (op : LedgerOp) : Storage :=
  match op with
  | OpSubmit rq => out_storage (submit rq st)
  | OpComment client o postId text now =>
      out_storage (submitComment client o postId text now st)
  | OpDelete client o postId => out_storage (deletePostRequest client o postId st)
  | OpEdit client postId text now =>
      out_storage (editPostRequest client postId text now st)
  | OpList client o channel => fst (getPosts cfg client o channel st)
  end.

Definition ledger_run (ops : list LedgerOp) (st : Storage) : Storage :=
  fold_left ledger_step ops st.

(** ** Requests in flight at the same time

    A handler runs without interruption between two [await]s.  After
    the access check the post handler has three such segments: up to and
    including the construction of the post from what [readData]
    returned, the write of the post record, and the write of the index.
    Segments of different requests may alternate in any order. *)
Inductive Phase : Type :=
| BeforeRead
| BeforeWritePost (data : Data) (post : Post)
| BeforeWriteData (data : Data) (post : Post)
| Answered (post : Post)
| Failed.

Definition advance (rq : PostRequest) (u : User) (ph : Phase) (st : Storage)
  : Storage * Phase :=
  match ph with
  | BeforeRead =>
      match readData st with
      | Throw => (st, Failed)
      | Ok (st1, data) =>
          let post := newPost data (default "" (body_text (rq_body rq)))
                              (body_image (rq_body rq)) (body_channel (rq_body rq))
                              u (rq_now rq) in
          (st1, BeforeWritePost (unshiftPost post data) post)
      end
  | BeforeWritePost data post => (writePost post st, BeforeWriteData data post)
  | BeforeWriteData data post => (writeData data st, Answered post)
  | Answered _ | Failed => (st, ph)
  end.

(** The requests in flight with the caller each was admitted as, and
    the storage they share. *)
Record InFlight : Type := mkInFlight {
  fl_storage : Storage;
  fl_requests : list (PostRequest * User * Phase)
}.

(** Admission: input checks and access check, before the first segment. *)
Definition admission (rq : PostRequest) : option (PostRequest * User * Phase) :=
  match validatePost sanitizeSvg cfg (rq_body rq) with
  | Some _ => None
  | None =>
      let permission := checkPostingPermission (rq_client rq) (rq_oracle rq) in
      match allowed permission, user permission with
      | true, Some u => Some (rq, u, BeforeRead)
      | _, _ => None
      end
  end.

Definition start (rqs : list PostRequest) (st : Storage) : InFlight :=
  mkInFlight st (omap admission rqs).

(** Request [i] runs its next segment. *)
Definition segment (sys : InFlight) (i : nat) : InFlight :=
  match fl_requests sys !! i with
  | Some (rq, u, ph) =>
      let '(st', ph') := advance rq u ph (fl_storage sys) in
      mkInFlight st' (<[i := (rq, u, ph')]> (fl_requests sys))
  | None => sys
  end.

Definition interleave (schedule : list nat) (sys : InFlight) : InFlight :=
  fold_left segment schedule sys.

(** The ids in the answers, by request. *)
Definition answered_ids (sys : InFlight) : list N :=
  omap (fun r => match r with
                 | (_, _, Answered post) => Some (p_id post)
                 | _ => None
                 end) (fl_requests sys).

End Runs.

(** The ids of the accepted posts among the answers. *)
Definition accepted_ids (answers : list (Response Post)) : list N :=
  omap (fun r => match r with Json post => Some (p_id post) | _ => None end) answers.

(** [first; first + 1; ..], [n] ids in all. *)
Fixpoint ids_from (first : N) (n : nat) : list N :=
  match n with
  | O => []
  | S k => first :: ids_from (first + 1) k
  end.

(** [1; 2; ..; n] *)
Definition ids_upto (n : nat) : list N := ids_from 1 n.

(** Ids in strictly decreasing order, newest first. *)
Fixpoint newest_first (ids : list N) : Prop :=
  match ids with
  | [] => True
  | x :: rest => Forall (fun y => (y < x)%N) rest /\ newest_first rest
  end.

(** The posts of a [Data] object are newest first and all below its
    [nextId]. *)
Definition data_ordered (d : Data) : Prop :=
  newest_first (map p_id (d_posts d)) /\
  Forall (fun i => (i < d_nextId d)%N) (map p_id (d_posts d)).

(** Every record is filed under its own id. *)
Definition keyed (m : gmap N Post) : Prop :=
  forall k p, m !! k = Some p -> p_id p = k.

(** Every post of the list is on file. *)
Definition filed (m : gmap N Post) (posts : list Post) : Prop :=
  forall p, p ∈ posts -> m !! p_id p = Some p.

(** A storage on which the ledger's order argument rests: every record
    is filed under its own id; the index lists ids newest first, all below
    its [nextId] unless that is zero; and where no index exists yet, a
    legacy monolith is of the same shape. *)
Definition well_formed (st : Storage) : Prop :=
  keyed (postFiles st) /\
  match indexFile st with
  | Some ix =>
      newest_first (map ie_id (ix_posts ix)) /\
      (ix_nextId ix <> 0%N ->
       Forall (fun i => (i < ix_nextId ix)%N) (map ie_id (ix_posts ix)))
  | None =>
      match legacyFile st with
      | LegacyData d => data_ordered d
      | _ => True
      end
  end.

(* ================================================================== *)
(** * Predicates of the proofs *)
(* ================================================================== *)

(** A lower-case hexadecimal digit. *)
Definition is_hex_char (c : ascii) : bool :=
  let n := N_of_ascii c in
  ((48 <=? n) && (n <=? 57) || (97 <=? n) && (n <=? 102))%N.


(** The root a chain may hang from: the genesis constant, or a digest
    (the re-hashed [lastHash] a flush leaves). *)
Definition rooted (root : string) : Prop :=
  root = genesisHash \/ exists h, root = Sha256.sha256 h.

(** A state whose chain is linked from a root to [lastHash]. *)
Definition state_linked (s : DomainState) : Prop :=
  (exists root, rooted root /\ linked root (postChain s) (lastHash s))
  /\ lastHash s <> ""%string.

(** The batch file holds the state (or is absent while the state is still
    the initial one). *)
Definition mirrored (file : option BatchData) (s : DomainState) : Prop :=
  match file with
  | Some bd => bd_chain bd = postChain s /\ bd_lastHash bd = lastHash s
  | None => postChain s = [] /\ lastHash s = genesisHash
  end.

(** What holds of a domain's batcher between two calls: the state that
    the next call finds, in memory or by reading the batch file, is linked;
    and where [readFile] hands back the parsed object, the batch file
    mirrors the state in memory. *)
Definition batch_inv (rf : ReadFile) (b : Batcher) : Prop :=
  (forall s, current_state rf b = Some s -> state_linked s)
  /\ (onPresent rf = PresentParsed ->
      (forall bd, batchFile b = Some bd -> bd_lastHash bd <> ""%string)
      /\ forall s, loaded b = Some s -> mirrored (batchFile b) s).


(** The record under which the writes of a list of posts leave key [k]:
    that of the last post with that id, if any. *)
Fixpoint latest (k : N) (posts : list Post) : option Post :=
  match posts with
  | [] => None
  | p :: rest =>
      match latest k rest with
      | Some q => Some q
      | None => if decide (p_id p = k) then Some p else None
      end
  end.


(* ================================================================== *)
(** * Chain batcher: soundness of the stored links *)
(* ================================================================== *)

(** The [hex256] shape of the data model: 64 lower-case hexadecimal
    digits. *)
Definition is_hex256 (s : string) : bool :=
  (String.length s =? 64)%nat && forallb is_hex_char (list_ascii_of_string s).

(** A link at position [i] of the chain. *)
Definition link_sound (i : nat) (l : ChainedPost) : Prop :=
  cp_chainIndex l = i /\ well_hashed l
  /\ is_hex256 (cp_hash l) = true /\ is_hex256 (cp_previousHash l) = true.

(** A domain state under a batch threshold. *)
Definition state_sound (T : nat) (s : DomainState) : Prop :=
  (forall i l, postChain s !! i = Some l -> link_sound i l)
  /\ is_hex256 (lastHash s) = true
  /\ (length (postChain s) < T)%nat.

Definition batch_sound (rf : ReadFile) (T : nat) (b : Batcher) : Prop :=
  batch_inv rf b /\ forall s, current_state rf b = Some s -> state_sound T s.

(* ================================================================== *)
(** * Browser client: the copy of the posts *)
(* ================================================================== *)

(** The message a request broadcasts, if any. *)
Definition ledger_event (sanitizeSvg : string -> result string) (cfg : BoardConfig)
    (st : Storage) (op : LedgerOp) : option Event :=
  match op with
  | OpSubmit rq => out_broadcast (submit sanitizeSvg cfg rq st)
  | OpComment client o postId text now =>
      out_broadcast (submitComment client o postId text now st)
  | OpDelete client o postId => out_broadcast (deletePostRequest client o postId st)
  | OpEdit client postId text now =>
      out_broadcast (editPostRequest client postId text now st)
  | OpList _ _ _ => None
  end.

(** [editedPost.text = message.post.text; editedPost.editedAt =
    message.post.editedAt] *)
Definition applyEdit (edited : Post) (p : Post) : Post :=
  mkPost (p_id p) (p_text edited) (p_image p) (p_author p) (p_authorName p)
         (p_timestamp p) (p_comments p) (p_channel p) (p_editedAt edited).

(** [handleWebSocketMessage(message)] of [MessageBoardCommon], as far as
    it changes [this.posts]; the notification, the cache in
    [localStorage] and the redraw are left out. *)
Definition handleWebSocketMessage (message : Event) (posts : list Post) : list Post :=
  match message with
  | NewPost post =>
      match find (has_id (p_id post)) posts with
      | Some _ => posts
      | None => post :: posts
      end
  | NewComment postId comment =>
      match find (has_id postId) posts with
      | Some post =>
          match find (fun c => (c_id c =? c_id comment)%N) (p_comments post) with
          | Some _ => posts
          | None => update_first (has_id postId) (pushComment comment) posts
          end
      | None => posts
      end
  | DeletePost postId => filter (fun p => p_id p <> postId) posts
  | EditPost post => update_first (has_id (p_id post)) (applyEdit post) posts
  end.

(* ================================================================== *)
(** * Ledger: what the handlers leave on file *)
(* ================================================================== *)

(** The [nextId] that the next [readData] hands to a handler. *)
Definition next_id (st : Storage) : option N :=
  match readData st with
  | Ok (_, d) => Some (d_nextId d)
  | Throw => None
  end.

(** [nextId] as [readData] computes it from a stored value. *)
Definition effective_nextId (stored : N) (posts : list Post) : N :=
  if (stored =? 0)%N then (max_id posts + 1)%N else stored.

(* ================================================================== *)
(** * Sidebar links and slug links *)
(* ================================================================== *)

(** The sidebar links live in [sidebar-links.json], the slug links in the
    [links] member of the domain configuration.  Writing the file and
    saving the configuration are taken to succeed, and the stored arrays
    to hold link objects with string members, which is what the handlers
    below write. *)

(** One entry of [sidebar-links.json]. *)
Record SidebarLink : Type := mkSidebarLink {
  sl_title : string;
  sl_url : string
}.

(** [loadSidebarLinks(domain)].  The file is [None] when it is absent or
    does not parse: the [catch] answers with an empty array. *)
Definition loadSidebarLinks (file : option (list SidebarLink)) : list SidebarLink :=
  default [] file.

(** [router.post('/links')]: the file afterwards and the answer. *)
Definition addSidebarLink (client : option Client) (o : Oracle)
    (title url : option string) (file : option (list SidebarLink))
  : option (list SidebarLink) * Response (list SidebarLink) :=
  if negb (allowed (checkAdminPermission client o))
  then (file, Error 403 "Only admins can manage links")
  else
    match truthy_str title, truthy_str url with
    | Some t, Some u =>
        let links := loadSidebarLinks file ++ [mkSidebarLink t u] in
        (Some links, Json links)
    | _, _ => (file, Error 400 "Title and URL are required")
    end.

(** [links.splice(index, 1)] for an index that [parseInt] produced:
    [None] is [NaN], which [splice] takes for 0; a negative index counts
    from the end, and one past the end removes nothing. *)
Definition splice_one {A} (index : option Z) (links : list A) : list A :=
  let len := Z.of_nat (length links) in
  let start :=
    match index with
    | None => 0
    | Some i => if i <? 0 then Z.max (len + i) 0 else Z.min i len
    end in
  take (Z.to_nat start) links ++ drop (S (Z.to_nat start)) links.

(** [router.delete('/links/:index')].  [index] is the value of
    [parseInt(req.params.index)]; both comparisons of the range check are
    false for [NaN]. *)
Definition deleteSidebarLink (client : option Client) (o : Oracle)
    (index : option Z) (file : option (list SidebarLink))
  : option (list SidebarLink) * Response (list SidebarLink) :=
  if negb (allowed (checkAdminPermission client o))
  then (file, Error 403 "Only admins can manage links")
  else
    let links := loadSidebarLinks file in
    let out_of_range :=
      match index with
      | None => false
      | Some i => (i <? 0) || (Z.of_nat (length links) <=? i)
      end in
    if out_of_range then (file, Error 404 "Link not found")
    else
      let links' := splice_one index links in
      (Some links', Json links').

(** One entry of [links] in the domain configuration. *)
Record SlugLink : Type := mkSlugLink {
  lk_slug : string;
  lk_url : string;
  lk_title : string
}.

(** [cfg.data.links[findIndex(l => l.slug === slug)] = link], or
    [push(link)] when no entry has the slug. *)
Fixpoint upsert_link (link : SlugLink) (links : list SlugLink) : list SlugLink :=
  match links with
  | [] => [link]
  | l :: rest =>
      if decide (lk_slug l = lk_slug link) then link :: rest
      else l :: upsert_link link rest
  end.

(** [router.post('/api/links')].  [links] is [cfg.data.links], which may
    be absent; the result is its value afterwards and the answer.  The
    body is checked before the caller is. *)
Definition saveLink (client : option Client) (o : Oracle)
    (slug url title : option string) (links : option (list SlugLink))
  : option (list SlugLink) * Response SlugLink :=
  match truthy_str slug, truthy_str url with
  | Some s, Some u =>
      if negb (allowed (checkAdminPermission client o))
      then (links, Error 403 "Not authorized")
      else
        let link := mkSlugLink s u (default s (truthy_str title)) in
        (Some (upsert_link link (default [] links)), Json link)
  | _, _ => (links, Error 400 "slug and url are required")
  end.

(** [router.delete('/api/links/:slug')] *)
Definition deleteLink (client : option Client) (o : Oracle) (slug : string)
    (links : option (list SlugLink)) : option (list SlugLink) * Response unit :=
  if negb (allowed (checkAdminPermission client o))
  then (links, Error 403 "Not authorized")
  else
    match links with
    | None => (links, Error 404 "Link not found")
    | Some ls =>
        let ls' := filter (fun l => lk_slug l <> slug) ls in
        if (length ls' =? length ls)%nat
        then (links, Error 404 "Link not found")
        else (Some ls', Json tt)
    end.

(** The requests that change a domain's slug links. *)
Inductive LinkOp : Type :=
| LinkSave (client : option Client) (o : Oracle) (slug url title : option string)
| LinkDelete (client : option Client) (o : Oracle) (slug : string).

Definition link_step (links : option (list SlugLink)) (op : LinkOp)
  : option (list SlugLink) :=
  match op with
  | LinkSave client o slug url title => fst (saveLink client o slug url title links)
  | LinkDelete client o slug => fst (deleteLink client o slug links)
  end.

Definition link_run (ops : list LinkOp) (links : option (list SlugLink))
  : option (list SlugLink) :=
  fold_left link_step ops links.

(** [cfg.data?.links || []] of [router.get('/api/links')], and the entry
    a reader finds under a slug. *)
Definition getLinks (links : option (list SlugLink)) : list SlugLink := default [] links.

Definition link_for (slug : string) (links : option (list SlugLink)) : option SlugLink :=
  find (fun l => bool_decide (lk_slug l = slug)) (getLinks links).

(* ================================================================== *)
(** * Shutdown *)
(* ================================================================== *)

(** What [cleanup] does for one domain: a domain that is in
    [domainStates] and has links pending is flushed. *)
Definition cleanup_domain (rf : ReadFile) (cfg : RootConfig) (net : FetchOutcome)
    (now : N) (b : Batcher) : Batcher :=
  match loaded b with
  | Some state =>
      match postChain state with
      | [] => b
      | _ :: _ => fst (flushBatch rf cfg net now b)
      end
  | None => b
  end.

(** [cleanup()] over the domains of the process; [net] is what the
    content store does with the upload of each domain's summary and [now]
    the clock at each domain's flush. *)
Definition cleanup (rf : ReadFile) (cfg : RootConfig) (net : string -> FetchOutcome)
    (now : string -> N) (agent : gmap string Batcher) : gmap string Batcher :=
  map_imap (fun domain b => Some (cleanup_domain rf cfg (net domain) (now domain) b)) agent.

(* ================================================================== *)
(** * Client permissions *)
(* ================================================================== *)

(** [isInACL(address, listName, domain)].  [contract] is what obtaining
    the domain's contract and calling its [isInACL] for the caller gives
    for a list name: a boolean, or a throw of either step, which the
    [catch] turns into [false]. *)
Definition isInACL (contract : string -> result bool) (listName : string) : bool :=
  match contract listName with
  | Ok b => b
  | Throw => false
  end.

Record Permissions : Type := mkPermissions {
  pm_address : string;
  pm_admin : bool;
  pm_edit : bool;
  pm_read : bool
}.

(** [getPermissions(client, req)].  [req.domain] is set by the router's
    first middleware and never falsy.  Reading [client.address] of a
    request without a client throws before anything else; the editor list
    is only consulted when the admin list did not grant. *)
Definition getPermissions (client : option Client) (contract : string -> result bool)
  : result Permissions :=
  match client with
  | None => Throw
  | Some c =>
      let admin := isInACL contract "epistery::admin" in
      let edit := if admin then true else isInACL contract "epistery::editor" in
      Ok (mkPermissions (address c) admin edit true)
  end.

(* ================================================================== *)
(** * Channel registry: listing and deletion *)
(* ================================================================== *)

(** An element of the answer of [router.get('/api/channels')]. *)
Record ListedChannel : Type := mkListed {
  lc_name : string;
  lc_list : option string;
  lc_isPseudo : bool
}.

(** [{ name: 'general', list: null, isPseudo: true }] *)
Definition general_channel : ListedChannel := mkListed "general" None true.

Definition listed (c : Channel) : ListedChannel :=
  mkListed (ch_name c) (ch_list c) false.

(** The [map] and [filter] at the head of the listing: a string entry
    that does not parse is logged and dropped, as is one that parses to
    [null]. *)
Fixpoint parsed_leniently (channels : list ChannelEntry) : list Channel :=
  match channels with
  | [] => []
  | ChObj c :: rest | ChStr (Ok (Some c)) :: rest => c :: parsed_leniently rest
  | ChStr (Ok None) :: rest | ChStr Throw :: rest => parsed_leniently rest
  end.

(** The loop of the listing for a caller below admin level. *)
Fixpoint listed_below_admin (o : Oracle) (l : N) (channels : list Channel)
  : result (list Channel) :=
  match channels with
  | [] => Ok []
  | ch :: rest =>
      match truthy_str (ch_list ch) with
      | None =>
          match listed_below_admin o l rest with
          | Ok more => Ok (if (1 <=? l)%N then ch :: more else more)
          | Throw => Throw
          end
      | Some listRef =>
          match oracle_isInACL o listRef with
          | Throw => Throw
          | Ok isInList =>
              match listed_below_admin o l rest with
              | Ok more => Ok (if isInList then ch :: more else more)
              | Throw => Throw
              end
          end
      end
  end.

(** [router.get('/api/channels')] *)
Definition listChannels (client : option Client) (o : Oracle)
    (channels : list ChannelEntry) : Response (list ListedChannel) :=
  let chs := parsed_leniently channels in
  let authenticated :=
    match client with
    | Some c => negb (bool_decide (address c = ""))
    | None => false
    end in
  if authenticated then
    match oracle_access o with
    | AccessThrows => ServerError
    | AccessLevel l =>
        if (3 <=? l)%N then Json (general_channel :: map listed chs)
        else
          match listed_below_admin o l chs with
          | Ok visible => Json (general_channel :: map listed visible)
          | Throw => ServerError
          end
    end
  else
    Json (general_channel
          :: map listed (filter (fun ch => truthy_str (ch_list ch) = None) chs)).

(** [channels.findIndex(c => parse(c).name === name)] followed by
    [splice(index, 1)]: the list without the first entry of that name,
    [None] when there is none; the search throws at the first entry that
    cannot be examined before a match. *)
Fixpoint remove_channel (name : string) (channels : list ChannelEntry)
  : result (option (list ChannelEntry)) :=
  match channels with
  | [] => Ok None
  | e :: rest =>
      match entry_name e with
      | Throw => Throw
      | Ok n =>
          if decide (n = name) then Ok (Some rest)
          else
            match remove_channel name rest with
            | Ok (Some rest') => Ok (Some (e :: rest'))
            | Ok None => Ok None
            | Throw => Throw
            end
      end
  end.

(** [router.delete('/api/channels/:name')]: the channel list of the
    domain afterwards and the answer.  An absent [channels] member is
    answered like an empty list, with 404. *)
Definition deleteChannel (client : option Client) (o : Oracle) (name : string)
    (channels : list ChannelEntry) : list ChannelEntry * Response unit :=
  if negb (allowed (checkAdminPermission client o))
  then (channels, Error 403 "Only admins can delete channels")
  else
    match remove_channel name channels with
    | Throw => (channels, ServerError)
    | Ok None => (channels, Error 404 "Channel not found")
    | Ok (Some channels') => (channels', Json tt)
    end.

(** The requests that change a domain's channel list. *)
Inductive RegistryOp : Type :=
| RegCreate (client : option Client) (o : Oracle) (name listRef : option string)
| RegDelete (client : option Client) (o : Oracle) (name : string).

Definition registry_step (channels : list ChannelEntry) (op : RegistryOp)
  : list ChannelEntry :=
  match op with
  | RegCreate client o name listRef => fst (createChannel client o name listRef channels)
  | RegDelete client o name => fst (deleteChannel client o name channels)
  end.

Definition registry_run (ops : list RegistryOp) (channels : list ChannelEntry)
  : list ChannelEntry :=
  fold_left registry_step ops channels.

(** The caller counts as authenticated in the channel handlers. *)
Definition authenticated (client : option Client) : bool :=
  match client with
  | Some c => negb (bool_decide (address c = ""))
  | None => false
  end.

(** Who may see a channel, in the words of the access rules: an admin
    sees every channel; a channel without a list is open to callers that
    are not authenticated and to authenticated ones of level 1 or more; a
    channel with a list is open to the authenticated callers on that
    list. *)
Definition may_see (client : option Client) (o : Oracle) (c : Channel) : Prop :=
  if authenticated client then
    match oracle_access o with
    | AccessThrows => False
    | AccessLevel l =>
        (3 <= l)%N
        \/ match truthy_str (ch_list c) with
           | None => (1 <= l)%N
           | Some listRef => oracle_isInACL o listRef = Ok true
           end
    end
  else truthy_str (ch_list c) = None.

(** A channel list as the handlers build it from an empty one. *)
Definition registry_sound (channels : list ChannelEntry) : Prop :=
  Forall (fun e => exists c, e = ChObj c
                             /\ channel_pattern (ch_name c) = true
                             /\ ch_name c <> "general"
                             /\ ch_list c <> Some "") channels
  /\ NoDup (channel_names channels).

(* ================================================================== *)
(** * Sample inputs *)
(* ================================================================== *)

Module Sample.

(** A root configuration with a content store, and one without the
    [ipfs] section. *)
Definition root_config : RootConfig :=
  mkRoot (Some (mkIpfs (Some "http://127.0.0.1:5001/api/v0") "http://127.0.0.1:8080")).
Definition root_config_without_ipfs : RootConfig := mkRoot None.

(** The content store down: every [fetch] rejects. *)
Definition store_down : BatchEnv := mkEnv FetchRejects FetchRejects 1700000000000.
(** The content store up. *)
Definition store_up : BatchEnv :=
  mkEnv (FetchResponse true (Some (Some "QmLink")))
        (FetchResponse true (Some (Some "QmBatch"))) 1700000000000.

(** A post whose text needs escaping: quotes, a backslash, a line feed
    and a control character. *)
Definition text_with_escapes : string :=
  "say " +:+ String Json.dquote ("hi" +:+ String Json.dquote
    (String Json.backslash (" " +:+ String "010"%char (String "001"%char "")))).

Definition post_with_escapes : Post :=
  mkPost 7 text_with_escapes None "0xAbC" (Some "Ann") 1700000000007
         [mkComment 1700000000100 "ok" "0xdef" None 1700000000100]
         (Some "news") (Some 1700000000200%N).

Definition post (n : N) : Post :=
  mkPost n "hello" None "0xabc" None (1700000000000 + n) [] None None.

Definition calls (env : BatchEnv) (ids : list N) : list (BatchEnv * Post) :=
  map (fun n => (env, post n)) ids.

(** Two behaviours of [readFile]: the raw content of the file and an
    exception for an absent one, or the parsed object and a falsy value
    for an absent one. *)
Definition read_raw : ReadFile := mkReadFile AbsentThrows PresentRaw.
Definition read_parsed : ReadFile := mkReadFile AbsentFalsy PresentParsed.

(** A domain whose batch file exists and holds no link, before its first
    use in the process. *)
Definition started : Batcher :=
  mkBatcher None (Some (mkBatchData [] genesisHash 1700000000000)).

(** A batcher holding two links, below the default threshold. *)
Definition two_links : Batcher :=
  fst (addPosts read_raw root_config 5 (calls store_down [1; 2]%N) started).

Definition sanitizer (dataUrl : string) : result string := Ok dataUrl.

Definition board : BoardConfig :=
  mkBoard 10 5 [ChObj (mkChannel "news" None)] (mkImageSettings 3145728 "3" true).

(** An oracle that resolves every caller to level [l] and knows one list
    with a named entry for Alice. *)
Definition oracle (l : N) : Oracle :=
  mkOracle (AccessLevel l) (Ok ["message-board::posting"])
           (fun _ => Ok [mkAclEntry "0xa11ce" (Some "Alice")])
           (fun _ => Ok false).
(** The oracle unreachable: every call throws. *)
Definition oracle_down : Oracle :=
  mkOracle AccessThrows Throw (fun _ => Throw) (fun _ => Throw).

Definition alice : Client := mkClient "0xA11CE".
Definition bob : Client := mkClient "0xB0B".

Definition request (c : Client) (l : N) (body_text : string) (now : N) : PostRequest :=
  mkPostRequest (Some c) (oracle l) (mkBody (Some body_text) None None) now.

(** The storage of a board on which two posts have been accepted. *)
Definition two_posts : Storage :=
  fst (submitAll sanitizer board
         [request alice 2 "first" 1700000000001; request bob 2 "second" 1700000000002]
         empty_storage).

End Sample.

(** Further sample inputs. *)
Module Scenario.

(** Two appends with a restart of the process in between. *)
Definition appends_across_restart : list BatchOp :=
  [OpAdd Sample.store_up (Sample.post 1) None; OpRestart;
   OpAdd Sample.store_down (Sample.post 2) None].

(** Two appends, and five appends while the content store is down. *)
Definition two_appends : list BatchOp :=
  [OpAdd Sample.store_up (Sample.post 1) None;
   OpAdd Sample.store_down (Sample.post 2) None].
Definition five_appends_store_down : list BatchOp :=
  map (fun n => OpAdd Sample.store_down (Sample.post n) None) [1; 2; 3; 4; 5]%N.

(** A legacy monolith of two posts on a storage that has no index yet. *)
Definition legacy_data : Data := mkData [Sample.post 2; Sample.post 1] 3.
Definition legacy_storage : Storage := mkStorage None ∅ (LegacyData legacy_data).

(** A board on which Alice and Bob have each posted once. *)
Definition two_posts : Storage :=
  ledger_run Sample.sanitizer Sample.board
    [OpSubmit (Sample.request Sample.alice 2 "first" 1700000000001);
     OpSubmit (Sample.request Sample.bob 2 "second" 1700000000002)]
    empty_storage.

(** The two posts as the board stores them, and what [readData] returns. *)
Definition alices_post : Post :=
  mkPost 1 "first" None "0xA11CE" (Some "Alice") 1700000000001 [] None None.
Definition bobs_post : Post :=
  mkPost 2 "second" None "0xB0B" None 1700000000002 [] None None.
Definition two_posts_data : Data := mkData [bobs_post; alices_post] 3.

(** Alice, with her address in lower case. *)
Definition alice_lower : Client := mkClient "0xa11ce".

(** A board with an open channel and one restricted to a list. *)
Definition channels : list ChannelEntry :=
  [ChObj (mkChannel "news" None); ChObj (mkChannel "staff" (Some "staff-list"))].
Definition board : BoardConfig :=
  mkBoard 10 5 channels (mkImageSettings 3145728 "3" true).

(** A storage with one post in the channel [news], and the board after
    that channel has been deleted. *)
Definition news_storage : Storage :=
  ledger_run Sample.sanitizer Sample.board
    [OpSubmit (mkPostRequest (Some Sample.alice) (Sample.oracle 2)
                 (mkBody (Some "in news") None (Some "news")) 1700000000001)]
    empty_storage.
Definition board_without_channels : BoardConfig :=
  mkBoard 10 5 [] (mkImageSettings 3145728 "3" true).

End Scenario.
(* ================================================================== *)
(** * Test vectors *)
(* ================================================================== *)

Example sha256_empty :
  Sha256.sha256 "" = "e3b0c44298fc1c149afbf4c8996fb92427ae41e4649b934ca495991b7852b855"%string.
Proof. vm_compute. reflexivity. Qed.

Example sha256_abc :
  Sha256.sha256 "abc" = "ba7816bf8f01cfea414140de5dae2223b00361a396177a9cb410ff61f20015ad"%string.
Proof. vm_compute. reflexivity. Qed.

Example sha256_two_blocks :
  Sha256.sha256 "0000000000000000000000000000000000000000000000000000000000000000"
  = "60e05bd1b195af2f94112fa7197a5c88289058840ce7c6df9693756bc6250f55"%string.
Proof. vm_compute. reflexivity. Qed.


(** [hashPost] on a post that exercises every branch of the serializer,
    against the digest Node computes for the same object. *)
Example hashPost_vector :
  hashPost Sample.post_with_escapes genesisHash
  = "074e9170fcba9c7ca8f582dcfbc32bf248ca8f03f1d9b9072494caef4861740c"%string.
Proof. vm_compute. reflexivity. Qed.

(** [trim] strips U+00A0 in front and U+2028 behind like the ASCII
    blanks, and keeps inner blanks. *)
Example trim_vector :
  Js.trim (String "194"%char (String "160"%char
             (" a b " +:+ String "226"%char (String "128"%char (String "168"%char "")))))
  = "a b"%string.
Proof. vm_compute. reflexivity. Qed.

Example channel_pattern_vector :
  channel_pattern "dev-ops-2" = true
  /\ channel_pattern "Dev" = false
  /\ channel_pattern "a b" = false
  /\ channel_pattern "" = false
  /\ channel_pattern (String "097"%char (String "010"%char "")) = false.
Proof. vm_compute. repeat split; reflexivity. Qed.

(* ================================================================== *)
(** * The shape of digests and of hashed objects *)
(* ================================================================== *)

Arguments Sha256.sha256 : simpl never.
Arguments hashPost : simpl never.

Lemma hex_digit_is_hex (x : Z) :
  is_hex_char (Sha256.hex_digit (Z.land x 0xF)) = true.
Proof.
  change 0xF with (Z.ones 4). rewrite Z.land_ones by lia.
  assert (Hd : 0 <= x mod 2 ^ 4 < 16) by (apply Z.mod_pos_bound; lia).
  set (d := x mod 2 ^ 4) in *.
  assert (Hcases : d = 0 \/ d = 1 \/ d = 2 \/ d = 3 \/ d = 4 \/ d = 5 \/ d = 6
                   \/ d = 7 \/ d = 8 \/ d = 9 \/ d = 10 \/ d = 11 \/ d = 12
                   \/ d = 13 \/ d = 14 \/ d = 15) by lia.
  repeat (destruct Hcases as [-> | Hcases]; [reflexivity |]).
  subst d. rewrite Hcases. reflexivity.
Qed.

Lemma hex_of_head (k : nat) (x : Z) (acc : string) :
  exists c rest, Sha256.hex_of (S k) x acc = String c rest /\ is_hex_char c = true.
Proof.
  revert x acc. induction k as [|k IH]; intros x acc.
  - simpl. eexists _, _. split; [reflexivity | apply hex_digit_is_hex].
  - change (Sha256.hex_of (S (S k)) x acc)
      with (Sha256.hex_of (S k) (Z.shiftr x 4)
              (String (Sha256.hex_digit (Z.land x 0xF)) acc)).
    apply IH.
Qed.

Lemma compress_length (h block : list Z) :
  length h = 8%nat -> length (Sha256.compress h block) = 8%nat.
Proof.
  intros Hh. unfold Sha256.compress.
  rewrite length_map, length_combine, Hh. reflexivity.
Qed.

Lemma digest_words_length (s : string) : length (Sha256.digest_words s) = 8%nat.
Proof.
  unfold Sha256.digest_words.
  generalize (Sha256.blocks_of_words
                (length (Sha256.words_of_bytes
                           (length (Sha256.pad (Sha256.bytes_of_string s)))
                           (Sha256.pad (Sha256.bytes_of_string s))))
                (Sha256.words_of_bytes
                   (length (Sha256.pad (Sha256.bytes_of_string s)))
                   (Sha256.pad (Sha256.bytes_of_string s)))).
  intros blocks.
  assert (H0 : length Sha256.H0 = 8%nat) by reflexivity.
  revert H0. generalize Sha256.H0.
  induction blocks as [|blk blocks IH]; intros h Hh; simpl.
  - exact Hh.
  - apply IH, compress_length, Hh.
Qed.

(** A digest starts with a hexadecimal digit. *)
Lemma sha256_head (s : string) :
  exists c rest, Sha256.sha256 s = String c rest /\ is_hex_char c = true.
Proof.
  unfold Sha256.sha256.
  pose proof (digest_words_length s) as Hlen.
  destruct (Sha256.digest_words s) as [|w ws]; [discriminate |].
  unfold Sha256.hex_of_words. cbn [fold_right].
  apply hex_of_head.
Qed.

Lemma sha256_nonempty (s : string) : Sha256.sha256 s <> ""%string.
Proof.
  destruct (sha256_head s) as (c & rest & Heq & _). rewrite Heq. discriminate.
Qed.



(* ================================================================== *)
(** * Chain batcher: integrity of the chain *)
(* ================================================================== *)

Lemma linked_snoc (root : string) (chain : list ChainedPost) (last : string)
    (l : ChainedPost) :
  linked root chain last -> cp_previousHash l = last ->
  linked root (chain ++ [l]) (cp_hash l).
Proof.
  revert root. induction chain as [|x chain IH]; intros root Hl Hp; simpl in *.
  - subst. auto.
  - destruct Hl as [Hx Hrest]. split; [exact Hx | apply IH; assumption].
Qed.

Lemma linked_integrity (root : string) (chain : list ChainedPost) (last : string) :
  linked root chain last -> chain_integrity root chain.
Proof.
  revert root. induction chain as [|x chain IH]; intros root Hl.
  - split; intros; discriminate.
  - destruct Hl as [Hx Hrest]. specialize (IH _ Hrest) as [IH0 IHS]. split.
    + intros l Hl. injection Hl as <-. exact Hx.
    + intros [|i] l l' Hi HSi; simpl in *.
      * injection Hi as <-. apply IH0. exact HSi.
      * eapply IHS; eassumption.
Qed.

Lemma attachIpfs_hash (l : ChainedPost) (r : option IpfsResult) :
  cp_hash (attachIpfs l r) = cp_hash l
  /\ cp_previousHash (attachIpfs l r) = cp_previousHash l
  /\ cp_post (attachIpfs l r) = cp_post l
  /\ cp_chainIndex (attachIpfs l r) = cp_chainIndex l.
Proof. destruct r; simpl; auto. Qed.

(** [getDomainState] in terms of the state it returns. *)
Lemma getDomainState_eq (rf : ReadFile) (b : Batcher) :
  getDomainState rf b
  = match current_state rf b with
    | Some s => Ok (mkBatcher (Some s) (batchFile b), s)
    | None => Throw
    end.
Proof.
  unfold current_state, getDomainState.
  destruct b as [[s|] f]; cbn [loaded batchFile]; [reflexivity |].
  destruct (readFile rf f); reflexivity.
Qed.

Lemma current_state_loaded (rf : ReadFile) (s : DomainState) (f : option BatchData) :
  current_state rf (mkBatcher (Some s) f) = Some s.
Proof. reflexivity. Qed.

Lemma current_state_of_loaded (rf : ReadFile) (b : Batcher) (s : DomainState) :
  loaded b = Some s -> current_state rf b = Some s.
Proof. intros H. unfold current_state, getDomainState. rewrite H. reflexivity. Qed.

(** [getDomainState] throws only where there is neither a state in memory
    nor a batch file and [readFile] throws for an absent file. *)
Lemma current_state_none (rf : ReadFile) (b : Batcher) :
  current_state rf b = None <->
  loaded b = None /\ batchFile b = None /\ onAbsent rf = AbsentThrows.
Proof.
  unfold current_state, getDomainState, readFile.
  destruct b as [[s|] [bd|]]; cbn [loaded batchFile];
    destruct (onAbsent rf), (onPresent rf); split;
    try discriminate; try (intros (H1 & H2 & H3); discriminate);
    intros _; repeat split.
Qed.

(** What a restart finds in the batch file. *)
Lemma current_state_restart (rf : ReadFile) (b : Batcher) :
  current_state rf (restart b)
  = match batchFile b with
    | None =>
        match onAbsent rf with
        | AbsentThrows => None
        | AbsentFalsy => Some (mkState [] genesisHash)
        end
    | Some bd =>
        match onPresent rf with
        | PresentRaw => Some (mkState [] genesisHash)
        | PresentParsed =>
            Some (mkState (bd_chain bd)
                          (default genesisHash (truthy_str (Some (bd_lastHash bd)))))
        end
    end.
Proof.
  unfold current_state, getDomainState, restart, readFile. cbn [loaded batchFile].
  destruct (batchFile b) as [bd|]; [destruct (onPresent rf) | destruct (onAbsent rf)];
    reflexivity.
Qed.

Lemma current_state_unloaded (rf : ReadFile) (b : Batcher) :
  loaded b = None -> current_state rf b = current_state rf (restart b).
Proof. intros Hl. unfold current_state, getDomainState, restart. rewrite Hl. reflexivity. Qed.

Lemma saveBatchState_loaded (rf : ReadFile) (now : N) (s : DomainState)
    (f : option BatchData) :
  saveBatchState rf now (mkBatcher (Some s) f)
  = Ok (mkBatcher (Some s) (Some (mkBatchData (postChain s) (lastHash s) now))).
Proof. reflexivity. Qed.

Lemma state_linked_initial : state_linked (mkState [] genesisHash).
Proof.
  split; [| discriminate].
  exists genesisHash. split; [left; reflexivity | reflexivity].
Qed.

Lemma truthy_hash (h : string) :
  h <> ""%string -> default genesisHash (truthy_str (Some h)) = h.
Proof.
  intros Hne. cbn [truthy_str]. destruct (decide (h = ""%string)); [contradiction |].
  reflexivity.
Qed.

(** The state a restart finds is the initial one or the one the process
    had. *)
Lemma restart_state (rf : ReadFile) (b : Batcher) (s' : DomainState) :
  batch_inv rf b ->
  current_state rf (restart b) = Some s' ->
  s' = mkState [] genesisHash \/ current_state rf b = Some s'.
Proof.
  intros [_ Hfile] Hs'. rewrite current_state_restart in Hs'.
  destruct (batchFile b) as [bd|] eqn:Hf.
  - destruct (onPresent rf) eqn:Hp.
    + injection Hs' as <-. left. reflexivity.
    + destruct (Hfile eq_refl) as [Hne Hmirror].
      pose proof (truthy_hash _ (Hne bd eq_refl)) as Hh.
      right. rewrite <- Hs'.
      destruct (loaded b) as [s|] eqn:Hl.
      * rewrite (current_state_of_loaded rf b s Hl), Hh.
        specialize (Hmirror s eq_refl). cbn [mirrored] in Hmirror.
        destruct Hmirror as [-> ->]. destruct s; reflexivity.
      * rewrite (current_state_unloaded rf b Hl), current_state_restart, Hf, Hp.
        reflexivity.
  - destruct (onAbsent rf); [discriminate |].
    injection Hs' as <-. left. reflexivity.
Qed.

(** With a [readFile] that hands back the parsed object, and a falsy
    value for an absent file, a restart finds the state the process
    had. *)
Lemma restart_state_parsed (rf : ReadFile) (b : Batcher) :
  onPresent rf = PresentParsed -> onAbsent rf = AbsentFalsy ->
  batch_inv rf b ->
  current_state rf (restart b) = current_state rf b.
Proof.
  intros Hp Ha [_ Hfile]. destruct (Hfile Hp) as [Hne Hmirror].
  rewrite current_state_restart, Hp, Ha.
  destruct (loaded b) as [s|] eqn:Hl.
  - rewrite (current_state_of_loaded rf b s Hl).
    specialize (Hmirror s eq_refl). unfold mirrored in Hmirror.
    destruct (batchFile b) as [bd|] eqn:Hf.
    + rewrite (truthy_hash _ (Hne bd eq_refl)).
      destruct Hmirror as [-> ->]. destruct s; reflexivity.
    + destruct Hmirror as [Hc Hh]. destruct s; simpl in *. subst. reflexivity.
  - rewrite (current_state_unloaded rf b Hl), current_state_restart, Hp, Ha.
    reflexivity.
Qed.

Lemma batch_inv_intro (rf : ReadFile) (s : DomainState) (f : option BatchData) :
  state_linked s ->
  (onPresent rf = PresentParsed -> mirrored f s) ->
  batch_inv rf (mkBatcher (Some s) f).
Proof.
  intros Hlinked Hmirror. split.
  - intros s' Hs'. injection Hs' as <-. exact Hlinked.
  - intros Hp. specialize (Hmirror Hp). cbn [batchFile loaded]. split.
    + intros bd ->. cbn [mirrored] in Hmirror. destruct Hmirror as [_ ->].
      exact (proj2 Hlinked).
    + intros s' Hs'. injection Hs' as <-. exact Hmirror.
Qed.

(** The batcher as [getDomainState] leaves it. *)
Lemma batch_inv_loaded (rf : ReadFile) (b : Batcher) (s : DomainState) :
  batch_inv rf b -> current_state rf b = Some s ->
  batch_inv rf (mkBatcher (Some s) (batchFile b)).
Proof.
  intros [Hlinked Hfile] Hs. apply batch_inv_intro; [apply Hlinked, Hs |].
  intros Hp. destruct (Hfile Hp) as [Hne Hmirror].
  destruct (loaded b) as [s0|] eqn:Hl.
  - rewrite (current_state_of_loaded rf b s0 Hl) in Hs. injection Hs as <-.
    apply Hmirror. reflexivity.
  - rewrite (current_state_unloaded rf b Hl), current_state_restart, Hp in Hs.
    destruct (batchFile b) as [bd|] eqn:Hf.
    + rewrite (truthy_hash _ (Hne bd eq_refl)) in Hs. injection Hs as <-.
      split; reflexivity.
    + destruct (onAbsent rf); [discriminate |]. injection Hs as <-.
      split; reflexivity.
Qed.

Lemma batch_inv_saved (rf : ReadFile) (now : N) (s : DomainState) :
  state_linked s ->
  batch_inv rf (mkBatcher (Some s) (Some (mkBatchData (postChain s) (lastHash s) now))).
Proof.
  intros Hlinked. apply batch_inv_intro; [exact Hlinked |].
  intros _. split; reflexivity.
Qed.

(** [flushBatch] in terms of the state it finds. *)
Lemma flushBatch_eq (rf : ReadFile) (cfg : RootConfig) (net : FetchOutcome) (now : N)
    (b : Batcher) :
  flushBatch rf cfg net now b
  = match current_state rf b with
    | None => (b, Throw)
    | Some s =>
        match postChain s, uploadToIPFS cfg net with
        | [], _ => (mkBatcher (Some s) (batchFile b), Ok tt)
        | _ :: _, Throw => (mkBatcher (Some s) (batchFile b), Ok tt)
        | _ :: _, Ok _ =>
            let h := Sha256.sha256 (lastHash s) in
            (mkBatcher (Some (mkState [] h)) (Some (mkBatchData [] h now)), Ok tt)
        end
    end.
Proof.
  unfold flushBatch. rewrite getDomainState_eq.
  destruct (current_state rf b) as [s|]; [| reflexivity].
  destruct (postChain s); [reflexivity |].
  destruct (uploadToIPFS cfg net); reflexivity.
Qed.

Lemma flushBatch_state (rf : ReadFile) (cfg : RootConfig) (net : FetchOutcome) (now : N)
    (b : Batcher) :
  current_state rf (fst (flushBatch rf cfg net now b))
  = match current_state rf b with
    | None => None
    | Some s =>
        Some match postChain s, uploadToIPFS cfg net with
             | [], _ => s
             | _ :: _, Throw => s
             | _ :: _, Ok _ => mkState [] (Sha256.sha256 (lastHash s))
             end
    end.
Proof.
  rewrite flushBatch_eq.
  destruct (current_state rf b) as [s|] eqn:Hs; [| exact Hs].
  destruct (postChain s); [reflexivity |].
  destruct (uploadToIPFS cfg net); reflexivity.
Qed.

(** A flush throws only when [getDomainState] does. *)
Lemma flushBatch_returns (rf : ReadFile) (cfg : RootConfig) (net : FetchOutcome)
    (now : N) (b : Batcher) (s : DomainState) :
  current_state rf b = Some s -> snd (flushBatch rf cfg net now b) = Ok tt.
Proof.
  intros Hs. rewrite flushBatch_eq, Hs.
  destruct (postChain s); [reflexivity |].
  destruct (uploadToIPFS cfg net); reflexivity.
Qed.

Lemma flushBatch_inv (rf : ReadFile) (cfg : RootConfig) (net : FetchOutcome) (now : N)
    (b : Batcher) :
  batch_inv rf b -> batch_inv rf (fst (flushBatch rf cfg net now b)).
Proof.
  intros Hinv. rewrite flushBatch_eq.
  destruct (current_state rf b) as [s|] eqn:Hs; [| exact Hinv].
  pose proof (batch_inv_loaded rf b s Hinv Hs) as Hinv1.
  destruct (postChain s); [exact Hinv1 |].
  destruct (uploadToIPFS cfg net); [| exact Hinv1].
  cbv zeta. cbn [fst].
  apply (batch_inv_saved rf now (mkState [] (Sha256.sha256 (lastHash s)))).
  split; [| apply sha256_nonempty].
  exists (Sha256.sha256 (lastHash s)). split; [right; eauto | reflexivity].
Qed.

(** [addPostToBatch] in terms of the state it finds. *)
Lemma addPostToBatch_eq (rf : ReadFile) (cfg : RootConfig) (T : nat) (env : BatchEnv)
    (post : Post) (sig : option string) (b : Batcher) :
  addPostToBatch rf cfg T env post sig b
  = match current_state rf b with
    | None => (b, Throw)
    | Some s =>
        match uploadToIPFS cfg (env_link env) with
        | Throw => (mkBatcher (Some s) (batchFile b), Throw)
        | Ok r =>
            let l := attachIpfs (newLink post sig s) r in
            let s1 := mkState (postChain s ++ [l]) (cp_hash l) in
            let b3 := mkBatcher (Some s1)
                        (Some (mkBatchData (postChain s1) (lastHash s1) (env_now env))) in
            (if (T <=? length (postChain s ++ [l]))%nat
             then fst (flushBatch rf cfg (env_batch env) (env_now env) b3)
             else b3, Ok l)
        end
    end.
Proof.
  unfold addPostToBatch. rewrite getDomainState_eq.
  destruct (current_state rf b) as [s|]; [| reflexivity].
  destruct (uploadToIPFS cfg (env_link env)) as [r|]; [| reflexivity].
  cbv zeta. rewrite saveBatchState_loaded. cbn [postChain lastHash].
  destruct (T <=? _)%nat; [| reflexivity].
  match goal with
  | |- context [flushBatch rf cfg ?net ?now ?b3] =>
      pose proof (flushBatch_returns rf cfg net now b3 _ (current_state_loaded rf _ _))
        as Hret;
      destruct (flushBatch rf cfg net now b3) as [b4 [[]|]]
  end; [reflexivity | discriminate].
Qed.

(** The state after an append, in terms of the state it finds. *)
Lemma addPostToBatch_state (rf : ReadFile) (cfg : RootConfig) (T : nat) (env : BatchEnv)
    (post : Post) (sig : option string) (b : Batcher) (s : DomainState) :
  current_state rf b = Some s ->
  match uploadToIPFS cfg (env_link env) with
  | Throw =>
      snd (addPostToBatch rf cfg T env post sig b) = Throw
      /\ current_state rf (fst (addPostToBatch rf cfg T env post sig b)) = Some s
  | Ok r =>
      let l := attachIpfs (newLink post sig s) r in
      snd (addPostToBatch rf cfg T env post sig b) = Ok l
      /\ current_state rf (fst (addPostToBatch rf cfg T env post sig b))
         = Some (if (T <=? length (postChain s) + 1)%nat
                 then match uploadToIPFS cfg (env_batch env) with
                      | Ok _ => mkState [] (Sha256.sha256 (cp_hash l))
                      | Throw => mkState (postChain s ++ [l]) (cp_hash l)
                      end
                 else mkState (postChain s ++ [l]) (cp_hash l))
  end.
Proof.
  intros Hs. rewrite addPostToBatch_eq, Hs.
  destruct (uploadToIPFS cfg (env_link env)) as [r|]; [| split; reflexivity].
  cbv zeta. cbn [fst snd]. split; [reflexivity |].
  rewrite length_app. cbn [length].
  destruct (T <=? _)%nat; [| reflexivity].
  rewrite flushBatch_state, current_state_loaded. cbn [postChain lastHash].
  destruct (postChain s ++ [attachIpfs (newLink post sig s) r]) eqn:Happ.
  { destruct (postChain s); discriminate. }
  destruct (uploadToIPFS cfg (env_batch env)); [reflexivity |].
  rewrite <- Happ. reflexivity.
Qed.

Lemma addPostToBatch_inv (rf : ReadFile) (cfg : RootConfig) (T : nat) (env : BatchEnv)
    (post : Post) (sig : option string) (b : Batcher) :
  batch_inv rf b -> batch_inv rf (fst (addPostToBatch rf cfg T env post sig b)).
Proof.
  intros Hinv. rewrite addPostToBatch_eq.
  destruct (current_state rf b) as [s|] eqn:Hs; [| exact Hinv].
  pose proof (batch_inv_loaded rf b s Hinv Hs) as Hinv1.
  destruct (uploadToIPFS cfg (env_link env)) as [r|]; [| exact Hinv1].
  cbv zeta. cbn [fst].
  destruct (proj1 Hinv s Hs) as ((root & Hroot & Hlinked) & Hne).
  destruct (attachIpfs_hash (newLink post sig s) r) as (Hh & Hp & _).
  match goal with
  | |- batch_inv rf (if _ then fst (flushBatch _ _ _ _ ?b3) else _) =>
      assert (Hsaved : batch_inv rf b3)
  end.
  { apply (batch_inv_saved rf (env_now env)
             (mkState (postChain s ++ [attachIpfs (newLink post sig s) r])
                      (cp_hash (attachIpfs (newLink post sig s) r)))).
    split; cbn [postChain lastHash].
    - exists root. split; [exact Hroot |].
      eapply linked_snoc; [exact Hlinked | rewrite Hp; reflexivity].
    - rewrite Hh. simpl. apply sha256_nonempty. }
  destruct (T <=? _)%nat; [apply flushBatch_inv |]; exact Hsaved.
Qed.

Lemma restart_inv (rf : ReadFile) (b : Batcher) :
  batch_inv rf b -> batch_inv rf (restart b).
Proof.
  intros Hinv. split.
  - intros s' Hs'. destruct (restart_state rf b s' Hinv Hs') as [-> | Hs].
    + apply state_linked_initial.
    + apply (proj1 Hinv), Hs.
  - intros Hp. destruct (proj2 Hinv Hp) as [Hne _]. split.
    + exact Hne.
    + intros s Hs. discriminate.
Qed.

Lemma at_start_inv (rf : ReadFile) (b : Batcher) : at_start b -> batch_inv rf b.
Proof.
  intros [Hl Hf]. split.
  - intros s Hs. rewrite (current_state_unloaded rf b Hl), current_state_restart in Hs.
    destruct (batchFile b) as [bd|].
    + destruct Hf as [Hc Hh]. rewrite Hc, Hh in Hs.
      destruct (onPresent rf); injection Hs as <-; apply state_linked_initial.
    + destruct (onAbsent rf); [discriminate |].
      injection Hs as <-. apply state_linked_initial.
  - intros _. split.
    + intros bd Hbd. rewrite Hbd in Hf. destruct Hf as [_ ->]. discriminate.
    + intros s Hs. congruence.
Qed.

Lemma fresh_batcher_at_start : at_start fresh_batcher.
Proof. split; [reflexivity | exact I]. Qed.

(** The state a domain starts from, when it has one. *)
Lemma at_start_state (rf : ReadFile) (b : Batcher) (s : DomainState) :
  at_start b -> current_state rf b = Some s -> s = mkState [] genesisHash.
Proof.
  intros [Hl Hf] Hs. rewrite (current_state_unloaded rf b Hl), current_state_restart in Hs.
  destruct (batchFile b) as [bd|].
  - destruct Hf as [Hc Hh]. rewrite Hc, Hh in Hs.
    destruct (onPresent rf); injection Hs as <-; reflexivity.
  - destruct (onAbsent rf); [discriminate |]. injection Hs as <-. reflexivity.
Qed.

Lemma batch_step_inv (rf : ReadFile) (cfg : RootConfig) (T : nat) (b : Batcher)
    (op : BatchOp) :
  batch_inv rf b -> batch_inv rf (batch_step rf cfg T b op).
Proof.
  intros Hinv. destruct op; simpl.
  - apply addPostToBatch_inv, Hinv.
  - apply flushBatch_inv, Hinv.
  - apply restart_inv, Hinv.
Qed.

Lemma batch_run_inv (rf : ReadFile) (cfg : RootConfig) (T : nat) (ops : list BatchOp)
    (b : Batcher) :
  batch_inv rf b -> batch_inv rf (batch_run rf cfg T ops b).
Proof.
  revert b. induction ops as [|op ops IH]; intros b Hinv; simpl; [exact Hinv |].
  apply IH, batch_step_inv, Hinv.
Qed.

(* ================================================================== *)
(** * Chain batcher: the claims *)
(* ================================================================== *)

(** C1, as stated, fails.  With the default threshold of 5, the sixth
    post appended to a domain that starts from the genesis hash is the
    first link of the second batch, and its [previousHash] is the
    re-hashed root that the flush left, not the genesis constant: the
    chain the batcher holds does not satisfy chain integrity relative to
    [genesisHash].  This is so for a domain without a batch file under a
    [readFile] that answers an absent file with a falsy value, and for a
    domain with an empty batch file under a [readFile] that returns the
    raw content. *)
Lemma chain_root_after_flush_is_not_genesis :
  (exists s,
     current_state Sample.read_parsed
       (fst (addPosts Sample.read_parsed Sample.root_config 5
               (Sample.calls Sample.store_up [1; 2; 3; 4; 5; 6]%N) fresh_batcher))
     = Some s
     /\ ~ chain_integrity genesisHash (postChain s))
  /\ (exists s,
        current_state Sample.read_raw
          (fst (addPosts Sample.read_raw Sample.root_config 5
                  (Sample.calls Sample.store_up [1; 2; 3; 4; 5; 6]%N) Sample.started))
        = Some s
        /\ ~ chain_integrity genesisHash (postChain s)).
Proof.
  split.
  - eexists. split; [vm_compute; reflexivity |].
    intros [Hfirst _]. specialize (Hfirst _ eq_refl). vm_compute in Hfirst. discriminate.
  - eexists. split; [vm_compute; reflexivity |].
    intros [Hfirst _]. specialize (Hfirst _ eq_refl). vm_compute in Hfirst. discriminate.
Qed.

(** C1 (amended).  Take appends, forced flushes and restarts that each
    run to completion before the next one starts, from a domain's state
    before its first use.  In every state the batcher reaches, the chain
    is linked: for all [i > 0], [chain[i].previousHash] is
    [chain[i-1].hash], and [chain[0].previousHash] is the chain's root,
    which is the genesis constant or a digest (the re-hashed [lastHash]
    left by a flush); [lastHash] is the hash of the last link, or the root
    when the chain is empty.  Every append takes the current [lastHash] as
    the [previousHash] of its link, hashes the post with it, and leaves
    the link's hash as [lastHash], re-hashed if the append flushed; an
    append that throws leaves the state as it was.  Where
    [getDomainState] throws (no batch file, and a [readFile] that throws
    for an absent file) there is no state, and every append throws and
    changes nothing. *)
Theorem chain_linked_from_root (rf : ReadFile) (cfg : RootConfig) (T : nat)
    (ops : list BatchOp) (b0 : Batcher) :
  at_start b0 ->
  let b := batch_run rf cfg T ops b0 in
  match current_state rf b with
  | Some s =>
      (exists root,
         rooted root /\ chain_integrity root (postChain s)
         /\ linked root (postChain s) (lastHash s))
      /\ forall env post sig,
           match addPostToBatch rf cfg T env post sig b with
           | (b', Ok l) =>
               cp_previousHash l = lastHash s
               /\ cp_hash l = hashPost post (lastHash s)
               /\ cp_chainIndex l = length (postChain s)
               /\ (current_state rf b' = Some (mkState (postChain s ++ [l]) (cp_hash l))
                   \/ current_state rf b' = Some (mkState [] (Sha256.sha256 (cp_hash l))))
           | (b', Throw) => current_state rf b' = Some s
           end
  | None =>
      forall env post sig, addPostToBatch rf cfg T env post sig b = (b, Throw)
  end.
Proof.
  intros Hstart b.
  pose proof (batch_run_inv rf cfg T ops b0 (at_start_inv rf b0 Hstart)) as Hinv.
  fold b in Hinv.
  destruct (current_state rf b) as [s|] eqn:Hs.
  - split.
    + destruct (proj1 Hinv s Hs) as ((root & Hroot & Hlinked) & _).
      exists root. repeat split; try assumption.
      * eapply linked_integrity, Hlinked.
      * eapply linked_integrity, Hlinked.
    + intros env post sig.
      pose proof (addPostToBatch_state rf cfg T env post sig b s Hs) as Hadd.
      destruct (uploadToIPFS cfg (env_link env)) as [r|].
      * cbv zeta in Hadd. destruct Hadd as [Hres Hstate].
        destruct (addPostToBatch rf cfg T env post sig b) as [b' res].
        cbn [fst snd] in Hres, Hstate. subst res.
        destruct (attachIpfs_hash (newLink post sig s) r) as (Hh & Hp & _ & Hi).
        repeat split; try assumption.
        rewrite Hstate.
        destruct (T <=? _)%nat; [| left; reflexivity].
        destruct (uploadToIPFS cfg (env_batch env)); [right | left]; reflexivity.
      * destruct Hadd as [Hres Hstate].
        destruct (addPostToBatch rf cfg T env post sig b) as [b' res].
        cbn [fst snd] in Hres, Hstate. subst res. exact Hstate.
  - intros env post sig. rewrite addPostToBatch_eq, Hs. reflexivity.
Qed.

Lemma chain_linked_from_root_witness :
  at_start Sample.started
  /\ let b := batch_run Sample.read_raw Sample.root_config 5
                Scenario.appends_across_restart Sample.started in
     match current_state Sample.read_raw b with
     | Some s =>
         (exists root,
            rooted root /\ chain_integrity root (postChain s)
            /\ linked root (postChain s) (lastHash s))
         /\ forall env post sig,
              match addPostToBatch Sample.read_raw Sample.root_config 5 env post sig b with
              | (b', Ok l) =>
                  cp_previousHash l = lastHash s
                  /\ cp_hash l = hashPost post (lastHash s)
                  /\ cp_chainIndex l = length (postChain s)
                  /\ (current_state Sample.read_raw b'
                      = Some (mkState (postChain s ++ [l]) (cp_hash l))
                      \/ current_state Sample.read_raw b'
                         = Some (mkState [] (Sha256.sha256 (cp_hash l))))
              | (b', Throw) => current_state Sample.read_raw b' = Some s
              end
     | None =>
         forall env post sig,
           addPostToBatch Sample.read_raw Sample.root_config 5 env post sig b = (b, Throw)
     end.
Proof.
  assert (Hstart : at_start Sample.started).
  { split; [reflexivity | split; reflexivity]. }
  split; [exact Hstart |].
  exact (chain_linked_from_root Sample.read_raw Sample.root_config 5
           Scenario.appends_across_restart Sample.started Hstart).
Defined.

(* ------------------------------------------------------------------ *)
(** ** Appends in flight *)

(** A call that runs to completion is its two halves, one after the
    other. *)
Lemma addPostToBatch_halves (rf : ReadFile) (cfg : RootConfig) (T : nat) (env : BatchEnv)
    (post : Post) (sig : option string) (b : Batcher) :
  addPostToBatch rf cfg T env post sig b
  = match addPostToBatch_begin rf post sig b with
    | Throw => (b, Throw)
    | Ok (b1, l) => addPostToBatch_resume rf cfg T env l b1
    end.
Proof.
  unfold addPostToBatch, addPostToBatch_begin, addPostToBatch_resume.
  rewrite getDomainState_eq.
  destruct (current_state rf b) as [s|]; reflexivity.
Qed.

(** Without the proviso the linking fails.  Two posts are accepted in
    quick succession and both appends begin before either upload has
    settled: both links carry the genesis hash as [previousHash] and 0 as
    [chainIndex], and the chain they are pushed to is linked from no root
    at all. *)
Lemma appends_in_flight_break_the_chain :
  exists b s l1 l2,
    two_in_flight Sample.read_raw Sample.root_config 5 Sample.store_up
      (Sample.post 1) (Sample.post 2) Sample.started = Some b
    /\ current_state Sample.read_raw b = Some s
    /\ postChain s = [l1; l2]
    /\ cp_previousHash l1 = genesisHash /\ cp_previousHash l2 = genesisHash
    /\ cp_chainIndex l1 = 0%nat /\ cp_chainIndex l2 = 0%nat
    /\ forall root, ~ chain_integrity root (postChain s).
Proof.
  eexists _, _, _, _.
  split; [vm_compute; reflexivity |].
  split; [vm_compute; reflexivity |].
  split; [reflexivity |].
  repeat (split; [reflexivity |]).
  intros root [_ Hnext]. specialize (Hnext 0%nat _ _ eq_refl eq_refl).
  vm_compute in Hnext. discriminate.
Qed.

(* ------------------------------------------------------------------ *)
(** ** Flushes *)

(** C2, as stated, fails.  The content store is down (the [fetch] of the
    summary rejects, so [uploadToIPFS] returns [null]); the flush of a
    chain of two links nevertheless clears the chain, in memory and in the
    batch file: it is not left as it was, and both links are gone. *)
Lemma failed_anchoring_still_clears_chain :
  upload_fails Sample.root_config FetchRejects
  /\ (length <$> (postChain <$> current_state Sample.read_raw Sample.two_links))
     = Some 2%nat
  /\ (postChain <$> current_state Sample.read_raw
        (fst (flushBatch Sample.read_raw Sample.root_config FetchRejects 1700000000001
                Sample.two_links)))
     <> (postChain <$> current_state Sample.read_raw Sample.two_links)
  /\ (postChain <$> current_state Sample.read_raw
        (fst (flushBatch Sample.read_raw Sample.root_config FetchRejects 1700000000001
                Sample.two_links)))
     = Some []
  /\ (bd_chain <$> batchFile
        (fst (flushBatch Sample.read_raw Sample.root_config FetchRejects 1700000000001
                Sample.two_links)))
     = Some [].
Proof. vm_compute. repeat split; try reflexivity. discriminate. Qed.

(** C2 (amended).  A flush leaves the chain and [lastHash] as they were,
    so that no link is lost, exactly when the upload of the summary
    throws, which [uploadToIPFS] does only for a root configuration
    without its [ipfs] section.  When the upload returns, with a result or
    with [null] after a failure it caught, the flush of a non-empty chain
    clears the chain and re-hashes [lastHash]. *)
Theorem flushBatch_keeps_chain_only_on_throw (rf : ReadFile) (cfg : RootConfig)
    (net : FetchOutcome) (now : N) (b : Batcher) :
  (uploadToIPFS cfg net = Throw <-> rc_ipfs cfg = None)
  /\ (uploadToIPFS cfg net = Throw ->
      current_state rf (fst (flushBatch rf cfg net now b)) = current_state rf b
      /\ batchFile (fst (flushBatch rf cfg net now b)) = batchFile b)
  /\ (forall r s, uploadToIPFS cfg net = Ok r ->
      current_state rf b = Some s ->
      postChain s <> [] ->
      current_state rf (fst (flushBatch rf cfg net now b))
      = Some (mkState [] (Sha256.sha256 (lastHash s)))).
Proof.
  split; [| split].
  - unfold uploadToIPFS. destruct (rc_ipfs cfg) as [ipfs|]; [| tauto].
    split; [| discriminate].
    destruct (truthy_str (ipfs_url ipfs)); [| discriminate].
    destruct net as [|[] [[h|]|]]; discriminate.
  - intros Hthrow. split.
    + rewrite flushBatch_state, Hthrow.
      destruct (current_state rf b) as [s|]; [| reflexivity].
      destruct (postChain s); reflexivity.
    + rewrite flushBatch_eq, Hthrow.
      destruct (current_state rf b) as [s|]; [| reflexivity].
      destruct (postChain s); reflexivity.
  - intros r s Hok Hs Hne. rewrite flushBatch_state, Hs, Hok.
    destruct (postChain s); [contradiction | reflexivity].
Qed.

Lemma flushBatch_keeps_chain_only_on_throw_witness :
  current_state Sample.read_raw
    (fst (flushBatch Sample.read_raw Sample.root_config_without_ipfs FetchRejects
            1700000000001 Sample.two_links))
  = current_state Sample.read_raw Sample.two_links
  /\ exists s,
       current_state Sample.read_raw Sample.two_links = Some s
       /\ current_state Sample.read_raw
            (fst (flushBatch Sample.read_raw Sample.root_config FetchRejects
                    1700000000001 Sample.two_links))
          = Some (mkState [] (Sha256.sha256 (lastHash s))).
Proof.
  split.
  - apply (flushBatch_keeps_chain_only_on_throw Sample.read_raw
             Sample.root_config_without_ipfs FetchRejects 1700000000001 Sample.two_links).
    reflexivity.
  - assert (Hs : exists s, current_state Sample.read_raw Sample.two_links = Some s
                           /\ postChain s <> []).
    { eexists. split; [vm_compute; reflexivity | discriminate]. }
    destruct Hs as (s & Hs & Hne). exists s. split; [exact Hs |].
    apply (proj2 (proj2 (flushBatch_keeps_chain_only_on_throw Sample.read_raw
             Sample.root_config FetchRejects 1700000000001 Sample.two_links)) None s).
    + reflexivity.
    + exact Hs.
    + exact Hne.
Defined.

(* ------------------------------------------------------------------ *)
(** ** Runs of appends *)

Lemma uploadToIPFS_returns (cfg : RootConfig) (ipfs : IpfsConfig) (net : FetchOutcome) :
  rc_ipfs cfg = Some ipfs -> exists r, uploadToIPFS cfg net = Ok r.
Proof.
  intros Hcfg. unfold uploadToIPFS. rewrite Hcfg.
  destruct (truthy_str (ipfs_url ipfs)); [| eauto].
  destruct net as [|[] [[h|]|]]; eauto.
Qed.






(* ================================================================== *)
(** * Ledger writer and access check *)
(* ================================================================== *)

Section LedgerFacts.

Variable sanitizeSvg : string -> result string.
Variable cfg : BoardConfig.

Lemma validateImage_not_json (settings : ImageSettings) (image : string)
    (r : Response Post) :
  validateImage sanitizeSvg settings image = Some r -> forall p, r <> Json p.
Proof.
  unfold validateImage. intros H p.
  repeat match type of H with
         | (if ?c then _ else _) = _ => destruct c
         | match ?c with _ => _ end = _ => destruct c
         end; inversion H; discriminate.
Qed.

(** The input checks answer with an error, never with a post. *)
Lemma validatePost_not_json (body : PostBody) (r : Response Post) :
  validatePost sanitizeSvg cfg body = Some r -> forall p, r <> Json p.
Proof.
  unfold validatePost. intros H p.
  destruct (truthy_str (body_text body)) as [text|]; [| inversion H; discriminate].
  destruct (String.length (Js.trim text) =? 0)%nat; [inversion H; discriminate |].
  destruct (truthy_str (body_channel body)) as [channel|].
  - destruct (decide (channel = "general")).
    + destruct (truthy_str (body_image body)); [| discriminate].
      eapply validateImage_not_json, H.
    + destruct (channel_exists channel (channels cfg)) as [[]|];
        try (inversion H; discriminate).
      destruct (truthy_str (body_image body)); [| discriminate].
      eapply validateImage_not_json, H.
  - destruct (truthy_str (body_image body)); [| discriminate].
    eapply validateImage_not_json, H.
Qed.

(** A post request that the access check denies changes nothing and
    schedules nothing, whatever the input checks made of it. *)
Lemma submitPost_denied (client : option Client) (o : Oracle) (body : PostBody)
    (now : N) (st : Storage) :
  allowed (checkPostingPermission client o) = false ->
  let out := submitPost sanitizeSvg cfg client o body now st in
  out_storage out = st /\ out_broadcast out = None /\ out_batch out = None
  /\ (forall p, out_response out <> Json p)
  /\ (validatePost sanitizeSvg cfg body = None ->
      out_response out
      = Error 403 (default ""%string (reason (checkPostingPermission client o)))).
Proof.
  intros Hdenied. unfold submitPost.
  destruct (validatePost sanitizeSvg cfg body) as [r|] eqn:Hv.
  - simpl. repeat split; try discriminate.
    eapply validatePost_not_json, Hv.
  - rewrite Hdenied. simpl. repeat split; discriminate.
Qed.

(** What an accepted post request does. *)
Lemma submitPost_accepted (client : option Client) (o : Oracle) (body : PostBody)
    (now : N) (st st1 : Storage) (data : Data) :
  validatePost sanitizeSvg cfg body = None ->
  allowed (checkPostingPermission client o) = true ->
  readData st = Ok (st1, data) ->
  exists u,
    user (checkPostingPermission client o) = Some u /\
    let post := newPost data (default ""%string (body_text body)) (body_image body)
                        (body_channel body) u now in
    submitPost sanitizeSvg cfg client o body now st
    = mkOutcome (writeData (unshiftPost post data) (writePost post st1))
                (Json post) (Some (NewPost post)) (Some post).
Proof.
  intros Hv Hallowed Hread. unfold submitPost. rewrite Hv, Hread.
  unfold checkPostingPermission in *.
  destruct client as [c|]; [| discriminate].
  destruct (oracle_access o) as [|l]; [discriminate |].
  destruct (2 <=? l)%N; [| discriminate].
  simpl. eexists. split; reflexivity.
Qed.

End LedgerFacts.

Lemma checkPostingPermission_below_poster (client : option Client) (o : Oracle) (l : N) :
  oracle_access o = AccessLevel l -> (l < 2)%N ->
  allowed (checkPostingPermission client o) = false.
Proof.
  intros Ho Hl. unfold checkPostingPermission. destruct client; [| reflexivity].
  rewrite Ho. destruct (N.leb_spec 2 l); [lia | reflexivity].
Qed.

Lemma checkPostingPermission_oracle_down (client : option Client) (o : Oracle) :
  oracle_access o = AccessThrows ->
  allowed (checkPostingPermission client o) = false.
Proof.
  intros Ho. unfold checkPostingPermission. destruct client; [| reflexivity].
  rewrite Ho. reflexivity.
Qed.

(** A comment request that the access check denies changes nothing. *)
Lemma submitComment_denied (client : option Client) (o : Oracle) (postId : N)
    (body_text : option string) (now : N) (st : Storage) :
  allowed (checkPostingPermission client o) = false ->
  let out := submitComment client o postId body_text now st in
  out_storage out = st /\ out_broadcast out = None
  /\ (forall c, out_response out <> Json c)
  /\ (forall text, truthy_str body_text = Some text ->
        String.length (Js.trim text) <> 0%nat ->
        out_response out
        = Error 403 (default ""%string (reason (checkPostingPermission client o)))).
Proof.
  intros Hdenied. unfold submitComment.
  destruct (truthy_str body_text) as [text|].
  - destruct (Nat.eqb_spec (String.length (Js.trim text)) 0).
    + simpl. repeat split; try discriminate. intros t Ht. injection Ht as <-. tauto.
    + rewrite Hdenied. simpl. repeat split; discriminate.
  - simpl. repeat split; discriminate.
Qed.

(** C4.  A caller whose resolved access level is below Poster (level 2)
    cannot post: the request changes nothing in the storage (no post
    record, the index and its [nextId] as before), broadcasts nothing and
    hands no post to the chain batcher; the answer is never a post, and it
    is the 403 carrying the resolver's reason whenever the request gets as
    far as the resolver, that is whenever it passes the input checks that
    the handler makes first. *)
Theorem fail_closed_writes (sanitizeSvg : string -> result string) (cfg : BoardConfig)
    (client : option Client) (o : Oracle) (l : N) (body : PostBody) (now : N)
    (st : Storage) :
  oracle_access o = AccessLevel l -> (l < 2)%N ->
  let out := submitPost sanitizeSvg cfg client o body now st in
  out_storage out = st /\ out_broadcast out = None /\ out_batch out = None
  /\ (forall p, out_response out <> Json p)
  /\ (validatePost sanitizeSvg cfg body = None ->
      exists why, reason (checkPostingPermission client o) = Some why
                  /\ out_response out = Error 403 why).
Proof.
  intros Ho Hl out.
  pose proof (checkPostingPermission_below_poster client o l Ho Hl) as Hdenied.
  destruct (submitPost_denied sanitizeSvg cfg client o body now st Hdenied)
    as (Hst & Hb & Hc & Hj & Hr).
  repeat split; try assumption.
  intros Hv. specialize (Hr Hv). fold out in Hr.
  unfold checkPostingPermission in *. destruct client.
  - rewrite Ho in *. destruct (2 <=? l)%N; [discriminate |]. eauto.
  - eauto.
Qed.

Lemma fail_closed_writes_witness :
  let out := submitPost Sample.sanitizer Sample.board (Some Sample.alice)
               (Sample.oracle 1) (mkBody (Some "hello") None None) 1700000000000
               empty_storage in
  out_storage out = empty_storage /\ out_batch out = None
  /\ out_response out
     = Error 403 "You need editor privileges to post. Request access in the sidebar.".
Proof.
  pose proof (fail_closed_writes Sample.sanitizer Sample.board (Some Sample.alice)
                (Sample.oracle 1) 1 (mkBody (Some "hello") None None) 1700000000000
                empty_storage eq_refl) as H.
  destruct H as (Hst & _ & Hbatch & _ & Hresp); [reflexivity |].
  destruct (Hresp eq_refl) as (why & Hwhy & Hout).
  injection Hwhy as <-.
  repeat split; assumption.
Defined.

(* ------------------------------------------------------------------ *)
(** ** The oracle is unreachable *)

(** Every write is denied when the access check throws. *)
Lemma writes_denied_when_oracle_down (sanitizeSvg : string -> result string)
    (cfg : BoardConfig) (client : option Client) (o : Oracle) (now : N) (st : Storage) :
  oracle_access o = AccessThrows ->
  (forall body,
     let out := submitPost sanitizeSvg cfg client o body now st in
     out_storage out = st /\ out_batch out = None /\ (forall p, out_response out <> Json p)
     /\ (validatePost sanitizeSvg cfg body = None -> client <> None ->
         out_response out = Error 403 "Permission check failed"))
  /\ (forall postId text,
        let out := submitComment client o postId text now st in
        out_storage out = st /\ (forall c, out_response out <> Json c)).
Proof.
  intros Ho.
  pose proof (checkPostingPermission_oracle_down client o Ho) as Hdenied.
  split.
  - intros body out.
    destruct (submitPost_denied sanitizeSvg cfg client o body now st Hdenied)
      as (Hst & _ & Hb & Hj & Hr).
    repeat split; try assumption.
    intros Hv Hc. fold out in Hr. rewrite (Hr Hv).
    unfold checkPostingPermission. destruct client; [| contradiction].
    rewrite Ho. reflexivity.
  - intros postId text out.
    destruct (submitComment_denied client o postId text now st Hdenied)
      as (Hst & _ & Hj & _).
    split; assumption.
Qed.

(** The list read of an authenticated caller fails when the access check
    throws: [getAccessibleChannelNames] does not catch it, and the
    handler's outer [catch] answers 500. *)
Lemma getPosts_oracle_down (cfg : BoardConfig) (c : Client) (o : Oracle)
    (channel : option string) (st : Storage) :
  address c <> ""%string -> oracle_access o = AccessThrows ->
  snd (getPosts cfg (Some c) o channel st) = ServerError.
Proof.
  intros Haddr Ho. unfold getPosts.
  destruct (readData st) as [[st1 data]|]; [| reflexivity].
  unfold getAccessibleChannelNames.
  destruct (parsed_channels (channels cfg)); [| reflexivity].
  rewrite bool_decide_eq_false_2 by exact Haddr. simpl. rewrite Ho. reflexivity.
Qed.

(** C5, at the failing input.  On a board with two accepted posts, both
    in the general channel and so visible to every reader, the oracle
    becomes unreachable.  An authenticated caller is denied the write
    with a 403, as the claim says, but the list read of the same caller is
    answered with a 500 instead of the two posts, which a caller without
    identity still gets. *)
Theorem read_fails_when_oracle_down :
  out_response (submitPost Sample.sanitizer Sample.board (Some Sample.alice)
                  Sample.oracle_down (mkBody (Some "hello") None None) 1700000000003
                  Sample.two_posts)
  = Error 403 "Permission check failed"
  /\ snd (getPosts Sample.board (Some Sample.alice) Sample.oracle_down None
            Sample.two_posts)
     = ServerError
  /\ (exists posts,
        snd (getPosts Sample.board None Sample.oracle_down None Sample.two_posts)
        = Json posts
        /\ map p_id posts = [2; 1]%N).
Proof.
  split; [| split].
  - vm_compute. reflexivity.
  - apply getPosts_oracle_down; [discriminate | reflexivity].
  - eexists. split; vm_compute; reflexivity.
Qed.

(* ------------------------------------------------------------------ *)
(** ** Anchoring fails *)

(** C6.  A post request that passes the input checks and the access check
    on a readable storage is answered with the created post, which
    carries the next id; the post is stored and indexed, broadcast and
    handed to the chain batcher, whatever the content store does.  What
    the batcher then does when every upload fails depends on how it
    fails.  With the [ipfs] section configured a failing upload returns
    [null]: the append returns the link of the post, without [ipfsHash]
    and [ipfsUrl], and the chain has grown by that link (or, having
    reached the threshold, was flushed as usual).  Without the [ipfs]
    section the upload throws: the append throws before it pushes
    anything, and chain and [lastHash] stay as they were. *)
Theorem anchor_failure_isolation (sanitizeSvg : string -> result string)
    (cfg : BoardConfig) (root : RootConfig) (rq : PostRequest) (st st1 : Storage)
    (data : Data) (rf : ReadFile) (env : BatchEnv) (b : Batcher) (s : DomainState) :
  acceptable sanitizeSvg cfg rq = true ->
  readData st = Ok (st1, data) ->
  current_state rf b = Some s ->
  anchoring_fails root (env_link env) ->
  anchoring_fails root (env_batch env) ->
  exists u,
    user (checkPostingPermission (rq_client rq) (rq_oracle rq)) = Some u
    /\ let post := newPost data (default ""%string (body_text (rq_body rq)))
                     (body_image (rq_body rq)) (body_channel (rq_body rq)) u (rq_now rq) in
       let out := submit sanitizeSvg cfg rq st in
       let res := addPostToBatch rf root (batchThreshold cfg) env post None b in
       out_response out = Json post
       /\ p_id post = d_nextId data
       /\ out_storage out = writeData (unshiftPost post data) (writePost post st1)
       /\ out_broadcast out = Some (NewPost post)
       /\ out_batch out = Some post
       /\ match rc_ipfs root with
          | Some _ =>
              let l := newLink post None s in
              snd res = Ok l
              /\ cp_post l = post /\ cp_ipfsHash l = None /\ cp_ipfsUrl l = None
              /\ current_state rf (fst res)
                 = Some (if (batchThreshold cfg <=? length (postChain s) + 1)%nat
                         then mkState [] (Sha256.sha256 (cp_hash l))
                         else mkState (postChain s ++ [l]) (cp_hash l))
          | None =>
              snd res = Throw /\ current_state rf (fst res) = Some s
          end.
Proof.
  intros Hacc Hread Hs Hlink Hbatch.
  unfold acceptable in Hacc.
  destruct (validatePost sanitizeSvg cfg (rq_body rq)) eqn:Hv; [discriminate |].
  destruct (submitPost_accepted sanitizeSvg cfg (rq_client rq) (rq_oracle rq)
              (rq_body rq) (rq_now rq) st st1 data Hv Hacc Hread) as (u & Hu & Hsub).
  exists u. split; [exact Hu |].
  cbv zeta in Hsub |- *. unfold submit. rewrite Hsub.
  cbn [out_response out_storage out_broadcast out_batch].
  set (post := newPost data (default ""%string (body_text (rq_body rq)))
                       (body_image (rq_body rq)) (body_channel (rq_body rq)) u (rq_now rq)).
  repeat (split; [reflexivity |]).
  pose proof (addPostToBatch_state rf root (batchThreshold cfg) env post None b s Hs)
    as Hadd.
  destruct (rc_ipfs root) as [ipfs|] eqn:Hcfg.
  - assert (Hnull : forall net, anchoring_fails root net -> uploadToIPFS root net = Ok None).
    { intros net [Hnull | Hthrow]; [exact Hnull |].
      destruct (uploadToIPFS_returns root ipfs net Hcfg) as [r Hr].
      unfold upload_throws in Hthrow. congruence. }
    rewrite (Hnull _ Hlink) in Hadd. cbv zeta in Hadd. cbn [attachIpfs] in Hadd.
    rewrite (Hnull _ Hbatch) in Hadd. destruct Hadd as [Hres Hstate].
    split; [exact Hres |]. repeat (split; [reflexivity |]). exact Hstate.
  - assert (Hthrow : uploadToIPFS root (env_link env) = Throw).
    { unfold uploadToIPFS. rewrite Hcfg. reflexivity. }
    rewrite Hthrow in Hadd. exact Hadd.
Qed.

Lemma anchor_failure_isolation_witness :
  exists post,
    out_response (submit Sample.sanitizer Sample.board
                    (Sample.request Sample.alice 2 "hello" 1700000000000) empty_storage)
    = Json post
    /\ snd (addPostToBatch Sample.read_raw Sample.root_config_without_ipfs 5
              Sample.store_down post None Sample.two_links) = Throw
    /\ current_state Sample.read_raw
         (fst (addPostToBatch Sample.read_raw Sample.root_config_without_ipfs 5
                 Sample.store_down post None Sample.two_links))
       = current_state Sample.read_raw Sample.two_links
    /\ (exists l,
          snd (addPostToBatch Sample.read_raw Sample.root_config 5
                 Sample.store_down post None Sample.two_links) = Ok l
          /\ cp_ipfsHash l = None
          /\ (length <$> (postChain <$> current_state Sample.read_raw
                (fst (addPostToBatch Sample.read_raw Sample.root_config 5
                        Sample.store_down post None Sample.two_links))))
             = Some 3%nat).
Proof.
  assert (Hread : exists st1 data, readData empty_storage = Ok (st1, data)).
  { eexists _, _. vm_compute. reflexivity. }
  destruct Hread as (st1 & data & Hread).
  assert (Hs : exists s, current_state Sample.read_raw Sample.two_links = Some s
                         /\ length (postChain s) = 2%nat).
  { eexists. split; vm_compute; reflexivity. }
  destruct Hs as (s & Hs & Hlen).
  destruct (anchor_failure_isolation Sample.sanitizer Sample.board
              Sample.root_config_without_ipfs
              (Sample.request Sample.alice 2 "hello" 1700000000000) empty_storage
              st1 data Sample.read_raw Sample.store_down Sample.two_links s)
    as (u & Hu & Hresp & _ & _ & _ & _ & Hthrow & Hkept).
  { reflexivity. }
  { exact Hread. }
  { exact Hs. }
  { right. reflexivity. }
  { right. reflexivity. }
  destruct (anchor_failure_isolation Sample.sanitizer Sample.board Sample.root_config
              (Sample.request Sample.alice 2 "hello" 1700000000000) empty_storage
              st1 data Sample.read_raw Sample.store_down Sample.two_links s)
    as (u' & Hu' & _ & _ & _ & _ & _ & Hlink & _ & Hipfs & _ & Hgrown).
  { reflexivity. }
  { exact Hread. }
  { exact Hs. }
  { left. reflexivity. }
  { left. reflexivity. }
  assert (Huu : u' = u) by congruence. subst u'.
  eexists. split; [exact Hresp |].
  change (batchThreshold Sample.board) with 5%nat in *.
  split; [exact Hthrow |].
  split; [rewrite Hs; exact Hkept |].
  eexists. split; [exact Hlink | split; [exact Hipfs |]].
  rewrite Hgrown, Hlen. cbn [Nat.leb Nat.add fmap option_fmap option_map postChain].
  rewrite length_app, Hlen. reflexivity.
Defined.

(* ================================================================== *)
(** * Storage backend: migration *)
(* ================================================================== *)

Lemma writePosts_shape (posts : list Post) (st : Storage) :
  fold_left (fun s p => writePost p s) posts st
  = mkStorage (indexFile st)
              (fold_left (fun m p => <[p_id p := p]> m) posts (postFiles st))
              (legacyFile st).
Proof.
  revert st. induction posts as [|p posts IH]; intros st; simpl.
  - destruct st; reflexivity.
  - rewrite IH. reflexivity.
Qed.

Lemma writePosts_lookup (posts : list Post) (m : gmap N Post) (k : N) :
  fold_left (fun m p => <[p_id p := p]> m) posts m !! k
  = match latest k posts with
    | Some q => Some q
    | None => m !! k
    end.
Proof.
  revert m. induction posts as [|p posts IH]; intros m; simpl; [reflexivity |].
  rewrite IH. destruct (latest k posts); [reflexivity |].
  destruct (decide (p_id p = k)) as [<-|Hne].
  - apply lookup_insert_eq.
  - apply lookup_insert_ne, Hne.
Qed.

(** Writing the same records a second time changes nothing. *)
Lemma writePosts_twice (posts : list Post) (m : gmap N Post) :
  fold_left (fun m p => <[p_id p := p]> m) posts
    (fold_left (fun m p => <[p_id p := p]> m) posts m)
  = fold_left (fun m p => <[p_id p := p]> m) posts m.
Proof.
  apply map_eq. intros k. rewrite !writePosts_lookup.
  destruct (latest k posts); reflexivity.
Qed.

Lemma migrateLegacyData_shape (st : Storage) (d : Data) :
  legacyFile st = LegacyData d ->
  migrateLegacyData st
  = Ok (mkStorage (Some (index_of d))
                  (fold_left (fun m p => <[p_id p := p]> m) (d_posts d) (postFiles st))
                  (LegacyData d), d).
Proof.
  intros Hl. unfold migrateLegacyData. rewrite Hl, writePosts_shape, Hl. reflexivity.
Qed.

(** C7.  Migrating twice leaves the storage that migrating once leaves:
    the same index and the same record under every id; the second run
    returns the same data as the first.  A migration that found a legacy
    monolith leaves an index, and once an index exists [readData] does not
    migrate: it returns the indexed posts and the storage untouched,
    whatever the legacy file holds. *)
Theorem migration_idempotent (st : Storage) :
  after_migration (after_migration st) = after_migration st
  /\ migrated_data (after_migration st) = migrated_data st
  /\ (forall d, legacyFile st = LegacyData d ->
        indexFile (after_migration st) = Some (index_of d))
  /\ (forall ix, indexFile st = Some ix ->
        exists data, forall legacy,
          readData (mkStorage (Some ix) (postFiles st) legacy)
          = Ok (mkStorage (Some ix) (postFiles st) legacy, data)).
Proof.
  split; [| split; [| split]].
  - unfold after_migration at 2 3.
    destruct (legacyFile st) as [| |d] eqn:Hl.
    + unfold migrateLegacyData. rewrite Hl.
      unfold after_migration, migrateLegacyData. rewrite Hl. reflexivity.
    + unfold migrateLegacyData. rewrite Hl.
      unfold after_migration, migrateLegacyData. rewrite Hl. reflexivity.
    + rewrite (migrateLegacyData_shape st d Hl).
      unfold after_migration.
      rewrite migrateLegacyData_shape with (d := d) by reflexivity. cbn [postFiles].
      rewrite writePosts_twice. reflexivity.
  - unfold migrated_data, after_migration.
    destruct (legacyFile st) as [| |d] eqn:Hl.
    + unfold migrateLegacyData at 2 3. rewrite Hl.
      unfold migrateLegacyData. rewrite Hl. reflexivity.
    + unfold migrateLegacyData at 2 3. rewrite Hl.
      unfold migrateLegacyData. rewrite Hl. reflexivity.
    + rewrite (migrateLegacyData_shape st d Hl).
      rewrite migrateLegacyData_shape with (d := d) by reflexivity. reflexivity.
  - intros d Hl. unfold after_migration.
    rewrite (migrateLegacyData_shape st d Hl). reflexivity.
  - intros ix Hix. eexists. intros legacy. unfold readData. cbn [indexFile postFiles].
    reflexivity.
Qed.

(* ================================================================== *)
(** * Channel registry *)
(* ================================================================== *)

Lemma channel_names_cons (e : ChannelEntry) (rest : list ChannelEntry) :
  channel_names (e :: rest)
  = match entry_name e with
    | Ok n => n :: channel_names rest
    | Throw => channel_names rest
    end.
Proof. unfold channel_names. simpl. destruct (entry_name e); reflexivity. Qed.

Lemma channel_exists_false (name : string) (channels : list ChannelEntry) :
  channel_exists name channels = Ok false -> name ∉ channel_names channels.
Proof.
  induction channels as [|e channels IH]; intros H; simpl in H.
  - apply not_elem_of_nil.
  - destruct (entry_name e) as [n|] eqn:He; [| discriminate].
    destruct (decide (n = name)) as [|Hne]; [discriminate |].
    rewrite channel_names_cons, He.
    apply not_elem_of_cons. split; [congruence | apply IH, H].
Qed.

Lemma channel_exists_true (name : string) (channels : list ChannelEntry) :
  channel_exists name channels = Ok true -> name ∈ channel_names channels.
Proof.
  induction channels as [|e channels IH]; intros H; simpl in H; [discriminate |].
  destruct (entry_name e) as [n|] eqn:He; [| discriminate].
  rewrite channel_names_cons, He.
  destruct (decide (n = name)) as [->|Hne].
  - apply list_elem_of_here.
  - apply list_elem_of_further, IH, H.
Qed.

(** C8, as stated, fails.  The name the handler reserves is [general],
    the pseudo-channel of posts without a channel; [default] is an
    ordinary name, and an admin creates a channel of that name. *)
Lemma channel_named_default_is_created :
  createChannel (Some Sample.alice) (Sample.oracle 3) (Some "default") None
                (channels Sample.board)
  = (channels Sample.board ++ [ChObj (mkChannel "default" None)],
     Json (mkChannel "default" None)).
Proof. vm_compute. reflexivity. Qed.

(** C8 (amended).  For an admin, channel creation enforces three rules:
    the name matches [[a-z0-9-]+]; the name is not [general], the
    reserved name of the pseudo-channel; and the name is not that of an
    existing channel.  A violation of any of them is answered 400 and
    leaves the channel set as it was; a channel is created only when all
    three hold, and is then appended to the set. *)
Theorem channel_creation_rules (client : option Client) (o : Oracle)
    (name listRef : option string) (chans : list ChannelEntry) :
  allowed (checkAdminPermission client o) = true ->
  let res := createChannel client o name listRef chans in
  (* pattern *)
  ((forall n, name = Some n -> channel_pattern n = false) ->
   exists msg, res = (chans, Error 400 msg))
  (* reserved name *)
  /\ (name = Some "general"%string -> exists msg, res = (chans, Error 400 msg))
  (* uniqueness *)
  /\ (forall n, name = Some n -> channel_pattern n = true -> n <> "general"%string ->
        channel_exists n chans = Ok true ->
        res = (chans, Error 400 "Channel already exists"))
  (* nothing changes unless a channel is created *)
  /\ ((forall ch, snd res <> Json ch) -> fst res = chans)
  (* a channel is created only within the rules *)
  /\ (forall ch, snd res = Json ch ->
        name = Some (ch_name ch)
        /\ channel_pattern (ch_name ch) = true
        /\ ch_name ch <> "general"%string
        /\ (ch_name ch ∉ channel_names chans)
        /\ fst res = chans ++ [ChObj ch]).
Proof.
  intros Hadmin res. subst res. unfold createChannel. rewrite Hadmin. cbn [negb].
  split; [| split; [| split; [| split]]].
  - intros Hpat. destruct name as [n|]; simpl; [| eauto].
    destruct (decide (n = ""%string)); [eauto |].
    rewrite (Hpat n eq_refl). simpl. eauto.
  - intros ->. simpl. eauto.
  - intros n -> Hpat Hne Hex. unfold truthy_str.
    destruct (decide (n = ""%string)) as [->|_]; [discriminate |].
    rewrite Hpat. cbn [negb].
    destruct (decide (n = "general"%string)); [contradiction |].
    rewrite Hex. reflexivity.
  - intros Hnot. destruct (truthy_str name) as [n|]; [| reflexivity].
    destruct (channel_pattern n); [| reflexivity]. cbn [negb].
    destruct (decide (n = "general"%string)); [reflexivity |].
    destruct (channel_exists n chans) as [[]|]; try reflexivity.
    exfalso. eapply Hnot. reflexivity.
  - intros ch Hch. unfold truthy_str in *.
    destruct name as [n|]; [| discriminate].
    destruct (decide (n = ""%string)); [discriminate |].
    destruct (channel_pattern n) eqn:Hpat; [| discriminate]. cbn [negb] in *.
    destruct (decide (n = "general"%string)); [discriminate |].
    destruct (channel_exists n chans) as [[]|] eqn:Hex; try discriminate.
    injection Hch as <-. cbn [fst ch_name].
    repeat split; try assumption.
    apply channel_exists_false, Hex.
Qed.

Lemma channel_creation_rules_witness :
  (exists msg,
     createChannel (Some Sample.alice) (Sample.oracle 3) (Some "general") None
                   (channels Sample.board)
     = (channels Sample.board, Error 400 msg))
  /\ createChannel (Some Sample.alice) (Sample.oracle 3) (Some "news") None
                   (channels Sample.board)
     = (channels Sample.board, Error 400 "Channel already exists")
  /\ (exists msg,
        createChannel (Some Sample.alice) (Sample.oracle 3) (Some "News") None
                      (channels Sample.board)
        = (channels Sample.board, Error 400 msg)).
Proof.
  pose proof (channel_creation_rules (Some Sample.alice) (Sample.oracle 3)
                (Some "general") None (channels Sample.board) eq_refl) as Hreserved.
  pose proof (channel_creation_rules (Some Sample.alice) (Sample.oracle 3)
                (Some "news") None (channels Sample.board) eq_refl) as Hunique.
  pose proof (channel_creation_rules (Some Sample.alice) (Sample.oracle 3)
                (Some "News") None (channels Sample.board) eq_refl) as Hpattern.
  cbv zeta in Hreserved, Hunique, Hpattern.
  destruct Hreserved as (_ & Hreserved & _).
  destruct Hunique as (_ & _ & Hunique & _).
  destruct Hpattern as (Hpattern & _).
  split; [| split].
  - apply Hreserved. reflexivity.
  - apply (Hunique "news"); try reflexivity. discriminate.
  - apply Hpattern. intros n Hn. injection Hn as <-. reflexivity.
Defined.

(* ================================================================== *)
(** * Ledger: order of the posts *)
(* ================================================================== *)

Lemma Forall_sublist_of {A} (P : A -> Prop) (l1 l2 : list A) :
  l1 `sublist_of` l2 -> Forall P l2 -> Forall P l1.
Proof.
  intros Hsub Hall. rewrite Forall_forall in *.
  intros x Hx. apply Hall. eapply sublist_subseteq; eassumption.
Qed.

Lemma newest_first_sublist (l1 l2 : list N) :
  l1 `sublist_of` l2 -> newest_first l2 -> newest_first l1.
Proof.
  induction 1 as [|x l1 l2 Hsub IH|x l1 l2 Hsub IH]; simpl; intros Hnf.
  - exact I.
  - destruct Hnf as [Hall Hnf]. split; [| apply IH, Hnf].
    eapply Forall_sublist_of; eassumption.
  - apply IH, Hnf.
Qed.

Lemma map_sublist {A B} (f : A -> B) (l1 l2 : list A) :
  l1 `sublist_of` l2 -> map f l1 `sublist_of` map f l2.
Proof. induction 1; simpl; constructor; assumption. Qed.

Lemma filter_sublist_of {A} (P : A -> Prop) `{!forall x, Decision (P x)} (l : list A) :
  filter P l `sublist_of` l.
Proof.
  induction l as [|x l IH]; [constructor |].
  rewrite filter_cons. destruct (decide (P x)); constructor; exact IH.
Qed.

Lemma remove_first_sublist {A} (f : A -> bool) (l : list A) :
  remove_first f l `sublist_of` l.
Proof.
  induction l as [|x l IH]; simpl; [constructor |].
  destruct (f x); [apply sublist_cons; reflexivity | apply sublist_skip, IH].
Qed.

Lemma update_first_ids (f : Post -> bool) (g : Post -> Post) (l : list Post) :
  (forall p, p_id (g p) = p_id p) ->
  map p_id (update_first f g l) = map p_id l.
Proof.
  intros Hg. induction l as [|x l IH]; simpl; [reflexivity |].
  destruct (f x); simpl; [rewrite Hg | rewrite IH]; reflexivity.
Qed.

Lemma newest_first_NoDup_head (x : N) (rest : list N) :
  Forall (fun y => (y < x)%N) rest -> x ∉ rest.
Proof.
  intros Hall Hin. rewrite Forall_forall in Hall. specialize (Hall x Hin). lia.
Qed.

(* ------------------------------------------------------------------ *)
(** ** What is on file *)

Lemma latest_id (k : N) (posts : list Post) (q : Post) :
  latest k posts = Some q -> p_id q = k /\ q ∈ posts.
Proof.
  induction posts as [|p posts IH]; simpl; [discriminate |].
  destruct (latest k posts) as [q'|].
  - intros H. injection H as <-. destruct (IH eq_refl) as [Hid Hin].
    split; [exact Hid | apply list_elem_of_further, Hin].
  - destruct (decide (p_id p = k)); [| discriminate].
    intros H. injection H as <-. split; [assumption | apply list_elem_of_here].
Qed.

Lemma latest_unique (posts : list Post) (p : Post) :
  newest_first (map p_id posts) -> p ∈ posts -> latest (p_id p) posts = Some p.
Proof.
  induction posts as [|q posts IH]; simpl; intros Hnf Hin.
  - apply elem_of_nil in Hin. contradiction.
  - destruct Hnf as [Hall Hnf].
    apply elem_of_cons in Hin as [->|Hin].
    + destruct (latest (p_id q) posts) as [q'|] eqn:Hl.
      * apply latest_id in Hl as [Hid Hq'].
        exfalso. apply (newest_first_NoDup_head _ _ Hall).
        rewrite <- Hid. apply list_elem_of_fmap_2, Hq'.
      * destruct (decide (p_id q = p_id q)); [reflexivity | contradiction].
    + rewrite (IH Hnf Hin). reflexivity.
Qed.

Lemma keyed_insert (m : gmap N Post) (p : Post) :
  keyed m -> keyed (<[p_id p := p]> m).
Proof.
  intros Hk k q. destruct (decide (p_id p = k)) as [<-|Hne].
  - rewrite lookup_insert_eq. intros H. injection H as <-. reflexivity.
  - rewrite lookup_insert_ne by exact Hne. apply Hk.
Qed.

Lemma keyed_delete (m : gmap N Post) (k : N) : keyed m -> keyed (delete k m).
Proof.
  intros Hk k' q Hq. apply Hk.
  destruct (decide (k = k')) as [<-|Hne].
  - rewrite lookup_delete_eq in Hq. discriminate.
  - rewrite lookup_delete_ne in Hq by exact Hne. exact Hq.
Qed.

Lemma keyed_writes (posts : list Post) (m : gmap N Post) :
  keyed m -> keyed (fold_left (fun m p => <[p_id p := p]> m) posts m).
Proof.
  revert m. induction posts as [|p posts IH]; intros m Hk; simpl; [exact Hk |].
  apply IH, keyed_insert, Hk.
Qed.

(** The records an index names, read back in index order. *)
Lemma indexed_posts (m : gmap N Post) (entries : list IndexEntry) :
  keyed m ->
  map p_id (omap (fun meta => m !! ie_id meta) entries) `sublist_of` map ie_id entries
  /\ filed m (omap (fun meta => m !! ie_id meta) entries).
Proof.
  intros Hk. induction entries as [|e entries [IHs IHf]]; simpl.
  - split; [constructor |]. intros p Hp. apply elem_of_nil in Hp. contradiction.
  - destruct (m !! ie_id e) as [p|] eqn:He; simpl.
    + pose proof (Hk _ _ He) as Hid. split.
      * rewrite Hid. apply sublist_skip, IHs.
      * intros q Hq. apply elem_of_cons in Hq as [->|Hq]; [| apply IHf, Hq].
        rewrite Hid. exact He.
    + split; [apply sublist_cons, IHs | exact IHf].
Qed.

Lemma max_id_bound (posts : list Post) :
  Forall (fun i => (i < max_id posts + 1)%N) (map p_id posts).
Proof.
  induction posts as [|p posts IH]; simpl; constructor.
  - lia.
  - eapply Forall_impl; [exact IH |]. simpl. intros q Hq. lia.
Qed.

Lemma index_of_ids (data : Data) :
  map ie_id (ix_posts (index_of data)) = map p_id (d_posts data).
Proof. unfold index_of. cbn [ix_posts]. rewrite map_map. reflexivity. Qed.

Lemma well_formed_commit (data : Data) (m : gmap N Post) (legacy : LegacyFile) :
  keyed m -> data_ordered data ->
  well_formed (mkStorage (Some (index_of data)) m legacy).
Proof.
  intros Hk [Hnf Hbound]. split; [exact Hk |]. cbn [indexFile].
  rewrite index_of_ids. split; [exact Hnf | intros _; exact Hbound].
Qed.

(** What [readData] returns on a well-formed storage. *)
Lemma readData_well_formed (st st1 : Storage) (data : Data) :
  well_formed st -> readData st = Ok (st1, data) ->
  well_formed st1 /\ data_ordered data /\ filed (postFiles st1) (d_posts data)
  /\ legacyFile st1 = legacyFile st.
Proof.
  intros [Hk Hwf] Hread. unfold readData in Hread.
  destruct (indexFile st) as [ix|] eqn:Hix.
  - injection Hread as <- <-. destruct Hwf as [Hnf Hbound].
    destruct (indexed_posts (postFiles st) (ix_posts ix) Hk) as [Hsub Hfiled].
    split; [| split; [| split]].
    + split; [exact Hk |]. rewrite Hix. split; assumption.
    + split; cbn [d_posts d_nextId].
      * eapply newest_first_sublist; eassumption.
      * destruct (N.eqb_spec (ix_nextId ix) 0) as [_|Hne]; [apply max_id_bound |].
        eapply Forall_sublist_of; [exact Hsub | exact (Hbound Hne)].
    + exact Hfiled.
    + reflexivity.
  - unfold migrateLegacyData in Hread.
    destruct (legacyFile st) as [| |d] eqn:Hl; [| discriminate |].
    + injection Hread as <- <-.
      split; [| split; [| split]].
      * split; [exact Hk |]. rewrite Hix, Hl. exact I.
      * split; simpl; constructor.
      * intros p Hp. apply elem_of_nil in Hp. contradiction.
      * exact Hl.
    + injection Hread as <- <-. rewrite writePosts_shape. unfold writeData. simpl.
      split; [| split; [| split]].
      * apply well_formed_commit; [apply keyed_writes, Hk | exact Hwf].
      * exact Hwf.
      * intros p Hp. rewrite writePosts_lookup.
        rewrite (latest_unique _ _ (proj1 Hwf) Hp). reflexivity.
      * exact Hl.
Qed.

(** [readData] returns what the last write handler left. *)
Lemma readData_synced (data : Data) (m : gmap N Post) (legacy : LegacyFile) :
  filed m (d_posts data) -> d_nextId data <> 0%N ->
  readData (mkStorage (Some (index_of data)) m legacy)
  = Ok (mkStorage (Some (index_of data)) m legacy, data).
Proof.
  intros Hfiled Hne. unfold readData. cbn [indexFile postFiles index_of ix_posts ix_nextId].
  destruct (N.eqb_spec (d_nextId data) 0) as [|_]; [contradiction |].
  assert (Hposts : omap (fun meta => m !! ie_id meta) (map meta_of (d_posts data))
                   = d_posts data).
  { revert Hfiled. generalize (d_posts data). intros l. induction l as [|p l IH]; intros Hf.
    - reflexivity.
    - simpl. rewrite (Hf p (list_elem_of_here _ _)). simpl. f_equal.
      apply IH. intros q Hq. apply Hf, list_elem_of_further, Hq. }
  rewrite Hposts. destruct data; reflexivity.
Qed.

(* ------------------------------------------------------------------ *)
(** ** The write handlers keep the storage well formed *)

Lemma data_ordered_unshift (data : Data) (post : Post) :
  data_ordered data -> p_id post = d_nextId data ->
  data_ordered (unshiftPost post data).
Proof.
  intros [Hnf Hbound] Hid. unfold data_ordered, unshiftPost. cbn [d_posts d_nextId map].
  rewrite Hid. split; [split; assumption |].
  constructor; [lia |].
  eapply Forall_impl; [exact Hbound |]. simpl. intros i Hi. lia.
Qed.

Lemma data_ordered_same_ids (data : Data) (posts : list Post) :
  data_ordered data -> map p_id posts = map p_id (d_posts data) ->
  data_ordered (mkData posts (d_nextId data)).
Proof. intros Hd Hids. unfold data_ordered in *. cbn [d_posts d_nextId]. rewrite Hids. exact Hd. Qed.

Lemma data_ordered_sublist (data : Data) (posts : list Post) :
  data_ordered data -> posts `sublist_of` d_posts data ->
  data_ordered (mkData posts (d_nextId data)).
Proof.
  intros [Hnf Hbound] Hsub. unfold data_ordered. cbn [d_posts d_nextId].
  pose proof (map_sublist p_id _ _ Hsub) as Hids.
  split; [eapply newest_first_sublist | eapply Forall_sublist_of]; eassumption.
Qed.

Section Preservation.

Variable sanitizeSvg : string -> result string.
Variable cfg : BoardConfig.

Lemma submitPost_well_formed (client : option Client) (o : Oracle) (body : PostBody)
    (now : N) (st : Storage) :
  well_formed st ->
  well_formed (out_storage (submitPost sanitizeSvg cfg client o body now st)).
Proof.
  intros Hwf. unfold submitPost.
  destruct (validatePost sanitizeSvg cfg body); [exact Hwf |].
  destruct (allowed (checkPostingPermission client o)); [| exact Hwf].
  destruct (user (checkPostingPermission client o)) as [u|]; [| exact Hwf].
  destruct (readData st) as [[st1 data]|] eqn:Hread; [| exact Hwf].
  destruct (readData_well_formed st st1 data Hwf Hread) as ([Hk _] & Hord & _).
  cbn [out_storage]. unfold writeData, writePost. cbn [indexFile postFiles legacyFile].
  apply well_formed_commit.
  - apply keyed_insert, Hk.
  - apply data_ordered_unshift; [exact Hord | reflexivity].
Qed.

Lemma submitComment_well_formed (client : option Client) (o : Oracle) (postId : N)
    (text : option string) (now : N) (st : Storage) :
  well_formed st ->
  well_formed (out_storage (submitComment client o postId text now st)).
Proof.
  intros Hwf. unfold submitComment.
  destruct (truthy_str text) as [t|]; [| exact Hwf].
  destruct (String.length (Js.trim t) =? 0)%nat; [exact Hwf |].
  destruct (allowed (checkPostingPermission client o)); [| exact Hwf].
  destruct (user (checkPostingPermission client o)) as [u|]; [| exact Hwf].
  destruct (readData st) as [[st1 data]|] eqn:Hread; [| exact Hwf].
  destruct (readData_well_formed st st1 data Hwf Hread) as (Hwf1 & Hord & _).
  destruct (find (has_id postId) (d_posts data)) as [post|]; [| exact Hwf1].
  cbn [out_storage]. unfold writeData, writePost. cbn [indexFile postFiles legacyFile].
  apply well_formed_commit.
  - apply (keyed_insert _ (pushComment _ post)), Hwf1.
  - apply data_ordered_same_ids; [exact Hord |].
    apply update_first_ids. reflexivity.
Qed.

Lemma editPostRequest_well_formed (client : option Client) (postId : N)
    (text : option string) (now : N) (st : Storage) :
  well_formed st ->
  well_formed (out_storage (editPostRequest client postId text now st)).
Proof.
  intros Hwf. unfold editPostRequest.
  destruct (truthy_str text) as [t|]; [| exact Hwf].
  destruct (String.length (Js.trim t) =? 0)%nat; [exact Hwf |].
  destruct client as [c|]; [| exact Hwf].
  destruct (readData st) as [[st1 data]|] eqn:Hread; [| exact Hwf].
  destruct (readData_well_formed st st1 data Hwf Hread) as (Hwf1 & Hord & _).
  destruct (find (has_id postId) (d_posts data)) as [post|]; [| exact Hwf1].
  destruct (bool_decide _); [| exact Hwf1].
  cbn [out_storage]. unfold writeData, writePost. cbn [indexFile postFiles legacyFile].
  apply well_formed_commit.
  - apply (keyed_insert _ (setText _ _ post)), Hwf1.
  - apply data_ordered_same_ids; [exact Hord |].
    apply update_first_ids. reflexivity.
Qed.

Lemma deletePostRequest_well_formed (client : option Client) (o : Oracle) (postId : N)
    (st : Storage) :
  well_formed st ->
  well_formed (out_storage (deletePostRequest client o postId st)).
Proof.
  intros Hwf. unfold deletePostRequest.
  destruct client as [c|]; [| exact Hwf].
  destruct (readData st) as [[st1 data]|] eqn:Hread; [| exact Hwf].
  destruct (readData_well_formed st st1 data Hwf Hread) as (Hwf1 & Hord & _).
  destruct (find (has_id postId) (d_posts data)) as [post|]; [| exact Hwf1].
  destruct (_ || _); [| exact Hwf1].
  cbn [out_storage]. unfold writeData, deletePost. cbn [indexFile postFiles legacyFile].
  apply well_formed_commit.
  - apply keyed_delete, Hwf1.
  - apply data_ordered_sublist; [exact Hord | apply remove_first_sublist].
Qed.

Lemma getPosts_well_formed (client : option Client) (o : Oracle)
    (channel : option string) (st : Storage) :
  well_formed st -> well_formed (fst (getPosts cfg client o channel st)).
Proof.
  intros Hwf. unfold getPosts.
  destruct (readData st) as [[st1 data]|] eqn:Hread; [| exact Hwf].
  destruct (readData_well_formed st st1 data Hwf Hread) as (Hwf1 & _).
  destruct (getAccessibleChannelNames client o (channels cfg)); [| exact Hwf1].
  destruct (truthy_str channel); [| exact Hwf1].
  destruct (decide _); [| exact Hwf1].
  destruct (decide _); exact Hwf1.
Qed.

Lemma ledger_run_well_formed (ops : list LedgerOp) (st : Storage) :
  well_formed st -> well_formed (ledger_run sanitizeSvg cfg ops st).
Proof.
  revert st. induction ops as [|op ops IH]; intros st Hwf; simpl; [exact Hwf |].
  apply IH. destruct op; simpl.
  - apply submitPost_well_formed, Hwf.
  - apply submitComment_well_formed, Hwf.
  - apply deletePostRequest_well_formed, Hwf.
  - apply editPostRequest_well_formed, Hwf.
  - apply getPosts_well_formed, Hwf.
Qed.

(** The list read answers newest first. *)
Lemma getPosts_newest_first (client : option Client) (o : Oracle)
    (channel : option string) (st : Storage) (posts : list Post) :
  well_formed st ->
  snd (getPosts cfg client o channel st) = Json posts ->
  newest_first (map p_id posts).
Proof.
  intros Hwf. unfold getPosts.
  destruct (readData st) as [[st1 data]|] eqn:Hread; [| discriminate].
  destruct (readData_well_formed st st1 data Hwf Hread) as (_ & [Hnf _] & _).
  destruct (getAccessibleChannelNames client o (channels cfg)) as [accessible|];
    [| discriminate].
  assert (Hsorted : forall l, l `sublist_of` d_posts data -> newest_first (map p_id l)).
  { intros l Hl. eapply newest_first_sublist; [apply map_sublist, Hl | exact Hnf]. }
  destruct (truthy_str channel) as [ch|].
  - destruct (decide (ch ∈ accessible)); [| discriminate].
    destruct (decide (ch = "general"%string)); cbn [snd]; intros H; injection H as <-;
      apply Hsorted; (etransitivity; [apply filter_sublist_of | apply filter_sublist_of]).
  - cbn [snd]. intros H. injection H as <-. apply Hsorted, filter_sublist_of.
Qed.

(** An accepted post is prepended: the next read returns it in front of
    the posts that the handler had read, with [nextId] one higher. *)
Lemma submitPost_prepends (rq : PostRequest) (st st1 : Storage) (data : Data)
    (post : Post) :
  well_formed st ->
  readData st = Ok (st1, data) ->
  out_response (submit sanitizeSvg cfg rq st) = Json post ->
  p_id post = d_nextId data
  /\ readData (out_storage (submit sanitizeSvg cfg rq st))
     = Ok (out_storage (submit sanitizeSvg cfg rq st),
           mkData (post :: d_posts data) (d_nextId data + 1)).
Proof.
  intros Hwf Hread. unfold submit, submitPost.
  destruct (validatePost sanitizeSvg cfg (rq_body rq)) as [r|] eqn:Hv.
  { cbn [reject out_response]. intros ->.
    exfalso. eapply validatePost_not_json; [exact Hv | reflexivity]. }
  destruct (allowed (checkPostingPermission (rq_client rq) (rq_oracle rq)));
    [| discriminate].
  destruct (user (checkPostingPermission (rq_client rq) (rq_oracle rq))) as [u|];
    [| discriminate].
  rewrite Hread. cbn [out_response out_storage]. intros H. injection H as <-.
  split; [reflexivity |].
  destruct (readData_well_formed st st1 data Hwf Hread) as (_ & [_ Hbound] & Hfiled & _).
  unfold writeData, writePost. cbn [indexFile postFiles legacyFile].
  apply readData_synced; cbn [unshiftPost d_posts d_nextId]; [| lia].
  intros p Hp. apply elem_of_cons in Hp as [->|Hp].
  - apply lookup_insert_eq.
  - rewrite lookup_insert_ne; [apply Hfiled, Hp |].
    cbn [newPost p_id]. rewrite Forall_forall in Hbound.
    specialize (Hbound (p_id p) (list_elem_of_fmap_2 _ _ _ Hp)). lia.
Qed.

End Preservation.

Lemma empty_storage_well_formed : well_formed empty_storage.
Proof.
  split; [| exact I]. intros k p Hkp.
  unfold empty_storage in Hkp. cbn [postFiles] in Hkp.
  rewrite lookup_empty in Hkp. discriminate.
Qed.

(** C10.  On a well-formed storage, after any sequence of requests, each
    served to completion: an accepted post is assigned the current
    [nextId] and prepended, so that the next read returns it in front of
    the posts read before; the list read answers with ids in strictly
    decreasing order; and the index that [writeData] writes lists the ids
    in the order of the posts it is given. *)
Theorem posts_newest_first (sanitizeSvg : string -> result string) (cfg : BoardConfig)
    (ops : list LedgerOp) (st : Storage) :
  well_formed st ->
  let st' := ledger_run sanitizeSvg cfg ops st in
  (forall rq st1 data post,
     readData st' = Ok (st1, data) ->
     out_response (submit sanitizeSvg cfg rq st') = Json post ->
     p_id post = d_nextId data
     /\ Forall (fun i => (i < p_id post)%N) (map p_id (d_posts data))
     /\ readData (out_storage (submit sanitizeSvg cfg rq st'))
        = Ok (out_storage (submit sanitizeSvg cfg rq st'),
              mkData (post :: d_posts data) (d_nextId data + 1)))
  /\ (forall client o channel posts,
        snd (getPosts cfg client o channel st') = Json posts ->
        newest_first (map p_id posts))
  /\ (forall data s,
        (fun ix => map ie_id (ix_posts ix)) <$> indexFile (writeData data s)
        = Some (map p_id (d_posts data))).
Proof.
  intros Hwf st'.
  pose proof (ledger_run_well_formed sanitizeSvg cfg ops st Hwf) as Hwf'. fold st' in Hwf'.
  split; [| split].
  - intros rq st1 data post Hread Hresp.
    destruct (submitPost_prepends sanitizeSvg cfg rq st' st1 data post Hwf' Hread Hresp)
      as [Hid Hnext].
    destruct (readData_well_formed st' st1 data Hwf' Hread) as (_ & [_ Hbound] & _).
    rewrite Hid. repeat split; assumption.
  - intros client o channel posts. apply getPosts_newest_first, Hwf'.
  - intros data s. cbn [writeData indexFile fmap option_fmap option_map].
    rewrite index_of_ids. reflexivity.
Qed.

Lemma posts_newest_first_witness :
  exists posts,
    snd (getPosts Sample.board (Some Sample.bob) (Sample.oracle 1) None
           (ledger_run Sample.sanitizer Sample.board
              [OpSubmit (Sample.request Sample.alice 2 "first" 1700000000001);
               OpSubmit (Sample.request Sample.bob 2 "second" 1700000000002);
               OpDelete (Some Sample.alice) (Sample.oracle 2) 1;
               OpSubmit (Sample.request Sample.alice 2 "third" 1700000000003)]
              empty_storage))
    = Json posts
    /\ newest_first (map p_id posts).
Proof.
  eexists. split; [vm_compute; reflexivity |].
  refine (proj1 (proj2 (posts_newest_first Sample.sanitizer Sample.board
            [OpSubmit (Sample.request Sample.alice 2 "first" 1700000000001);
             OpSubmit (Sample.request Sample.bob 2 "second" 1700000000002);
             OpDelete (Some Sample.alice) (Sample.oracle 2) 1;
             OpSubmit (Sample.request Sample.alice 2 "third" 1700000000003)]
            empty_storage _))
          (Some Sample.bob) (Sample.oracle 1) None _ _).
  - exact empty_storage_well_formed.
  - vm_compute. reflexivity.
Defined.

(* ================================================================== *)
(** * Ledger: allocation of ids *)
(* ================================================================== *)

Section Ids.

Variable sanitizeSvg : string -> result string.
Variable cfg : BoardConfig.

Lemma submitAll_cons (rq : PostRequest) (rest : list PostRequest) (st : Storage) :
  submitAll sanitizeSvg cfg (rq :: rest) st
  = (fst (submitAll sanitizeSvg cfg rest (out_storage (submit sanitizeSvg cfg rq st))),
     out_response (submit sanitizeSvg cfg rq st)
       :: snd (submitAll sanitizeSvg cfg rest (out_storage (submit sanitizeSvg cfg rq st)))).
Proof.
  simpl. destruct (submitAll sanitizeSvg cfg rest _). reflexivity.
Qed.

Lemma acceptable_accepted (rq : PostRequest) (st st1 : Storage) (data : Data) :
  acceptable sanitizeSvg cfg rq = true ->
  readData st = Ok (st1, data) ->
  exists post, out_response (submit sanitizeSvg cfg rq st) = Json post.
Proof.
  intros Hacc Hread. unfold acceptable in Hacc.
  destruct (validatePost sanitizeSvg cfg (rq_body rq)) eqn:Hv; [discriminate |].
  destruct (submitPost_accepted sanitizeSvg cfg (rq_client rq) (rq_oracle rq)
              (rq_body rq) (rq_now rq) st st1 data Hv Hacc Hread) as (u & _ & Hsub).
  unfold submit. cbv zeta in Hsub. rewrite Hsub. eauto.
Qed.

(** Requests served one after the other take consecutive ids from the
    [nextId] that the first of them reads. *)
Lemma submitAll_ids (rqs : list PostRequest) (st st1 : Storage) (data : Data) :
  well_formed st ->
  readData st = Ok (st1, data) ->
  Forall (fun rq => acceptable sanitizeSvg cfg rq = true) rqs ->
  let res := submitAll sanitizeSvg cfg rqs st in
  accepted_ids (snd res) = ids_from (d_nextId data) (length rqs)
  /\ Forall (fun r => exists post, r = Json post) (snd res)
  /\ exists st1' data',
       readData (fst res) = Ok (st1', data')
       /\ map p_id (d_posts data')
          = rev (ids_from (d_nextId data) (length rqs)) ++ map p_id (d_posts data)
       /\ d_nextId data' = (d_nextId data + N.of_nat (length rqs))%N.
Proof.
  revert st st1 data.
  induction rqs as [|rq rqs IH]; intros st st1 data Hwf Hread Hall.
  - cbn. split; [reflexivity | split; [constructor |]].
    exists st1, data. split; [exact Hread | split; [reflexivity | lia]].
  - apply Forall_cons in Hall as [Hacc Hall].
    destruct (acceptable_accepted rq st st1 data Hacc Hread) as [post Hpost].
    destruct (submitPost_prepends sanitizeSvg cfg rq st st1 data post Hwf Hread Hpost)
      as [Hid Hnext].
    pose proof (submitPost_well_formed sanitizeSvg cfg (rq_client rq) (rq_oracle rq)
                  (rq_body rq) (rq_now rq) st Hwf) as Hwf2.
    fold (submit sanitizeSvg cfg rq st) in Hwf2.
    specialize (IH _ _ _ Hwf2 Hnext Hall). cbv zeta in IH. cbn [d_nextId d_posts] in IH.
    destruct IH as (Hids & Hjson & st1' & data' & Hread' & Hposts & Hnid).
    cbv zeta. rewrite submitAll_cons. cbn [fst snd length ids_from].
    rewrite Hpost. split; [| split].
    + unfold accepted_ids in *. cbn [omap list_omap]. rewrite Hids, Hid. reflexivity.
    + constructor; [eauto | exact Hjson].
    + exists st1', data'. split; [exact Hread' | split].
      * rewrite Hposts. cbn [map rev]. rewrite Hid, <- app_assoc. reflexivity.
      * rewrite Hnid. lia.
Qed.

(** A request in flight alone goes through its three segments to the
    same storage and the same answer as the handler run as a whole. *)
Lemma alone_is_sequential (rq : PostRequest) (st st1 : Storage) (data : Data) :
  acceptable sanitizeSvg cfg rq = true ->
  readData st = Ok (st1, data) ->
  let sys := interleave [0; 0; 0]%nat (start sanitizeSvg cfg [rq] st) in
  fl_storage sys = out_storage (submit sanitizeSvg cfg rq st)
  /\ answered_ids sys = accepted_ids [out_response (submit sanitizeSvg cfg rq st)].
Proof.
  intros Hacc Hread. unfold acceptable in Hacc.
  destruct (validatePost sanitizeSvg cfg (rq_body rq)) eqn:Hv; [discriminate |].
  destruct (submitPost_accepted sanitizeSvg cfg (rq_client rq) (rq_oracle rq)
              (rq_body rq) (rq_now rq) st st1 data Hv Hacc Hread) as (u & Hu & Hsub).
  cbv zeta in Hsub |- *. unfold submit. rewrite Hsub.
  unfold start. cbn [omap list_omap]. unfold admission. rewrite Hv, Hacc, Hu.
  cbn [interleave fold_left segment fl_requests lookup list_lookup fl_storage advance
       list_insert insert].
  rewrite Hread.
  cbn [interleave fold_left segment fl_requests lookup list_lookup fl_storage advance
       list_insert insert answered_ids accepted_ids omap list_omap out_storage
       out_response].
  split; reflexivity.
Qed.

End Ids.

(** [1; ..; n] has no duplicates and no gaps. *)
Lemma ids_upto_exact (n : nat) :
  NoDup (ids_upto n)
  /\ forall i, i ∈ ids_upto n <-> (1 <= i <= N.of_nat n)%N.
Proof.
  unfold ids_upto.
  assert (H : forall k first,
            NoDup (ids_from first k)
            /\ forall i, i ∈ ids_from first k <-> (first <= i < first + N.of_nat k)%N).
  { clear n. induction k as [|k IH]; intros first; simpl.
    - split; [constructor |]. intros i. rewrite elem_of_nil. lia.
    - destruct (IH (first + 1)%N) as [Hnd Hin]. split.
      + constructor; [| exact Hnd]. rewrite Hin. lia.
      + intros i. rewrite elem_of_cons, Hin. lia. }
  destruct (H n 1%N) as [Hnd Hin]. split; [exact Hnd |].
  intros i. rewrite Hin. lia.
Qed.

(** C9, as stated, fails.  Two valid posts of admitted callers are in
    flight on an empty tenant at the same time; both handlers get their
    answer from [readData] before either has written.  Each takes
    [nextId = 1] from its own copy of the data: both posts are answered
    with id 1, the second record overwrites the first under [posts/1.json],
    and no post has id 2.  Nothing in the handler serializes the read of
    the index, the increment and the write of the index. *)
Lemma concurrent_posts_share_an_id :
  let sys :=
    interleave [0; 1; 0; 0; 1; 1]%nat
      (start Sample.sanitizer Sample.board
         [Sample.request Sample.alice 2 "first" 1700000000001;
          Sample.request Sample.bob 2 "second" 1700000000002]
         empty_storage) in
  answered_ids sys = [1; 1]%N
  /\ answered_ids sys <> ids_upto 2
  /\ (p_text <$> postFiles (fl_storage sys) !! 1%N) = Some "second"%string
  /\ postFiles (fl_storage sys) !! 2%N = None.
Proof. vm_compute. repeat split; try reflexivity. discriminate. Qed.

(** C9 (amended).  For a tenant with empty initial state, [N] valid posts
    of admitted callers that are served one after the other, each request
    to completion before the next begins, are all accepted and are
    assigned the ids [1, .., N] in order, without gaps or duplicates;
    afterwards the ledger holds exactly these posts, newest first, and
    [nextId] is [N + 1]. *)
Theorem sequential_ids (sanitizeSvg : string -> result string) (cfg : BoardConfig)
    (rqs : list PostRequest) :
  Forall (fun rq => acceptable sanitizeSvg cfg rq = true) rqs ->
  let res := submitAll sanitizeSvg cfg rqs empty_storage in
  accepted_ids (snd res) = ids_upto (length rqs)
  /\ Forall (fun r => exists post, r = Json post) (snd res)
  /\ NoDup (accepted_ids (snd res))
  /\ (forall i, i ∈ accepted_ids (snd res) <-> (1 <= i <= N.of_nat (length rqs))%N)
  /\ exists st1 data,
       readData (fst res) = Ok (st1, data)
       /\ map p_id (d_posts data) = rev (ids_upto (length rqs))
       /\ d_nextId data = (N.of_nat (length rqs) + 1)%N.
Proof.
  intros Hall res.
  destruct (submitAll_ids sanitizeSvg cfg rqs empty_storage empty_storage (mkData [] 1)
              empty_storage_well_formed eq_refl Hall)
    as (Hids & Hjson & st1 & data & Hread & Hposts & Hnext).
  fold res in Hids, Hjson, Hread. cbn [d_nextId d_posts map] in *.
  fold (ids_upto (length rqs)) in Hids, Hposts.
  destruct (ids_upto_exact (length rqs)) as [Hnd Hin].
  split; [exact Hids | split; [exact Hjson | split; [| split]]].
  - rewrite Hids. exact Hnd.
  - intros i. rewrite Hids. apply Hin.
  - exists st1, data. split; [exact Hread | split].
    + rewrite Hposts, app_nil_r. reflexivity.
    + rewrite Hnext. lia.
Qed.

Lemma sequential_ids_witness :
  accepted_ids
    (snd (submitAll Sample.sanitizer Sample.board
            [Sample.request Sample.alice 2 "first" 1700000000001;
             Sample.request Sample.bob 2 "second" 1700000000002;
             Sample.request Sample.alice 3 "third" 1700000000003]
            empty_storage))
  = [1; 2; 3]%N.
Proof.
  apply (sequential_ids Sample.sanitizer Sample.board
           [Sample.request Sample.alice 2 "first" 1700000000001;
            Sample.request Sample.bob 2 "second" 1700000000002;
            Sample.request Sample.alice 3 "third" 1700000000003]).
  repeat constructor.
Defined.

(* ================================================================== *)
(** * Chain batcher: what every reachable state satisfies *)
(* ================================================================== *)

Lemma hex_of_length (k : nat) (x : Z) (acc : string) :
  String.length (Sha256.hex_of k x acc) = (k + String.length acc)%nat.
Proof.
  revert x acc. induction k as [|k IH]; intros x acc; [reflexivity |].
  change (Sha256.hex_of (S k) x acc)
    with (Sha256.hex_of k (Z.shiftr x 4)
            (String (Sha256.hex_digit (Z.land x 0xF)) acc)).
  rewrite IH. simpl. lia.
Qed.

Lemma hex_of_digits (k : nat) (x : Z) (acc : string) :
  forallb is_hex_char (list_ascii_of_string acc) = true ->
  forallb is_hex_char (list_ascii_of_string (Sha256.hex_of k x acc)) = true.
Proof.
  revert x acc. induction k as [|k IH]; intros x acc Hacc; [exact Hacc |].
  change (Sha256.hex_of (S k) x acc)
    with (Sha256.hex_of k (Z.shiftr x 4)
            (String (Sha256.hex_digit (Z.land x 0xF)) acc)).
  apply IH. simpl. rewrite hex_digit_is_hex. exact Hacc.
Qed.

Lemma hex_of_words_shape (ws : list Z) :
  String.length (Sha256.hex_of_words ws) = (8 * length ws)%nat
  /\ forallb is_hex_char (list_ascii_of_string (Sha256.hex_of_words ws)) = true.
Proof.
  unfold Sha256.hex_of_words.
  induction ws as [|w ws [IHl IHd]]; [split; reflexivity |].
  cbn [fold_right]. split.
  - rewrite hex_of_length, IHl. simpl. lia.
  - apply hex_of_digits, IHd.
Qed.

(** A digest has the [hex256] shape. *)
Lemma sha256_hex256 (s : string) : is_hex256 (Sha256.sha256 s) = true.
Proof.
  unfold is_hex256, Sha256.sha256.
  destruct (hex_of_words_shape (Sha256.digest_words s)) as [Hl Hd].
  rewrite Hl, Hd, digest_words_length. reflexivity.
Qed.

Lemma hashPost_hex256 (p : Post) (prev : string) : is_hex256 (hashPost p prev) = true.
Proof. unfold hashPost. apply sha256_hex256. Qed.

Lemma state_sound_initial (T : nat) :
  (0 < T)%nat -> state_sound T (mkState [] genesisHash).
Proof.
  intros HT. split; [| split].
  - intros i l H. discriminate.
  - vm_compute. reflexivity.
  - exact HT.
Qed.

Lemma state_sound_flushed (T : nat) (h : string) :
  (0 < T)%nat -> state_sound T (mkState [] (Sha256.sha256 h)).
Proof.
  intros HT. split; [| split].
  - intros i l H. discriminate.
  - apply sha256_hex256.
  - exact HT.
Qed.

(** The links of [s] followed by the link [addPostToBatch] builds. *)
Lemma links_sound_snoc (T : nat) (s : DomainState) (post : Post)
    (sig : option string) (r : option IpfsResult) (i : nat) (l : ChainedPost) :
  state_sound T s ->
  (postChain s ++ [attachIpfs (newLink post sig s) r]) !! i = Some l ->
  link_sound i l.
Proof.
  intros (Hlinks & Hlast & _) Hi.
  destruct (attachIpfs_hash (newLink post sig s) r) as (Hh & Hp & Hpost & Hidx).
  apply lookup_app_Some in Hi as [Hi | [Hge Hi]]; [apply Hlinks, Hi |].
  apply list_lookup_singleton_Some in Hi as [Hz <-].
  assert (i = length (postChain s)) as -> by lia.
  unfold link_sound, well_hashed. rewrite Hh, Hp, Hpost, Hidx. simpl.
  repeat split; [apply hashPost_hex256 | exact Hlast].
Qed.

Lemma flushBatch_sound (rf : ReadFile) (cfg : RootConfig) (T : nat) (net : FetchOutcome)
    (now : N) (b : Batcher) :
  batch_sound rf T b -> batch_sound rf T (fst (flushBatch rf cfg net now b)).
Proof.
  intros [Hinv Hs]. split; [apply flushBatch_inv, Hinv |].
  intros s' Hs'. rewrite flushBatch_state in Hs'.
  destruct (current_state rf b) as [s|]; [| discriminate].
  injection Hs' as <-. specialize (Hs s eq_refl).
  destruct (postChain s) eqn:Hc; [exact Hs |].
  destruct (uploadToIPFS cfg net); [| exact Hs].
  apply state_sound_flushed. destruct Hs as (_ & _ & Hlen). lia.
Qed.

(** An upload that returned rules out a throw of the next one: only the
    missing [ipfs] section makes [uploadToIPFS] throw. *)
Lemma uploadToIPFS_throws (cfg : RootConfig) (net net' : FetchOutcome) :
  uploadToIPFS cfg net = Throw -> uploadToIPFS cfg net' = Throw.
Proof.
  unfold uploadToIPFS. destruct (rc_ipfs cfg) as [ipfs|]; [| reflexivity].
  destruct (truthy_str (ipfs_url ipfs)); [| discriminate].
  destruct net as [|[] [|]]; discriminate.
Qed.

Lemma addPostToBatch_sound (rf : ReadFile) (cfg : RootConfig) (T : nat) (env : BatchEnv)
    (post : Post) (sig : option string) (b : Batcher) :
  batch_sound rf T b -> batch_sound rf T (fst (addPostToBatch rf cfg T env post sig b)).
Proof.
  intros [Hinv Hs]. split; [apply addPostToBatch_inv, Hinv |].
  intros s' Hs'.
  destruct (current_state rf b) as [s|] eqn:Hcs.
  - specialize (Hs s eq_refl).
    assert (HT : (0 < T)%nat) by (destruct Hs as (_ & _ & Hlen); lia).
    pose proof (addPostToBatch_state rf cfg T env post sig b s Hcs) as Hadd.
    destruct (uploadToIPFS cfg (env_link env)) as [r|] eqn:Hup.
    + cbv zeta in Hadd. destruct Hadd as [_ Hstate].
      rewrite Hstate in Hs'. injection Hs' as <-.
      set (l := attachIpfs (newLink post sig s) r).
      assert (Hgrown : (length (postChain s) + 1 < T)%nat ->
                       state_sound T (mkState (postChain s ++ [l]) (cp_hash l))).
      { intros Hlt. split; [| split]; cbn [postChain lastHash].
        - intros i x Hi. eapply links_sound_snoc; [exact Hs | exact Hi].
        - destruct (attachIpfs_hash (newLink post sig s) r) as (Hh & _).
          fold l in Hh. rewrite Hh. apply hashPost_hex256.
        - rewrite length_app. exact Hlt. }
      destruct (T <=? length (postChain s) + 1)%nat eqn:Hcmp.
      * destruct (uploadToIPFS cfg (env_batch env)) eqn:Hup'.
        -- apply state_sound_flushed, HT.
        -- apply uploadToIPFS_throws with (net' := env_link env) in Hup'. congruence.
      * apply Hgrown, Nat.leb_gt, Hcmp.
    + destruct Hadd as [_ Hstate]. rewrite Hstate in Hs'. injection Hs' as <-. exact Hs.
  - rewrite addPostToBatch_eq, Hcs in Hs'. cbn [fst] in Hs'. congruence.
Qed.

Lemma restart_sound (rf : ReadFile) (T : nat) (b : Batcher) :
  (0 < T)%nat -> batch_sound rf T b -> batch_sound rf T (restart b).
Proof.
  intros HT [Hinv Hs]. split; [apply restart_inv, Hinv |].
  intros s' Hs'. destruct (restart_state rf b s' Hinv Hs') as [-> | Hcs].
  - apply state_sound_initial, HT.
  - apply Hs, Hcs.
Qed.

Lemma at_start_sound (rf : ReadFile) (T : nat) (b : Batcher) :
  (0 < T)%nat -> at_start b -> batch_sound rf T b.
Proof.
  intros HT Hstart. split; [apply at_start_inv, Hstart |].
  intros s Hs. rewrite (at_start_state rf b s Hstart Hs). apply state_sound_initial, HT.
Qed.

Lemma batch_run_sound (rf : ReadFile) (cfg : RootConfig) (T : nat) (ops : list BatchOp)
    (b : Batcher) :
  (0 < T)%nat -> batch_sound rf T b -> batch_sound rf T (batch_run rf cfg T ops b).
Proof.
  intros HT. revert b. induction ops as [|op ops IH]; intros b Hs; simpl; [exact Hs |].
  apply IH. destruct op; simpl.
  - apply addPostToBatch_sound, Hs.
  - apply flushBatch_sound, Hs.
  - apply restart_sound; [exact HT | exact Hs].
Qed.

Lemma default_batchThreshold_pos (manifest : option nat) :
  (0 < default_batchThreshold manifest)%nat.
Proof. destruct manifest as [[|n]|]; simpl; lia. Qed.

(** Every reachable state is sound, under the threshold [getDomainConfig]
    computes. *)
Lemma reachable_sound (rf : ReadFile) (cfg : RootConfig) (manifest : option nat)
    (ops : list BatchOp) (b0 : Batcher) (s : DomainState) :
  at_start b0 ->
  current_state rf (batch_run rf cfg (default_batchThreshold manifest) ops b0) = Some s ->
  state_sound (default_batchThreshold manifest) s.
Proof.
  intros Hstart Hs.
  destruct (batch_run_sound rf cfg (default_batchThreshold manifest) ops b0
              (default_batchThreshold_pos manifest)
              (at_start_sound rf _ b0 (default_batchThreshold_pos manifest) Hstart))
    as [_ Hsound].
  apply Hsound, Hs.
Qed.

(** Where [readFile] throws for an absent file, a state in memory means
    that the batch file exists: the state was read from it. *)
Lemma loaded_has_file (rf : ReadFile) (cfg : RootConfig) (T : nat) (ops : list BatchOp)
    (b0 : Batcher) :
  onAbsent rf = AbsentThrows -> at_start b0 ->
  loaded (batch_run rf cfg T ops b0) <> None ->
  batchFile (batch_run rf cfg T ops b0) <> None.
Proof.
  intros Ha [Hl _].
  assert (Hfile : loaded b0 <> None -> batchFile b0 <> None) by (rewrite Hl; tauto).
  clear Hl. revert b0 Hfile.
  induction ops as [|op ops IH]; intros b Hfile; simpl; [exact Hfile |].
  apply IH. clear IH.
  assert (Hnone : current_state rf b = None -> loaded b = None).
  { intros Hn. apply current_state_none in Hn. tauto. }
  assert (Hsome : forall s, current_state rf b = Some s -> batchFile b <> None).
  { intros s Hs Hf. destruct (loaded b) eqn:Hl; [apply Hfile; [discriminate | exact Hf] |].
    assert (Hn : current_state rf b = None)
      by (apply current_state_none; repeat split; assumption).
    congruence. }
  destruct op as [env post sig | net now |]; simpl.
  - rewrite addPostToBatch_eq.
    destruct (current_state rf b) as [s|] eqn:Hs; [| exact Hfile].
    destruct (uploadToIPFS cfg (env_link env)); cbn [fst batchFile loaded].
    + cbv zeta. destruct (T <=? _)%nat; [| discriminate].
      rewrite flushBatch_eq, current_state_loaded. cbn [postChain batchFile].
      destruct (postChain s ++ _); [discriminate |].
      destruct (uploadToIPFS cfg (env_batch env)); discriminate.
    + intros _. exact (Hsome s eq_refl).
  - rewrite flushBatch_eq.
    destruct (current_state rf b) as [s|] eqn:Hs; [| exact Hfile].
    destruct (postChain s); [intros _; exact (Hsome s eq_refl) |].
    destruct (uploadToIPFS cfg net); [discriminate | intros _; exact (Hsome s eq_refl)].
  - intros H. contradiction.
Qed.

(** X1.  Whether the chain survives a restart of the process depends on
    what [readFile] hands back for the batch file that [saveBatchState]
    writes.  Take any sequence of appends, forced flushes and restarts,
    each run to completion, from a domain's state before its first use.
    With a [readFile] that returns the parsed object, a restart finds the
    very state the process had in memory: the file is written through.
    With a [readFile] that returns the raw content of the file, a restart
    finds an empty chain under the genesis hash, whatever was saved. *)
Theorem state_survives_restart (rf : ReadFile) (cfg : RootConfig) (T : nat)
    (ops : list BatchOp) (b0 : Batcher) :
  at_start b0 ->
  let b := batch_run rf cfg T ops b0 in
  match onPresent rf with
  | PresentParsed => current_state rf (restart b) = current_state rf b
  | PresentRaw =>
      forall s, current_state rf (restart b) = Some s -> s = mkState [] genesisHash
  end.
Proof.
  intros Hstart b.
  pose proof (batch_run_inv rf cfg T ops b0 (at_start_inv rf b0 Hstart)) as Hinv.
  fold b in Hinv.
  destruct (onPresent rf) eqn:Hp.
  - intros s Hs. rewrite current_state_restart, Hp in Hs.
    destruct (batchFile b); [congruence |].
    destruct (onAbsent rf); congruence.
  - destruct (onAbsent rf) eqn:Ha; [| apply restart_state_parsed; assumption].
    destruct (loaded b) as [s|] eqn:Hl.
    + pose proof (loaded_has_file rf cfg T ops b0 Ha Hstart) as Hfile. fold b in Hfile.
      destruct (proj2 Hinv Hp) as [Hne Hmirror].
      specialize (Hmirror s Hl). unfold mirrored in Hmirror.
      rewrite current_state_restart, Hp, (current_state_of_loaded rf b s Hl).
      destruct (batchFile b) as [bd|] eqn:Hf.
      * rewrite (truthy_hash _ (Hne bd eq_refl)).
        destruct Hmirror as [-> ->]. destruct s; reflexivity.
      * exfalso. apply Hfile; [rewrite Hl; discriminate | reflexivity].
    + symmetry. apply current_state_unloaded, Hl.
Qed.

Lemma state_survives_restart_witness :
  current_state Sample.read_parsed (restart (batch_run Sample.read_parsed Sample.root_config 5
                                      Scenario.two_appends fresh_batcher))
  = current_state Sample.read_parsed (batch_run Sample.read_parsed Sample.root_config 5
                                        Scenario.two_appends fresh_batcher)
  /\ (exists s,
        current_state Sample.read_raw (batch_run Sample.read_raw Sample.root_config 5
                                         Scenario.two_appends Sample.started) = Some s
        /\ length (postChain s) = 2%nat)
  /\ current_state Sample.read_raw (restart (batch_run Sample.read_raw Sample.root_config 5
                                      Scenario.two_appends Sample.started))
     = Some (mkState [] genesisHash).
Proof.
  split; [| split].
  - apply (state_survives_restart Sample.read_parsed Sample.root_config 5
             Scenario.two_appends fresh_batcher).
    split; [reflexivity | exact I].
  - eexists. split; vm_compute; reflexivity.
  - assert (Hs : exists s, current_state Sample.read_raw
                             (restart (batch_run Sample.read_raw Sample.root_config 5
                                         Scenario.two_appends Sample.started)) = Some s).
    { eexists. vm_compute. reflexivity. }
    destruct Hs as [s Hs]. rewrite Hs. f_equal.
    apply (state_survives_restart Sample.read_raw Sample.root_config 5
             Scenario.two_appends Sample.started).
    + split; [reflexivity | split; reflexivity].
    + exact Hs.
Defined.

(** X2.  In every state a domain's batcher reaches from its state before
    its first use by appends, forced flushes and restarts, each run to
    completion, under the threshold [getDomainConfig] computes, the link at
    position [i] of the chain carries [chainIndex = i] and its [hash] is
    [hashPost] of its own post and its own [previousHash]. *)
Theorem chain_links_indexed_and_hashed (rf : ReadFile) (cfg : RootConfig)
    (manifest : option nat) (ops : list BatchOp) (b0 : Batcher) (s : DomainState)
    (i : nat) (l : ChainedPost) :
  at_start b0 ->
  current_state rf (batch_run rf cfg (default_batchThreshold manifest) ops b0) = Some s ->
  postChain s !! i = Some l ->
  cp_chainIndex l = i /\ cp_hash l = hashPost (cp_post l) (cp_previousHash l).
Proof.
  intros Hstart Hs Hi.
  destruct (reachable_sound rf cfg manifest ops b0 s Hstart Hs) as (Hlinks & _).
  destruct (Hlinks i l Hi) as (Hidx & Hh & _). split; assumption.
Qed.

(** X3.  Between two calls, each run to completion, the chain of a domain
    is always shorter than the batch threshold: an append that reaches the
    threshold flushes before it returns, whatever the content store
    answers. *)
Theorem chain_below_threshold (rf : ReadFile) (cfg : RootConfig) (manifest : option nat)
    (ops : list BatchOp) (b0 : Batcher) (s : DomainState) :
  at_start b0 ->
  current_state rf (batch_run rf cfg (default_batchThreshold manifest) ops b0) = Some s ->
  (length (postChain s) < default_batchThreshold manifest)%nat.
Proof.
  intros Hstart Hs.
  destruct (reachable_sound rf cfg manifest ops b0 s Hstart Hs) as (_ & _ & Hlen).
  exact Hlen.
Qed.

(** X4.  Every hash the batcher holds between two calls has the [hex256]
    shape, 64 lower-case hexadecimal digits: the [lastHash] of the state
    and the [hash] and [previousHash] of every link of the chain. *)
Theorem hashes_are_hex256 (rf : ReadFile) (cfg : RootConfig) (manifest : option nat)
    (ops : list BatchOp) (b0 : Batcher) (s : DomainState) :
  at_start b0 ->
  current_state rf (batch_run rf cfg (default_batchThreshold manifest) ops b0) = Some s ->
  is_hex256 (lastHash s) = true
  /\ Forall (fun l => is_hex256 (cp_hash l) = true
                      /\ is_hex256 (cp_previousHash l) = true) (postChain s).
Proof.
  intros Hstart Hs.
  destruct (reachable_sound rf cfg manifest ops b0 s Hstart Hs) as (Hlinks & Hlast & _).
  split; [exact Hlast |].
  apply Forall_lookup. intros i l Hi.
  destruct (Hlinks i l Hi) as (_ & _ & Hh & Hp). split; assumption.
Qed.

Lemma chain_links_indexed_and_hashed_witness :
  exists s l,
    current_state Sample.read_parsed
      (batch_run Sample.read_parsed Sample.root_config (default_batchThreshold None)
         Scenario.appends_across_restart fresh_batcher) = Some s
    /\ postChain s !! 1%nat = Some l
    /\ cp_chainIndex l = 1%nat
    /\ cp_hash l = hashPost (cp_post l) (cp_previousHash l).
Proof.
  assert (Hs : exists s l,
             current_state Sample.read_parsed
               (batch_run Sample.read_parsed Sample.root_config (default_batchThreshold None)
                  Scenario.appends_across_restart fresh_batcher) = Some s
             /\ postChain s !! 1%nat = Some l).
  { eexists _, _. split; [vm_compute; reflexivity | reflexivity]. }
  destruct Hs as (s & l & Hs & Hl). exists s, l.
  split; [exact Hs | split; [exact Hl |]].
  apply (chain_links_indexed_and_hashed Sample.read_parsed Sample.root_config None
           Scenario.appends_across_restart fresh_batcher s 1%nat l).
  - split; [reflexivity | exact I].
  - exact Hs.
  - exact Hl.
Defined.

Lemma chain_below_threshold_witness :
  exists s,
    current_state Sample.read_raw
      (batch_run Sample.read_raw Sample.root_config (default_batchThreshold None)
         Scenario.five_appends_store_down Sample.started) = Some s
    /\ (length (postChain s) < 5)%nat.
Proof.
  assert (Hs : exists s,
             current_state Sample.read_raw
               (batch_run Sample.read_raw Sample.root_config (default_batchThreshold None)
                  Scenario.five_appends_store_down Sample.started) = Some s).
  { eexists. vm_compute. reflexivity. }
  destruct Hs as [s Hs]. exists s. split; [exact Hs |].
  apply (chain_below_threshold Sample.read_raw Sample.root_config None
           Scenario.five_appends_store_down Sample.started s).
  - split; [reflexivity | split; reflexivity].
  - exact Hs.
Defined.

Lemma hashes_are_hex256_witness :
  exists s,
    current_state Sample.read_raw
      (batch_run Sample.read_raw Sample.root_config (default_batchThreshold None)
         Scenario.two_appends Sample.started) = Some s
    /\ is_hex256 (lastHash s) = true
    /\ Forall (fun l => is_hex256 (cp_hash l) = true
                        /\ is_hex256 (cp_previousHash l) = true) (postChain s).
Proof.
  assert (Hs : exists s,
             current_state Sample.read_raw
               (batch_run Sample.read_raw Sample.root_config (default_batchThreshold None)
                  Scenario.two_appends Sample.started) = Some s).
  { eexists. vm_compute. reflexivity. }
  destruct Hs as [s Hs]. exists s. split; [exact Hs |].
  apply (hashes_are_hex256 Sample.read_raw Sample.root_config None
           Scenario.two_appends Sample.started s).
  - split; [reflexivity | split; reflexivity].
  - exact Hs.
Defined.

(* ================================================================== *)
(** * Ledger: migration, identifiers, and the handlers' effects *)
(* ================================================================== *)

Lemma latest_NoDup (posts : list Post) (p : Post) :
  NoDup (map p_id posts) -> p ∈ posts -> latest (p_id p) posts = Some p.
Proof.
  induction posts as [|q posts IH]; simpl; intros Hnd Hin.
  - apply elem_of_nil in Hin. contradiction.
  - apply NoDup_cons in Hnd as [Hq Hnd].
    apply elem_of_cons in Hin as [->|Hin].
    + destruct (latest (p_id q) posts) as [q'|] eqn:Hl.
      * apply latest_id in Hl as [Hid Hq'].
        exfalso. apply Hq. rewrite <- Hid. apply list_elem_of_fmap_2, Hq'.
      * destruct (decide (p_id q = p_id q)); [reflexivity | contradiction].
    + rewrite (IH Hnd Hin). reflexivity.
Qed.

(** Reading an index whose posts are all on file. *)
Lemma readData_indexed (data : Data) (m : gmap N Post) (legacy : LegacyFile) :
  filed m (d_posts data) ->
  readData (mkStorage (Some (index_of data)) m legacy)
  = Ok (mkStorage (Some (index_of data)) m legacy,
        mkData (d_posts data) (effective_nextId (d_nextId data) (d_posts data))).
Proof.
  intros Hfiled. unfold readData. cbn [indexFile postFiles index_of ix_posts ix_nextId].
  assert (Hposts : omap (fun meta => m !! ie_id meta) (map meta_of (d_posts data))
                   = d_posts data).
  { revert Hfiled. generalize (d_posts data). intros l. induction l as [|p l IH]; intros Hf.
    - reflexivity.
    - simpl. rewrite (Hf p (list_elem_of_here _ _)). simpl. f_equal.
      apply IH. intros q Hq. apply Hf, list_elem_of_further, Hq. }
  rewrite Hposts. reflexivity.
Qed.

(** X5.  Migration keeps the posts: on a storage without an index whose
    legacy monolith holds posts with pairwise distinct ids, [readData]
    returns the monolith's data, and the next [readData], now served from
    the index and the per-post records, returns the same posts in the same
    order, with the same [nextId] (or one more than the largest id where
    the monolith carried none). *)
Theorem migration_keeps_posts (st : Storage) (d : Data) :
  indexFile st = None ->
  legacyFile st = LegacyData d ->
  NoDup (map p_id (d_posts d)) ->
  readData st = Ok (after_migration st, d)
  /\ readData (after_migration st)
     = Ok (after_migration st,
           mkData (d_posts d) (effective_nextId (d_nextId d) (d_posts d))).
Proof.
  intros Hix Hl Hnd. unfold after_migration, readData at 1. rewrite Hix.
  rewrite (migrateLegacyData_shape st d Hl). split; [reflexivity |].
  apply readData_indexed. intros p Hp.
  rewrite writePosts_lookup, (latest_NoDup _ _ Hnd Hp). reflexivity.
Qed.

Lemma migration_keeps_posts_witness :
  readData Scenario.legacy_storage
  = Ok (after_migration Scenario.legacy_storage, Scenario.legacy_data)
  /\ readData (after_migration Scenario.legacy_storage)
     = Ok (after_migration Scenario.legacy_storage,
           mkData [Sample.post 2; Sample.post 1] 3).
Proof.
  apply (migration_keeps_posts Scenario.legacy_storage Scenario.legacy_data).
  - reflexivity.
  - reflexivity.
  - cbn [Scenario.legacy_data d_posts map Sample.post p_id].
    repeat constructor; intros H; repeat (apply elem_of_cons in H as [H|H]; [discriminate |]);
    apply elem_of_nil in H; exact H.
Defined.

(* ------------------------------------------------------------------ *)
(** ** Identifiers are never handed out twice *)

Lemma next_id_written (data : Data) (st : Storage) :
  exists n, next_id (writeData data st) = Some n /\ (d_nextId data <= n)%N.
Proof.
  unfold next_id, readData, writeData. cbn [indexFile index_of ix_nextId ix_posts].
  eexists. split; [reflexivity |]. cbn [d_nextId].
  destruct (N.eqb_spec (d_nextId data) 0) as [->|_]; lia.
Qed.

Lemma next_id_read (st st1 : Storage) (data : Data) :
  readData st = Ok (st1, data) ->
  exists n, next_id st1 = Some n /\ (d_nextId data <= n)%N.
Proof.
  intros Hread. unfold readData in Hread.
  destruct (indexFile st) as [ix|] eqn:Hix.
  - injection Hread as <- <-. unfold next_id, readData. rewrite Hix.
    eexists. split; [reflexivity |]. cbn [d_nextId]. lia.
  - unfold migrateLegacyData in Hread.
    destruct (legacyFile st) as [| |d] eqn:Hl; [| discriminate |].
    + injection Hread as <- <-. unfold next_id, readData, migrateLegacyData.
      rewrite Hix, Hl. eexists. split; [reflexivity |]. cbn [d_nextId]. lia.
    + injection Hread as <- <-. apply next_id_written.
Qed.

Lemma next_id_le_trans (st : Storage) (n k : N) :
  (n <= k)%N ->
  (exists n', next_id st = Some n' /\ (k <= n')%N) ->
  exists n', next_id st = Some n' /\ (n <= n')%N.
Proof. intros Hnk (n' & Hn' & Hk). exists n'. split; [exact Hn' | lia]. Qed.

Section Identifiers.

Variable sanitizeSvg : string -> result string.
Variable cfg : BoardConfig.

(** No request lowers the [nextId] of the storage, nor makes it
    unreadable. *)
Lemma ledger_step_next_id (st : Storage) (op : LedgerOp) (n : N) :
  next_id st = Some n ->
  exists n', next_id (ledger_step sanitizeSvg cfg st op) = Some n' /\ (n <= n')%N.
Proof.
  intros Hn.
  assert (Hsame : exists n', next_id st = Some n' /\ (n <= n')%N)
    by (exists n; split; [exact Hn | lia]).
  unfold next_id in Hn.
  destruct (readData st) as [[st1 data]|] eqn:Hread; [| discriminate].
  injection Hn as <-.
  pose proof (next_id_read st st1 data Hread) as Hst1.
  destruct op as [rq|client o postId text now|client o postId|client postId text now
                  |client o channel]; cbn [ledger_step].
  - unfold submit, submitPost.
    destruct (validatePost sanitizeSvg cfg (rq_body rq)); [exact Hsame |].
    destruct (allowed (checkPostingPermission (rq_client rq) (rq_oracle rq)));
      [| exact Hsame].
    destruct (user (checkPostingPermission (rq_client rq) (rq_oracle rq))) as [u|];
      [| exact Hsame].
    rewrite Hread. cbn [out_storage].
    eapply next_id_le_trans; [| apply next_id_written].
    unfold unshiftPost. cbn [d_nextId]. lia.
  - unfold submitComment.
    destruct (truthy_str text) as [t|]; [| exact Hsame].
    destruct (String.length (Js.trim t) =? 0)%nat; [exact Hsame |].
    destruct (allowed (checkPostingPermission client o)); [| exact Hsame].
    destruct (user (checkPostingPermission client o)) as [u|]; [| exact Hsame].
    rewrite Hread.
    destruct (find (has_id postId) (d_posts data)) as [post|]; [| exact Hst1].
    cbn [out_storage]. eapply next_id_le_trans; [| apply next_id_written].
    cbn [d_nextId]. lia.
  - unfold deletePostRequest.
    destruct client as [c|]; [| exact Hsame].
    rewrite Hread.
    destruct (find (has_id postId) (d_posts data)) as [post|]; [| exact Hst1].
    destruct (_ || _); [| exact Hst1].
    cbn [out_storage]. eapply next_id_le_trans; [| apply next_id_written].
    cbn [d_nextId]. lia.
  - unfold editPostRequest.
    destruct (truthy_str text) as [t|]; [| exact Hsame].
    destruct (String.length (Js.trim t) =? 0)%nat; [exact Hsame |].
    destruct client as [c|]; [| exact Hsame].
    rewrite Hread.
    destruct (find (has_id postId) (d_posts data)) as [post|]; [| exact Hst1].
    destruct (bool_decide _); [| exact Hst1].
    cbn [out_storage]. eapply next_id_le_trans; [| apply next_id_written].
    cbn [d_nextId]. lia.
  - unfold getPosts. rewrite Hread.
    destruct (getAccessibleChannelNames client o (channels cfg)); [| exact Hst1].
    destruct (truthy_str channel); [| exact Hst1].
    destruct (decide _); [| exact Hst1].
    destruct (decide _); exact Hst1.
Qed.

Lemma ledger_run_next_id (ops : list LedgerOp) (st : Storage) (n : N) :
  next_id st = Some n ->
  exists n', next_id (ledger_run sanitizeSvg cfg ops st) = Some n' /\ (n <= n')%N.
Proof.
  revert st n. induction ops as [|op ops IH]; intros st n Hn; simpl.
  - exists n. split; [exact Hn | lia].
  - destruct (ledger_step_next_id st op n Hn) as (k & Hk & Hnk).
    eapply next_id_le_trans; [exact Hnk | apply IH, Hk].
Qed.

End Identifiers.

(** X6.  An id is never handed out twice.  Take any id that the posts of a
    well-formed storage carry; after any further sequence of requests
    (posts, comments, edits, deletions and reads, each served to
    completion), a post that is accepted gets a strictly larger id, also
    when the post that carried the id has been deleted in between. *)
Theorem ids_never_reused (sanitizeSvg : string -> result string) (cfg : BoardConfig)
    (st st1 : Storage) (data : Data) (i : N) (ops : list LedgerOp)
    (rq : PostRequest) (post : Post) :
  well_formed st ->
  readData st = Ok (st1, data) ->
  i ∈ map p_id (d_posts data) ->
  out_response (submit sanitizeSvg cfg rq (ledger_run sanitizeSvg cfg ops st))
  = Json post ->
  (i < p_id post)%N.
Proof.
  intros Hwf Hread Hi Hpost.
  destruct (readData_well_formed st st1 data Hwf Hread) as (_ & [_ Hbound] & _).
  rewrite Forall_forall in Hbound. specialize (Hbound i Hi).
  assert (Hn : next_id st = Some (d_nextId data)) by (unfold next_id; rewrite Hread; reflexivity).
  destruct (ledger_run_next_id sanitizeSvg cfg ops st _ Hn) as (n' & Hn' & Hle).
  set (st' := ledger_run sanitizeSvg cfg ops st) in *.
  unfold next_id in Hn'.
  destruct (readData st') as [[st1' data']|] eqn:Hread'; [| discriminate].
  injection Hn' as <-.
  assert (Hwf' : well_formed st') by (apply ledger_run_well_formed, Hwf).
  destruct (submitPost_prepends sanitizeSvg cfg rq st' st1' data' post Hwf' Hread' Hpost)
    as [Hid _].
  lia.
Qed.

Lemma two_posts_well_formed : well_formed Scenario.two_posts.
Proof. apply ledger_run_well_formed, empty_storage_well_formed. Qed.

Lemma ids_never_reused_witness :
  exists post,
    out_response
      (submit Sample.sanitizer Sample.board
         (Sample.request Sample.alice 2 "third" 1700000000003)
         (ledger_run Sample.sanitizer Sample.board
            [OpDelete (Some Sample.bob) (Sample.oracle 2) 2] Scenario.two_posts))
    = Json post
    /\ (2 < p_id post)%N.
Proof.
  eexists. split; [vm_compute; reflexivity |].
  eapply (ids_never_reused Sample.sanitizer Sample.board Scenario.two_posts _ _ 2%N
            [OpDelete (Some Sample.bob) (Sample.oracle 2) 2]
            (Sample.request Sample.alice 2 "third" 1700000000003)).
  - exact two_posts_well_formed.
  - vm_compute. reflexivity.
  - vm_compute. apply list_elem_of_here.
  - vm_compute. reflexivity.
Defined.

(* ------------------------------------------------------------------ *)
(** ** Deleting and editing a post *)

Lemma find_member (posts : list Post) (p : Post) :
  newest_first (map p_id posts) -> p ∈ posts -> find (has_id (p_id p)) posts = Some p.
Proof.
  induction posts as [|q posts IH]; simpl; intros Hnf Hin.
  - apply elem_of_nil in Hin. contradiction.
  - destruct Hnf as [Hall Hnf]. unfold has_id at 1.
    apply elem_of_cons in Hin as [->|Hin].
    + rewrite N.eqb_refl. reflexivity.
    + destruct (N.eqb_spec (p_id q) (p_id p)) as [Heq|_]; [| apply IH; assumption].
      exfalso. apply (newest_first_NoDup_head _ _ Hall).
      rewrite Heq. apply list_elem_of_fmap_2, Hin.
Qed.

Lemma filter_all {A} (P : A -> Prop) `{!forall x, Decision (P x)} (l : list A) :
  (forall x, x ∈ l -> P x) -> filter P l = l.
Proof.
  induction l as [|x l IH]; intros Hall; [reflexivity |].
  rewrite filter_cons_True by apply Hall, list_elem_of_here.
  f_equal. apply IH. intros y Hy. apply Hall, list_elem_of_further, Hy.
Qed.

Lemma remove_first_filter (k : N) (posts : list Post) :
  newest_first (map p_id posts) ->
  remove_first (has_id k) posts = filter (fun p => p_id p <> k) posts.
Proof.
  induction posts as [|q posts IH]; simpl; intros Hnf; [reflexivity |].
  destruct Hnf as [Hall Hnf]. rewrite filter_cons. unfold has_id at 1.
  destruct (N.eqb_spec (p_id q) k) as [Heq|Hne].
  - destruct (decide (p_id q <> k)) as [Hne|_]; [contradiction |].
    symmetry. apply filter_all. intros p Hp.
    intros Hpk. apply (newest_first_NoDup_head _ _ Hall).
    rewrite Heq, <- Hpk. apply list_elem_of_fmap_2, Hp.
  - destruct (decide (p_id q <> k)) as [_|Hn]; [| contradiction].
    rewrite IH by exact Hnf. reflexivity.
Qed.

Lemma update_first_map (k : N) (g : Post -> Post) (posts : list Post) :
  newest_first (map p_id posts) ->
  update_first (has_id k) g posts = map (fun p => if has_id k p then g p else p) posts.
Proof.
  induction posts as [|q posts IH]; simpl; intros Hnf; [reflexivity |].
  destruct Hnf as [Hall Hnf]. unfold has_id at 1 3.
  destruct (N.eqb_spec (p_id q) k) as [Heq|Hne].
  - f_equal. symmetry. etransitivity; [| apply map_id].
    apply map_ext_in. intros p Hp. unfold has_id.
    destruct (N.eqb_spec (p_id p) k) as [Hpk|_]; [| reflexivity].
    exfalso. apply (newest_first_NoDup_head _ _ Hall).
    rewrite Heq, <- Hpk. apply list_elem_of_fmap_2, list_elem_of_In, Hp.
  - rewrite IH by exact Hnf. reflexivity.
Qed.

(** Reading again what [readData] has just returned. *)
Lemma readData_again (st st1 : Storage) (data : Data) :
  well_formed st -> readData st = Ok (st1, data) -> d_nextId data <> 0%N ->
  readData st1 = Ok (st1, data).
Proof.
  intros Hwf Hread Hne.
  destruct (readData_well_formed st st1 data Hwf Hread) as (_ & _ & Hfiled & _).
  unfold readData in Hread. destruct (indexFile st) as [ix|] eqn:Hix.
  - injection Hread as <- <-. unfold readData. rewrite Hix. reflexivity.
  - unfold migrateLegacyData in Hread.
    destruct (legacyFile st) as [| |d] eqn:Hl; [| discriminate |].
    + injection Hread as <- <-. unfold readData, migrateLegacyData.
      rewrite Hix, Hl. reflexivity.
    + injection Hread as <- <-. rewrite writePosts_shape in *. unfold writeData in *.
      cbn [indexFile postFiles legacyFile] in *.
      apply readData_synced; assumption.
Qed.

Lemma nextId_above (data : Data) (p : Post) :
  data_ordered data -> p ∈ d_posts data -> d_nextId data <> 0%N.
Proof.
  intros [_ Hbound] Hp. rewrite Forall_forall in Hbound.
  specialize (Hbound (p_id p) (list_elem_of_fmap_2 _ _ _ Hp)). lia.
Qed.

(** The posts after a handler changed the post of one id, and what is on
    file for them. *)
Lemma update_first_by_id (g : Post -> Post) (posts : list Post) (post : Post) :
  newest_first (map p_id posts) -> post ∈ posts ->
  update_first (has_id (p_id post)) g posts
  = map (fun p => if (p_id p =? p_id post)%N then g post else p) posts.
Proof.
  intros Hnf Hin. rewrite (update_first_map _ _ _ Hnf).
  apply map_ext_in. intros p Hp. unfold has_id.
  destruct (N.eqb_spec (p_id p) (p_id post)) as [Heq|_]; [| reflexivity].
  apply list_elem_of_In in Hp.
  pose proof (latest_unique _ _ Hnf Hp) as Hl.
  rewrite Heq, (latest_unique _ _ Hnf Hin) in Hl.
  injection Hl as ->. reflexivity.
Qed.

Lemma filed_after_update (m : gmap N Post) (posts : list Post) (post post' : Post) :
  filed m posts -> p_id post' = p_id post ->
  filed (<[p_id post' := post']> m)
        (map (fun p => if (p_id p =? p_id post)%N then post' else p) posts).
Proof.
  intros Hfiled Hid p Hp.
  apply list_elem_of_fmap in Hp as (q & -> & Hq).
  destruct (N.eqb_spec (p_id q) (p_id post)) as [Heq|Hneq].
  - apply lookup_insert_eq.
  - rewrite lookup_insert_ne by (rewrite Hid; intros Heq; apply Hneq; symmetry; exact Heq).
    apply Hfiled, Hq.
Qed.

Lemma filed_after_delete (m : gmap N Post) (posts : list Post) (k : N) :
  filed m posts -> filed (delete k m) (filter (fun p => p_id p <> k) posts).
Proof.
  intros Hfiled p Hp. apply list_elem_of_filter in Hp as [Hpk Hp].
  rewrite lookup_delete_ne by (intros Heq; apply Hpk; symmetry; exact Heq).
  apply Hfiled, Hp.
Qed.

Lemma find_has_id (k : N) (posts : list Post) (post : Post) :
  find (has_id k) posts = Some post -> post ∈ posts /\ p_id post = k.
Proof.
  intros H. apply find_some in H as [Hin Hid].
  split; [apply list_elem_of_In, Hin | apply N.eqb_eq, Hid].
Qed.

(** X7.  Deleting a post.  For a post that [readData] returns on a
    well-formed storage and an authenticated caller: if the caller's
    address equals the author's up to letter case, or the oracle resolves
    the caller to level 3 or more, the answer is a success, the record of
    the post is gone, and the next read returns the other posts, in their
    order, under an unchanged [nextId]; otherwise (also when the oracle
    cannot be reached) the answer is 403, nothing is broadcast and the
    next read returns the data unchanged.  Posting permission plays no
    part. *)
Theorem delete_post_effect (c : Client) (o : Oracle) (st st1 : Storage) (data : Data)
    (post : Post) :
  well_formed st ->
  readData st = Ok (st1, data) ->
  post ∈ d_posts data ->
  let out := deletePostRequest (Some c) o (p_id post) st in
  let isAuthor :=
    bool_decide (Js.toLowerCase (p_author post) = Js.toLowerCase (address c)) in
  let isAdmin :=
    match oracle_access o with
    | AccessLevel l => (3 <=? l)%N
    | AccessThrows => false
    end in
  if isAuthor || isAdmin
  then out_response out = Json tt
       /\ out_broadcast out = Some (DeletePost (p_id post))
       /\ postFiles (out_storage out) !! p_id post = None
       /\ readData (out_storage out)
          = Ok (out_storage out,
                mkData (filter (fun p => p_id p <> p_id post) (d_posts data))
                       (d_nextId data))
  else out_response out
       = Error 403 "You can only delete your own posts unless you are an admin"
       /\ out_broadcast out = None
       /\ readData (out_storage out) = Ok (out_storage out, data).
Proof.
  intros Hwf Hread Hin. cbv zeta.
  destruct (readData_well_formed st st1 data Hwf Hread) as (Hwf1 & Hord & Hfiled & _).
  pose proof (nextId_above data post Hord Hin) as Hne.
  unfold deletePostRequest. rewrite Hread, (find_member _ _ (proj1 Hord) Hin).
  assert (Hadmin : allowed (checkAdminPermission (Some c) o)
                   = match oracle_access o with
                     | AccessLevel l => (3 <=? l)%N
                     | AccessThrows => false
                     end).
  { unfold checkAdminPermission. destruct (oracle_access o) as [|l]; [reflexivity |].
    destruct (3 <=? l)%N; reflexivity. }
  rewrite Hadmin.
  destruct (_ || _).
  - cbn [out_response out_broadcast out_storage].
    split; [reflexivity |]. split; [reflexivity |].
    unfold writeData, deletePost. cbn [indexFile postFiles legacyFile].
    split; [apply lookup_delete_eq |].
    rewrite (remove_first_filter _ _ (proj1 Hord)).
    apply (readData_synced
             (mkData (filter (fun p => p_id p <> p_id post) (d_posts data)) (d_nextId data)));
      [| exact Hne].
    apply filed_after_delete, Hfiled.
  - cbn [reject out_response out_broadcast out_storage].
    split; [reflexivity |]. split; [reflexivity |].
    apply (readData_again st); assumption.
Qed.

Lemma two_posts_read :
  readData Scenario.two_posts = Ok (Scenario.two_posts, Scenario.two_posts_data).
Proof. vm_compute. reflexivity. Qed.

Lemma delete_post_effect_witness :
  let out := deletePostRequest (Some Sample.alice) Sample.oracle_down 1 Scenario.two_posts in
  out_response out = Json tt
  /\ out_broadcast out = Some (DeletePost 1)
  /\ postFiles (out_storage out) !! 1%N = None
  /\ readData (out_storage out) = Ok (out_storage out, mkData [Scenario.bobs_post] 3).
Proof.
  cbv zeta.
  pose proof (delete_post_effect Sample.alice Sample.oracle_down Scenario.two_posts
                Scenario.two_posts Scenario.two_posts_data Scenario.alices_post
                two_posts_well_formed two_posts_read
                (list_elem_of_further _ _ _ (list_elem_of_here _ _))) as H.
  cbv zeta in H.
  assert (Hauthor : bool_decide (Js.toLowerCase (p_author Scenario.alices_post)
                                 = Js.toLowerCase (address Sample.alice)) = true)
    by (vm_compute; reflexivity).
  rewrite Hauthor in H. cbn [orb] in H. exact H.
Defined.

Lemma nonblank_length (s : string) :
  s <> ""%string -> (String.length s =? 0)%nat = false.
Proof. destruct s; [contradiction | reflexivity]. Qed.

Lemma truthy_str_Some (s : string) : s <> ""%string -> truthy_str (Some s) = Some s.
Proof. intros Hne. simpl. destruct (decide (s = ""%string)); [contradiction | reflexivity]. Qed.

(** X8.  Editing a post.  For a post that [readData] returns on a
    well-formed storage, a text that is not blank and an authenticated
    caller: if the caller's address equals the author's up to letter case,
    the answer is the post with the trimmed text and [editedAt] set to the
    clock, the next read returns the same posts in the same order with
    this one post replaced, and nothing is handed to the chain batcher;
    any other caller gets 403 and the next read returns the data
    unchanged.  The oracle is not consulted: no level, not even admin,
    allows editing somebody else's post, and an author keeps the right
    whatever the oracle says. *)
Theorem edit_post_effect (c : Client) (text : string) (now : N) (st st1 : Storage)
    (data : Data) (post : Post) :
  well_formed st ->
  readData st = Ok (st1, data) ->
  post ∈ d_posts data ->
  text <> ""%string ->
  Js.trim text <> ""%string ->
  let out := editPostRequest (Some c) (p_id post) (Some text) now st in
  let edited :=
    mkPost (p_id post) (Js.trim text) (p_image post) (p_author post)
           (p_authorName post) (p_timestamp post) (p_comments post) (p_channel post)
           (Some now) in
  if bool_decide (Js.toLowerCase (p_author post) = Js.toLowerCase (address c))
  then out_response out = Json edited
       /\ out_broadcast out = Some (EditPost edited)
       /\ out_batch out = None
       /\ readData (out_storage out)
          = Ok (out_storage out,
                mkData (map (fun p => if (p_id p =? p_id post)%N then edited else p)
                            (d_posts data))
                       (d_nextId data))
  else out_response out = Error 403 "Only the author can edit this post"
       /\ out_broadcast out = None
       /\ readData (out_storage out) = Ok (out_storage out, data).
Proof.
  intros Hwf Hread Hin Htext Htrim. cbv zeta.
  destruct (readData_well_formed st st1 data Hwf Hread) as (Hwf1 & Hord & Hfiled & _).
  pose proof (nextId_above data post Hord Hin) as Hne.
  unfold editPostRequest.
  rewrite (truthy_str_Some _ Htext), (nonblank_length _ Htrim), Hread,
          (find_member _ _ (proj1 Hord) Hin).
  destruct (bool_decide _).
  - cbn [out_response out_broadcast out_batch out_storage].
    split; [reflexivity |]. split; [reflexivity |]. split; [reflexivity |].
    unfold writeData, writePost. cbn [indexFile postFiles legacyFile].
    rewrite (update_first_by_id _ _ _ (proj1 Hord) Hin).
    apply (readData_synced
             (mkData (map (fun p => if (p_id p =? p_id post)%N
                                    then setText (Js.trim text) now post else p)
                          (d_posts data)) (d_nextId data)));
      [| exact Hne].
    apply filed_after_update; [exact Hfiled | reflexivity].
  - cbn [reject out_response out_broadcast out_storage].
    split; [reflexivity |]. split; [reflexivity |].
    apply (readData_again st); assumption.
Qed.

Lemma edit_post_effect_witness :
  let out := editPostRequest (Some Scenario.alice_lower) 1 (Some "  fixed ")
               1700000000009 Scenario.two_posts in
  let edited := mkPost 1 "fixed" None "0xA11CE" (Some "Alice") 1700000000001 [] None
                       (Some 1700000000009%N) in
  out_response out = Json edited
  /\ out_broadcast out = Some (EditPost edited)
  /\ out_batch out = None
  /\ readData (out_storage out)
     = Ok (out_storage out, mkData [Scenario.bobs_post; edited] 3).
Proof.
  cbv zeta.
  pose proof (edit_post_effect Scenario.alice_lower "  fixed " 1700000000009
                Scenario.two_posts Scenario.two_posts Scenario.two_posts_data
                Scenario.alices_post two_posts_well_formed two_posts_read
                (list_elem_of_further _ _ _ (list_elem_of_here _ _))) as H.
  cbv zeta in H.
  assert (Htext : "  fixed "%string <> ""%string) by discriminate.
  assert (Htrim : Js.trim "  fixed " = "fixed"%string) by (vm_compute; reflexivity).
  rewrite Htrim in H.
  assert (Hfixed : "fixed"%string <> ""%string) by discriminate.
  specialize (H Htext Hfixed).
  assert (Hauthor : bool_decide (Js.toLowerCase (p_author Scenario.alices_post)
                                 = Js.toLowerCase (address Scenario.alice_lower)) = true)
    by (vm_compute; reflexivity).
  rewrite Hauthor in H. exact H.
Defined.

(* ------------------------------------------------------------------ *)
(** ** What an accepted post looks like *)

Lemma truthy_str_inv (o : option string) (s : string) :
  truthy_str o = Some s -> o = Some s /\ s <> ""%string.
Proof.
  destruct o as [t|]; simpl; [| discriminate].
  destruct (decide (t = ""%string)); [discriminate |].
  intros H. injection H as <-. split; [reflexivity | assumption].
Qed.

Lemma getUserName_lists_named (o : Oracle) (a : string) (lists : list string) (n : string) :
  getUserName_lists o a lists = Ok (Some n) ->
  n <> ""%string /\ Js.trim n <> ""%string
  /\ exists listName entries e,
       listName ∈ lists /\ oracle_getACL o listName = Ok entries /\ e ∈ entries
       /\ Js.toLowerCase (acl_addr e) = Js.toLowerCase a /\ acl_name e = Some n.
Proof.
  induction lists as [|listName rest IH]; simpl; [discriminate |].
  assert (Hrest : getUserName_lists o a rest = Ok (Some n) ->
                  n <> ""%string /\ Js.trim n <> ""%string
                  /\ exists listName' entries e,
                       listName' ∈ listName :: rest
                       /\ oracle_getACL o listName' = Ok entries /\ e ∈ entries
                       /\ Js.toLowerCase (acl_addr e) = Js.toLowerCase a
                       /\ acl_name e = Some n).
  { intros H. destruct (IH H) as (H1 & H2 & l' & es & e & Hl' & Hrest).
    split; [exact H1 |]. split; [exact H2 |].
    exists l', es, e. split; [apply list_elem_of_further, Hl' | exact Hrest]. }
  destruct (oracle_getACL o listName) as [entries|] eqn:Hacl; [| discriminate].
  destruct (find _ entries) as [e|] eqn:Hfind; [| exact Hrest].
  destruct (truthy_str (acl_name e)) as [name|] eqn:Hname; [| exact Hrest].
  destruct (bool_decide (Js.trim name = ""%string)) eqn:Hblank; [exact Hrest |].
  intros H. injection H as ->.
  apply truthy_str_inv in Hname as [Hname Hne].
  apply bool_decide_eq_false in Hblank.
  apply find_some in Hfind as [He Haddr]. apply bool_decide_eq_true in Haddr.
  split; [exact Hne |]. split; [exact Hblank |].
  exists listName, entries, e.
  split; [apply list_elem_of_here |]. split; [exact Hacl |].
  split; [apply list_elem_of_In, He |]. split; assumption.
Qed.

Lemma getUserName_named (o : Oracle) (a n : string) :
  getUserName o a = Some n ->
  n <> ""%string /\ Js.trim n <> ""%string
  /\ exists lists listName entries e,
       oracle_listsForMember o = Ok lists /\ listName ∈ lists
       /\ oracle_getACL o listName = Ok entries /\ e ∈ entries
       /\ Js.toLowerCase (acl_addr e) = Js.toLowerCase a /\ acl_name e = Some n.
Proof.
  unfold getUserName.
  destruct (oracle_listsForMember o) as [lists|]; [| discriminate].
  destruct (getUserName_lists o a lists) as [r|] eqn:Hr; [| discriminate].
  intros ->. destruct (getUserName_lists_named o a lists n Hr) as (H1 & H2 & l & es & e & H).
  split; [exact H1 |]. split; [exact H2 |]. exists lists, l, es, e.
  split; [reflexivity | exact H].
Qed.

Section Accepted.

Variable sanitizeSvg : string -> result string.
Variable cfg : BoardConfig.

Lemma validateImage_passed (settings : ImageSettings) (image : string) :
  validateImage sanitizeSvg settings image = None ->
  ((3 * N.of_nat (String.length image) + 2) / 4 <= maxProcessedBytes settings)%N
  /\ (Js.startsWith image "data:image/jpeg" = true
      \/ Js.startsWith image "data:image/svg+xml" = true
         /\ allowSvg settings = true
         /\ sanitizeSvg image <> Throw).
Proof.
  unfold validateImage.
  destruct (Js.startsWith image "data:image/"); [| discriminate]. cbn [negb].
  destruct (N.ltb_spec (maxProcessedBytes settings)
                       ((3 * N.of_nat (String.length image) + 2) / 4)) as [|Hsize];
    [discriminate |].
  destruct (Js.startsWith image "data:image/jpeg") eqn:Hjpeg;
    destruct (Js.startsWith image "data:image/svg+xml") eqn:Hsvg;
    destruct (allowSvg settings) eqn:Hallow; cbn [negb andb]; try discriminate;
    try (destruct (sanitizeSvg image) eqn:Hs; [| discriminate]);
    intros _; (split; [exact Hsize |]);
    first [left; reflexivity
          | right; split; [reflexivity |]; split; [reflexivity | discriminate]].
Qed.

Lemma validatePost_passed (body : PostBody) :
  validatePost sanitizeSvg cfg body = None ->
  (exists text, body_text body = Some text /\ Js.trim text <> ""%string)
  /\ (forall ch, truthy_str (body_channel body) = Some ch ->
        ch = "general"%string \/ channel_exists ch (channels cfg) = Ok true)
  /\ (forall image, truthy_str (body_image body) = Some image ->
        validateImage sanitizeSvg (imageSettings cfg) image = None).
Proof.
  unfold validatePost.
  destruct (truthy_str (body_text body)) as [text|] eqn:Htext; [| discriminate].
  destruct (String.length (Js.trim text) =? 0)%nat eqn:Hlen; [discriminate |].
  apply truthy_str_inv in Htext as [Htext _].
  assert (Htrim : Js.trim text <> ""%string).
  { intros Heq. rewrite Heq in Hlen. discriminate. }
  destruct (truthy_str (body_channel body)) as [channel|].
  - destruct (decide (channel = "general"%string)) as [->|Hne].
    + intros Himg. split; [eauto |]. split.
      * intros ch Hch. injection Hch as <-. left. reflexivity.
      * intros image Hi. rewrite Hi in Himg. exact Himg.
    + destruct (channel_exists channel (channels cfg)) as [[]|] eqn:Hex;
        try discriminate.
      intros Himg. split; [eauto |]. split.
      * intros ch Hch. injection Hch as <-. right. exact Hex.
      * intros image Hi. rewrite Hi in Himg. exact Himg.
  - intros Himg. split; [eauto |]. split; [discriminate |].
    intros image Hi. rewrite Hi in Himg. exact Himg.
Qed.

End Accepted.

(** X9.  What an accepted post looks like.  When the post handler answers
    with a post, whatever the sanitiser is: the caller is authenticated
    and the oracle put them at level 2 or more; the text is the trimmed
    text of the request and is not empty; the author is the caller's
    address and the time stamp the clock; the post has no comments and no
    [editedAt]; its channel is absent, ["general"] or the name of an
    existing channel; its author name, if any, is not blank and is the
    name of an access-list entry for the caller's address; and its image is
    the image of the request as submitted (a JPEG data URL, or an SVG data
    URL on a board that allows SVG, within the size limit): what the
    sanitiser returned is not what is stored.  The same post is broadcast
    and handed to the chain batcher. *)
Theorem accepted_post_fields (sanitizeSvg : string -> result string) (cfg : BoardConfig)
    (client : option Client) (o : Oracle) (body : PostBody) (now : N) (st : Storage)
    (post : Post) :
  let out := submitPost sanitizeSvg cfg client o body now st in
  out_response out = Json post ->
  (exists c text l,
     client = Some c /\ oracle_access o = AccessLevel l /\ (2 <= l)%N
     /\ body_text body = Some text
     /\ p_text post = Js.trim text /\ p_text post <> ""%string
     /\ p_author post = address c)
  /\ p_timestamp post = now /\ p_comments post = [] /\ p_editedAt post = None
  /\ p_channel post = truthy_str (body_channel body)
  /\ (forall ch, p_channel post = Some ch ->
        ch = "general"%string \/ channel_exists ch (channels cfg) = Ok true)
  /\ (forall n, p_authorName post = Some n ->
        Js.trim n <> ""%string
        /\ exists lists listName entries e,
             oracle_listsForMember o = Ok lists /\ listName ∈ lists
             /\ oracle_getACL o listName = Ok entries /\ e ∈ entries
             /\ Js.toLowerCase (acl_addr e) = Js.toLowerCase (p_author post)
             /\ acl_name e = Some n)
  /\ p_image post = truthy_str (body_image body)
  /\ (forall image, p_image post = Some image ->
        ((3 * N.of_nat (String.length image) + 2) / 4
         <= maxProcessedBytes (imageSettings cfg))%N
        /\ (Js.startsWith image "data:image/jpeg" = true
            \/ Js.startsWith image "data:image/svg+xml" = true
               /\ allowSvg (imageSettings cfg) = true))
  /\ out_broadcast out = Some (NewPost post)
  /\ out_batch out = Some post.
Proof.
  cbv zeta. unfold submitPost.
  destruct (validatePost sanitizeSvg cfg body) as [r|] eqn:Hv.
  { cbn [reject out_response]. intros ->.
    exfalso. eapply validatePost_not_json; [exact Hv | reflexivity]. }
  destruct (validatePost_passed sanitizeSvg cfg body Hv) as ((text & Htext & Htrim) & Hch & Himg).
  unfold checkPostingPermission.
  destruct client as [c|]; [| discriminate].
  destruct (oracle_access o) as [|l] eqn:Hacc; [discriminate |].
  destruct (N.leb_spec 2 l) as [Hl|]; [| discriminate].
  cbn [allowed user].
  destruct (readData st) as [[st1 data]|]; [| discriminate].
  cbn [out_response out_broadcast out_batch]. intros H. injection H as <-.
  rewrite Htext. unfold newPost.
  cbn [p_text p_author p_timestamp p_comments p_editedAt p_channel p_authorName p_image
       u_address u_name default].
  split.
  { exists c, text, l. repeat split; try assumption; reflexivity. }
  split; [reflexivity |]. split; [reflexivity |]. split; [reflexivity |].
  split; [reflexivity |]. split; [exact Hch |].
  split.
  { intros n Hn. apply truthy_str_inv in Hn as [Hn _].
    destruct (getUserName_named o (address c) n Hn) as (_ & Hblank & Hentry).
    split; assumption. }
  split; [reflexivity |]. split; [| split; reflexivity].
  intros image Hi. specialize (Himg image Hi).
  destruct (validateImage_passed sanitizeSvg _ _ Himg) as [Hsize [Hjpeg|(Hsvg & Hallow & _)]].
  - split; [exact Hsize | left; exact Hjpeg].
  - split; [exact Hsize | right; split; assumption].
Qed.

Lemma accepted_post_fields_witness :
  let out := submitPost Sample.sanitizer Sample.board (Some Sample.alice)
               (Sample.oracle 2) (mkBody (Some " hello ") None (Some "news"))
               1700000000005 Scenario.two_posts in
  let post := mkPost 3 "hello" None "0xA11CE" (Some "Alice") 1700000000005 []
                     (Some "news") None in
  out_response out = Json post
  /\ out_broadcast out = Some (NewPost post)
  /\ out_batch out = Some post.
Proof.
  cbv zeta.
  assert (Hr : out_response
                 (submitPost Sample.sanitizer Sample.board (Some Sample.alice)
                    (Sample.oracle 2) (mkBody (Some " hello ") None (Some "news"))
                    1700000000005 Scenario.two_posts)
               = Json (mkPost 3 "hello" None "0xA11CE" (Some "Alice") 1700000000005 []
                              (Some "news") None))
    by (vm_compute; reflexivity).
  split; [exact Hr |].
  pose proof (accepted_post_fields Sample.sanitizer Sample.board (Some Sample.alice)
                (Sample.oracle 2) (mkBody (Some " hello ") None (Some "news"))
                1700000000005 Scenario.two_posts _ Hr) as H.
  destruct H as (_ & _ & _ & _ & _ & _ & _ & _ & _ & Hb & Hc).
  split; assumption.
Defined.

(* ================================================================== *)
(** * Access resolver: which channels and posts a caller sees *)
(* ================================================================== *)

Lemma accessible_below_admin_spec (o : Oracle) (l : N) (chs : list Channel)
    (acc0 acc : gset string) :
  accessible_below_admin o l chs acc0 = Ok acc ->
  forall n, n ∈ acc <->
    n ∈ acc0
    \/ exists c, c ∈ chs /\ ch_name c = n
                 /\ match truthy_str (ch_list c) with
                    | None => (1 <= l)%N
                    | Some listRef => oracle_isInACL o listRef = Ok true
                    end.
Proof.
  revert acc0. induction chs as [|ch rest IH]; intros acc0; simpl.
  - intros H n. injection H as <-. split; [auto |].
    intros [Hn | (c & Hc & _)]; [exact Hn |]. apply elem_of_nil in Hc. contradiction.
  - destruct (truthy_str (ch_list ch)) as [listRef|] eqn:Hlist.
    + destruct (oracle_isInACL o listRef) as [isInList|] eqn:Hacl; [| discriminate].
      intros H n. rewrite (IH _ H n). split.
      * intros [Hn | (c & Hc & Hname & Hsee)].
        -- destruct isInList.
           ++ apply elem_of_union in Hn as [Hn | Hn]; [left; exact Hn |].
              apply elem_of_singleton in Hn. right. exists ch.
              split; [apply list_elem_of_here |]. split; [congruence |].
              rewrite Hlist. exact Hacl.
           ++ left. exact Hn.
        -- right. exists c. split; [apply list_elem_of_further, Hc |]. split; assumption.
      * intros [Hn | (c & Hc & Hname & Hsee)].
        -- left. destruct isInList; [apply elem_of_union_l |]; exact Hn.
        -- apply elem_of_cons in Hc as [-> | Hc].
           ++ left. rewrite Hlist, Hacl in Hsee. injection Hsee as ->.
              apply elem_of_union_r, elem_of_singleton. congruence.
           ++ right. exists c. split; [exact Hc |]. split; assumption.
    + intros H n. rewrite (IH _ H n). split.
      * intros [Hn | (c & Hc & Hname & Hsee)].
        -- destruct (N.leb_spec 1 l) as [Hl|Hl].
           ++ apply elem_of_union in Hn as [Hn | Hn]; [left; exact Hn |].
              apply elem_of_singleton in Hn. right. exists ch.
              split; [apply list_elem_of_here |]. split; [congruence |].
              rewrite Hlist. exact Hl.
           ++ left. exact Hn.
        -- right. exists c. split; [apply list_elem_of_further, Hc |]. split; assumption.
      * intros [Hn | (c & Hc & Hname & Hsee)].
        -- left. destruct (1 <=? l)%N; [apply elem_of_union_l |]; exact Hn.
        -- apply elem_of_cons in Hc as [-> | Hc].
           ++ left. rewrite Hlist in Hsee.
              destruct (N.leb_spec 1 l) as [_|Hl]; [| lia].
              apply elem_of_union_r, elem_of_singleton. congruence.
           ++ right. exists c. split; [exact Hc |]. split; assumption.
Qed.

(** X10.  The channels a caller may use.  When
    [getAccessibleChannelNames] returns, the set holds ["general"] and
    beyond it exactly the names of the channels of the board that the
    caller may see: every channel for an admin (level 3 or more); the
    channels without an access list for a caller that is not
    authenticated and for an authenticated one of level 1 or more; a
    channel with an access list for the authenticated callers the oracle
    reports on that list. *)
Theorem accessible_channels_characterised (client : option Client) (o : Oracle)
    (channels : list ChannelEntry) (acc : gset string) :
  getAccessibleChannelNames client o channels = Ok acc ->
  exists chs,
    parsed_channels channels = Ok chs
    /\ forall n, n ∈ acc <->
         n = "general"%string
         \/ exists c, c ∈ chs /\ ch_name c = n /\ may_see client o c.
Proof.
  unfold getAccessibleChannelNames, may_see, authenticated.
  destruct (parsed_channels channels) as [chs|]; [| discriminate].
  intros H. exists chs. split; [reflexivity |]. cbv zeta in H.
  destruct (match client with
            | Some c => negb (bool_decide (address c = ""%string))
            | None => false
            end).
  - destruct (oracle_access o) as [|l]; [discriminate |].
    destruct (N.leb_spec 3 l) as [Hl|Hl].
    + injection H as <-. intros n. rewrite elem_of_union, elem_of_singleton.
      rewrite elem_of_list_to_set, list_elem_of_fmap. split.
      * intros [Hn | (c & Hname & Hc)]; [left; exact Hn |].
        right. exists c. split; [exact Hc |]. split; [congruence | left; exact Hl].
      * intros [Hn | (c & Hc & Hname & _)]; [left; exact Hn |].
        right. exists c. split; [congruence | exact Hc].
    + intros n. rewrite (accessible_below_admin_spec o l chs _ acc H n).
      rewrite elem_of_singleton. split.
      * intros [Hn | (c & Hc & Hname & Hsee)]; [left; exact Hn |].
        right. exists c. split; [exact Hc |]. split; [exact Hname | right; exact Hsee].
      * intros [Hn | (c & Hc & Hname & [Hadmin | Hsee])]; [left; exact Hn | lia |].
        right. exists c. split; [exact Hc |]. split; assumption.
  - injection H as <-. intros n. rewrite elem_of_union, elem_of_singleton.
    rewrite elem_of_list_to_set, list_elem_of_fmap. split.
    + intros [Hn | (c & Hname & Hc)]; [left; exact Hn |].
      apply list_elem_of_filter in Hc as [Hopen Hc].
      right. exists c. split; [exact Hc |]. split; [congruence | exact Hopen].
    + intros [Hn | (c & Hc & Hname & Hopen)]; [left; exact Hn |].
      right. exists c. split; [congruence |].
      apply list_elem_of_filter. split; assumption.
Qed.

(** The names in the accessible set are ["general"] and names of channels
    of the board. *)
Lemma accessible_names_known (client : option Client) (o : Oracle)
    (channels : list ChannelEntry) (acc : gset string) (chs : list Channel) :
  getAccessibleChannelNames client o channels = Ok acc ->
  parsed_channels channels = Ok chs ->
  forall n, n ∈ acc -> n = "general"%string \/ n ∈ map ch_name chs.
Proof.
  unfold getAccessibleChannelNames. intros H Hparsed. rewrite Hparsed in H.
  cbv zeta in H. intros n Hn.
  destruct (match client with
            | Some c => negb (bool_decide (address c = ""%string))
            | None => false
            end).
  - destruct (oracle_access o) as [|l]; [discriminate |].
    destruct (3 <=? l)%N.
    + injection H as <-. apply elem_of_union in Hn as [Hn|Hn].
      * left. apply elem_of_singleton in Hn. exact Hn.
      * right. apply elem_of_list_to_set in Hn. exact Hn.
    + apply (accessible_below_admin_spec o l chs _ acc H) in Hn
        as [Hn | (c & Hc & Hname & _)].
      * left. apply elem_of_singleton in Hn. exact Hn.
      * right. rewrite <- Hname. apply list_elem_of_fmap_2, Hc.
  - injection H as <-. apply elem_of_union in Hn as [Hn|Hn].
    + left. apply elem_of_singleton in Hn. exact Hn.
    + right. apply elem_of_list_to_set in Hn.
      apply list_elem_of_fmap in Hn as (c & -> & Hc).
      apply list_elem_of_filter in Hc as [_ Hc]. apply list_elem_of_fmap_2, Hc.
Qed.

Lemma accessible_channels_characterised_witness :
  exists chs,
    parsed_channels Scenario.channels = Ok chs
    /\ forall n, n ∈ ({[ "general"%string ]} ∪ {[ "news"%string ]} : gset string) <->
         n = "general"%string
         \/ exists c, c ∈ chs /\ ch_name c = n
                      /\ may_see (Some Sample.bob) (Sample.oracle 1) c.
Proof.
  apply (accessible_channels_characterised (Some Sample.bob) (Sample.oracle 1)
           Scenario.channels).
  vm_compute. reflexivity.
Defined.

Lemma channel_or_general_spec (p : Post) (ch : string) :
  ch <> ""%string ->
  channel_or_general p = ch <->
  if decide (ch = "general"%string)
  then truthy_str (p_channel p) = None \/ p_channel p = Some "general"%string
  else p_channel p = Some ch.
Proof.
  intros Hne. unfold channel_or_general.
  destruct (p_channel p) as [c|]; simpl.
  - destruct (decide (c = ""%string)) as [->|Hc]; simpl.
    + destruct (decide (ch = "general"%string)) as [->|Hg].
      * split; [auto | reflexivity].
      * split; [congruence |]. intros H. injection H as <-. contradiction.
    + destruct (decide (ch = "general"%string)) as [->|Hg].
      * split; [intros ->; right; reflexivity |].
        intros [H|H]; [discriminate | congruence].
      * split; [intros ->; reflexivity | congruence].
  - destruct (decide (ch = "general"%string)) as [->|Hg].
    + split; [auto | reflexivity].
    + split; [congruence | discriminate].
Qed.

(** X11.  What the list read returns.  When the handler answers with
    posts, these are exactly the stored posts whose channel (["general"]
    for a post without one) is in the caller's accessible set and, when a
    channel was asked for, equals it; they keep the stored order.  A
    requested channel outside the accessible set is answered with 403. *)
Theorem getPosts_characterised (cfg : BoardConfig) (client : option Client) (o : Oracle)
    (channel : option string) (st st1 : Storage) (data : Data) (acc : gset string) :
  readData st = Ok (st1, data) ->
  getAccessibleChannelNames client o (channels cfg) = Ok acc ->
  match truthy_str channel with
  | Some ch =>
      if decide (ch ∈ acc)
      then snd (getPosts cfg client o channel st)
           = Json (filter (fun p => channel_or_general p = ch) (d_posts data))
      else snd (getPosts cfg client o channel st) = Error 403 "Access denied"
  | None =>
      snd (getPosts cfg client o channel st)
      = Json (filter (fun p => channel_or_general p ∈ acc) (d_posts data))
  end.
Proof.
  intros Hread Hacc. unfold getPosts. rewrite Hread, Hacc.
  destruct (truthy_str channel) as [ch|] eqn:Hch; [| reflexivity].
  apply truthy_str_inv in Hch as [_ Hne].
  destruct (decide (ch ∈ acc)) as [Hin|Hout]; [| reflexivity].
  pose proof (fun p => channel_or_general_spec p ch Hne) as Hspec.
  destruct (decide (ch = "general"%string)) as [Hg|Hg]; cbn [snd]; f_equal.
  - rewrite list_filter_filter.
    apply list_filter_iff. intros p. rewrite (Hspec p). split.
    + intros [H _]. exact H.
    + intros H. split; [exact H |]. apply Hspec in H. rewrite H. exact Hin.
  - rewrite list_filter_filter.
    apply list_filter_iff. intros p. rewrite (Hspec p). split.
    + intros [H _]. exact H.
    + intros H. split; [exact H |]. apply Hspec in H. rewrite H. exact Hin.
Qed.

Lemma getPosts_characterised_witness :
  snd (getPosts Sample.board (Some Sample.bob) (Sample.oracle 1) (Some "general")
         Scenario.two_posts)
  = Json (filter (fun p => channel_or_general p = "general"%string)
                 [Scenario.bobs_post; Scenario.alices_post]).
Proof.
  assert (Hacc : getAccessibleChannelNames (Some Sample.bob) (Sample.oracle 1)
                   (channels Sample.board)
                 = Ok ({[ "general"%string ]} ∪ {[ "news"%string ]}))
    by (vm_compute; reflexivity).
  pose proof (getPosts_characterised Sample.board (Some Sample.bob) (Sample.oracle 1)
                (Some "general"%string) Scenario.two_posts Scenario.two_posts
                Scenario.two_posts_data _ two_posts_read Hacc) as H.
  change (truthy_str (Some "general"%string)) with (Some "general"%string) in H.
  cbv beta iota in H.
  destruct (decide ("general"%string ∈ ({[ "general"%string ]} ∪ {[ "news"%string ]}
                                          : gset string))) as [_|Hn].
  - exact H.
  - exfalso. apply Hn, elem_of_union_l, elem_of_singleton. reflexivity.
Defined.

Lemma getPosts_accessible (cfg : BoardConfig) (client : option Client) (o : Oracle)
    (channel : option string) (st : Storage) (posts : list Post) :
  snd (getPosts cfg client o channel st) = Json posts ->
  exists st1 data acc,
    readData st = Ok (st1, data)
    /\ getAccessibleChannelNames client o (channels cfg) = Ok acc
    /\ forall p, p ∈ posts -> p ∈ d_posts data /\ channel_or_general p ∈ acc.
Proof.
  unfold getPosts.
  destruct (readData st) as [[st1 data]|]; [| discriminate].
  destruct (getAccessibleChannelNames client o (channels cfg)) as [acc|]; [| discriminate].
  intros H. exists st1, data, acc. split; [reflexivity |]. split; [reflexivity |].
  assert (Hbase : forall p,
             p ∈ filter (fun post => channel_or_general post ∈ acc) (d_posts data) ->
             p ∈ d_posts data /\ channel_or_general p ∈ acc).
  { intros p Hp. apply list_elem_of_filter in Hp as [Hc Hp]. split; assumption. }
  destruct (truthy_str channel) as [ch|].
  - destruct (decide (ch ∈ acc)); [| discriminate].
    destruct (decide (ch = "general"%string)); cbn [snd] in H; injection H as <-;
      intros p Hp; apply list_elem_of_filter in Hp as [_ Hp]; apply Hbase, Hp.
  - cbn [snd] in H. injection H as <-. exact Hbase.
Qed.

(** X12.  Posts of a channel that the board does not have (any more) are
    shown to nobody.  If a name other than ["general"] is not the name of a
    channel of the board, for instance because the channel has been deleted,
    no list read returns a post of that channel, to no caller, admins
    included, with or without a channel asked for. *)
Theorem posts_of_unknown_channel_hidden (cfg : BoardConfig) (client : option Client)
    (o : Oracle) (channel : option string) (st : Storage) (posts : list Post)
    (chs : list Channel) (ch : string) :
  parsed_channels (channels cfg) = Ok chs ->
  ch ∉ map ch_name chs ->
  ch <> "general"%string ->
  snd (getPosts cfg client o channel st) = Json posts ->
  forall p, p ∈ posts -> channel_or_general p <> ch.
Proof.
  intros Hparsed Hunknown Hg Hposts p Hp Hch.
  destruct (getPosts_accessible cfg client o channel st posts Hposts)
    as (st1 & data & acc & _ & Hacc & Hall).
  destruct (Hall p Hp) as [_ Hin]. rewrite Hch in Hin.
  destruct (accessible_names_known client o (channels cfg) acc chs Hacc Hparsed ch Hin)
    as [Heq | Hknown]; [contradiction | exact (Hunknown Hknown)].
Qed.

Lemma posts_of_unknown_channel_hidden_witness :
  snd (getPosts Scenario.board_without_channels (Some Sample.alice) (Sample.oracle 3)
         None Scenario.news_storage) = Json []
  /\ exists st1 p,
       readData Scenario.news_storage = Ok (st1, mkData [p] 2)
       /\ p_channel p = Some "news"%string
       /\ forall q, q ∈ ([] : list Post) -> channel_or_general q <> "news"%string.
Proof.
  assert (Hr : snd (getPosts Scenario.board_without_channels (Some Sample.alice)
                      (Sample.oracle 3) None Scenario.news_storage) = Json [])
    by (vm_compute; reflexivity).
  split; [exact Hr |].
  eexists _, _. split; [vm_compute; reflexivity |]. split; [reflexivity |].
  apply (posts_of_unknown_channel_hidden Scenario.board_without_channels
           (Some Sample.alice) (Sample.oracle 3) None Scenario.news_storage [] []
           "news"%string).
  - reflexivity.
  - intros H. apply elem_of_nil in H. exact H.
  - discriminate.
  - exact Hr.
Defined.

(* ================================================================== *)
(** * Channel registry: listing, creation and deletion *)
(* ================================================================== *)

Lemma parsed_leniently_strict (channels : list ChannelEntry) (chs : list Channel) :
  parsed_channels channels = Ok chs -> parsed_leniently channels = chs.
Proof.
  revert chs. induction channels as [|e rest IH]; intros chs; simpl.
  - intros H. injection H as <-. reflexivity.
  - destruct e as [c|[[c|]|]]; try discriminate.
    + destruct (parsed_channels rest) as [cs|]; [| discriminate].
      intros H. injection H as <-. rewrite (IH cs eq_refl). reflexivity.
    + destruct (parsed_channels rest) as [cs|]; [| discriminate].
      intros H. injection H as <-. rewrite (IH cs eq_refl). reflexivity.
    + apply IH.
Qed.

Lemma listed_names (chs : list Channel) : map lc_name (map listed chs) = map ch_name chs.
Proof. rewrite map_map. reflexivity. Qed.

Lemma listed_below_admin_spec (o : Oracle) (l : N) (chs : list Channel)
    (acc0 acc : gset string) :
  accessible_below_admin o l chs acc0 = Ok acc ->
  exists visible,
    listed_below_admin o l chs = Ok visible
    /\ visible `sublist_of` chs
    /\ acc = acc0 ∪ list_to_set (map ch_name visible).
Proof.
  revert acc0. induction chs as [|ch rest IH]; intros acc0; simpl.
  - intros H. injection H as <-. exists []. split; [reflexivity |].
    split; [constructor |]. cbn [map list_to_set foldr]. symmetry. apply (right_id_L _ _).
  - destruct (truthy_str (ch_list ch)) as [listRef|].
    + destruct (oracle_isInACL o listRef) as [isInList|]; [| discriminate].
      intros H. destruct (IH _ H) as (vis & -> & Hsub & ->).
      destruct isInList; eexists; (split; [reflexivity |]); split.
      * apply sublist_skip, Hsub.
      * cbn [map list_to_set foldr]. symmetry. apply (assoc_L _).
      * apply sublist_cons, Hsub.
      * reflexivity.
    + intros H. destruct (IH _ H) as (vis & -> & Hsub & ->).
      destruct (1 <=? l)%N; eexists; (split; [reflexivity |]); split.
      * apply sublist_skip, Hsub.
      * cbn [map list_to_set foldr]. symmetry. apply (assoc_L _).
      * apply sublist_cons, Hsub.
      * reflexivity.
Qed.

(** X13.  The channel list and the post filter agree.  Whenever
    [getAccessibleChannelNames] returns a set for a caller, the channel
    listing answers that caller with the pseudo-channel ["general"]
    followed by channels of the board in the board's order, none of them
    marked as pseudo, and the names listed are exactly the names in the
    set: a caller can read the posts of precisely the channels the listing
    shows. *)
Theorem listing_matches_access (client : option Client) (o : Oracle)
    (channels : list ChannelEntry) (acc : gset string) :
  getAccessibleChannelNames client o channels = Ok acc ->
  exists visible,
    listChannels client o channels = Json (general_channel :: map listed visible)
    /\ visible `sublist_of` parsed_leniently channels
    /\ list_to_set (map lc_name (general_channel :: map listed visible)) = acc.
Proof.
  unfold getAccessibleChannelNames, listChannels.
  destruct (parsed_channels channels) as [chs|] eqn:Hparsed; [| discriminate].
  rewrite (parsed_leniently_strict _ _ Hparsed). cbv zeta.
  destruct (match client with
            | Some c => negb (bool_decide (address c = ""%string))
            | None => false
            end).
  - destruct (oracle_access o) as [|l]; [discriminate |].
    destruct (3 <=? l)%N.
    + intros H. injection H as <-. exists chs. split; [reflexivity |].
      split; [reflexivity |]. cbn [map lc_name general_channel].
      rewrite listed_names. reflexivity.
    + intros H. destruct (listed_below_admin_spec o l chs _ acc H) as (vis & -> & Hsub & ->).
      exists vis. split; [reflexivity |]. split; [exact Hsub |].
      cbn [map lc_name general_channel]. rewrite listed_names. reflexivity.
  - intros H. injection H as <-. eexists. split; [reflexivity |].
    split; [apply filter_sublist_of |].
    cbn [map lc_name general_channel]. rewrite listed_names. reflexivity.
Qed.

Lemma listing_matches_access_witness :
  exists visible,
    listChannels (Some Sample.bob) (Sample.oracle 1) Scenario.channels
    = Json (general_channel :: map listed visible)
    /\ visible `sublist_of` parsed_leniently Scenario.channels
    /\ list_to_set (map lc_name (general_channel :: map listed visible))
       = ({[ "general"%string ]} ∪ {[ "news"%string ]} : gset string).
Proof.
  apply (listing_matches_access (Some Sample.bob) (Sample.oracle 1) Scenario.channels).
  vm_compute. reflexivity.
Defined.

Lemma createChannel_created (client : option Client) (o : Oracle)
    (name listRef : option string) (chans chans' : list ChannelEntry) (ch : Channel) :
  createChannel client o name listRef chans = (chans', Json ch) ->
  allowed (checkAdminPermission client o) = true
  /\ name = Some (ch_name ch)
  /\ channel_pattern (ch_name ch) = true
  /\ ch_name ch <> "general"%string
  /\ channel_exists (ch_name ch) chans = Ok false
  /\ ch_list ch = truthy_str listRef
  /\ chans' = chans ++ [ChObj ch].
Proof.
  unfold createChannel.
  destruct (allowed (checkAdminPermission client o)); [| discriminate]. cbn [negb].
  destruct (truthy_str name) as [n|] eqn:Hname; [| discriminate].
  apply truthy_str_inv in Hname as [-> _].
  destruct (channel_pattern n) eqn:Hpat; [| discriminate]. cbn [negb].
  destruct (decide (n = "general"%string)) as [|Hg]; [discriminate |].
  destruct (channel_exists n chans) as [[]|] eqn:Hex; try discriminate.
  intros H. injection H as <- <-. cbn [ch_name ch_list]. repeat split; assumption.
Qed.

Lemma remove_channel_snoc (c : Channel) (chans : list ChannelEntry) :
  channel_exists (ch_name c) chans = Ok false ->
  remove_channel (ch_name c) (chans ++ [ChObj c]) = Ok (Some chans).
Proof.
  induction chans as [|e rest IH]; simpl; intros H.
  - destruct (decide (ch_name c = ch_name c)); [reflexivity | contradiction].
  - destruct (entry_name e) as [n|]; [| discriminate].
    destruct (decide (n = ch_name c)); [discriminate |].
    rewrite (IH H). reflexivity.
Qed.

(** X14.  Creating a channel and deleting it again restores the channel
    list.  When the creation of a channel is answered with the channel,
    the deletion of that name by the same caller succeeds and leaves the
    list exactly as it was before the creation, whatever entries it
    held. *)
Theorem create_then_delete_channel (client : option Client) (o : Oracle)
    (name listRef : option string) (chans chans' : list ChannelEntry) (ch : Channel) :
  createChannel client o name listRef chans = (chans', Json ch) ->
  deleteChannel client o (ch_name ch) chans' = (chans, Json tt).
Proof.
  intros H.
  destruct (createChannel_created _ _ _ _ _ _ _ H) as (Hadmin & _ & _ & _ & Hex & _ & ->).
  unfold deleteChannel. rewrite Hadmin. cbn [negb].
  rewrite (remove_channel_snoc ch chans Hex). reflexivity.
Qed.

Lemma create_then_delete_channel_witness :
  deleteChannel (Some Sample.alice) (Sample.oracle 3) "events"
    (Scenario.channels ++ [ChObj (mkChannel "events" (Some "event-list"))])
  = (Scenario.channels, Json tt).
Proof.
  apply (create_then_delete_channel (Some Sample.alice) (Sample.oracle 3)
           (Some "events"%string) (Some "event-list"%string) Scenario.channels _
           (mkChannel "events" (Some "event-list"))).
  vm_compute. reflexivity.
Defined.

(** Deleting from a sound channel list. *)
Lemma remove_channel_sound (name : string) (chans : list ChannelEntry) :
  registry_sound chans ->
  if decide (name ∈ channel_names chans)
  then exists chans',
         remove_channel name chans = Ok (Some chans')
         /\ chans' `sublist_of` chans
         /\ channel_names chans' = filter (fun n => n <> name) (channel_names chans)
  else remove_channel name chans = Ok None.
Proof.
  intros [Hall Hnd]. induction Hall as [|e rest (c & -> & Hc) Hall IH].
  - destruct (decide (name ∈ channel_names [])) as [Hin|_]; [| reflexivity].
    apply elem_of_nil in Hin. contradiction.
  - rewrite channel_names_cons in Hnd |- *. cbn [entry_name] in Hnd |- *.
    apply NoDup_cons in Hnd as [Hfresh Hnd]. specialize (IH Hnd).
    cbn [remove_channel entry_name].
    destruct (decide (ch_name c = name)) as [<-|Hne].
    + destruct (decide (ch_name c ∈ ch_name c :: channel_names rest)) as [_|Hn].
      * exists rest. split; [reflexivity |]. split; [apply sublist_cons; reflexivity |].
        rewrite filter_cons_False by (intros Hn; apply Hn; reflexivity).
        symmetry. apply filter_all. intros n Hn ->. contradiction.
      * exfalso. apply Hn, list_elem_of_here.
    + destruct (decide (name ∈ channel_names rest)) as [Hin|Hout].
      * destruct IH as (chans' & -> & Hsub & Hnames).
        destruct (decide (name ∈ ch_name c :: channel_names rest)) as [_|Hn].
        -- exists (ChObj c :: chans'). split; [reflexivity |].
           split; [apply sublist_skip, Hsub |].
           rewrite channel_names_cons. cbn [entry_name]. rewrite Hnames.
           rewrite filter_cons_True by exact Hne. reflexivity.
        -- exfalso. apply Hn, list_elem_of_further, Hin.
      * rewrite IH.
        destruct (decide (name ∈ ch_name c :: channel_names rest)) as [Hin|_];
          [| reflexivity].
        apply elem_of_cons in Hin as [Heq|Hin]; [congruence | contradiction].
Qed.

Lemma registry_step_sound (chans : list ChannelEntry) (op : RegistryOp) :
  registry_sound chans -> registry_sound (registry_step chans op).
Proof.
  intros Hs. destruct op as [client o name listRef | client o name]; cbn [registry_step].
  - destruct (createChannel client o name listRef chans) as [chans' r] eqn:Hc.
    cbn [fst]. destruct r as [ch| |].
    + destruct (createChannel_created _ _ _ _ _ _ _ Hc)
        as (_ & _ & Hpat & Hg & Hex & Hlist & ->).
      destruct Hs as [Hall Hnd]. split.
      * apply Forall_app. split; [exact Hall |]. constructor; [| constructor].
        exists ch. split; [reflexivity |]. split; [exact Hpat |]. split; [exact Hg |].
        rewrite Hlist. intros H. apply truthy_str_inv in H as [_ H]. contradiction.
      * unfold channel_names. rewrite omap_app. cbn [omap entry_name].
        apply NoDup_app. split; [exact Hnd |]. split.
        -- intros n Hn Hin. apply list_elem_of_singleton in Hin as ->.
           apply (channel_exists_false _ _ Hex), Hn.
        -- apply NoDup_singleton.
    + unfold createChannel in Hc.
      repeat match type of Hc with
             | (if ?c then _ else _) = _ => destruct c
             | match ?c with _ => _ end = _ => destruct c
             end; inversion Hc; subst; exact Hs.
    + unfold createChannel in Hc.
      repeat match type of Hc with
             | (if ?c then _ else _) = _ => destruct c
             | match ?c with _ => _ end = _ => destruct c
             end; inversion Hc; subst; exact Hs.
  - unfold deleteChannel.
    destruct (negb (allowed (checkAdminPermission client o))); [exact Hs |].
    pose proof (remove_channel_sound name chans Hs) as Hr.
    destruct (decide (name ∈ channel_names chans)).
    + destruct Hr as (chans' & -> & Hsub & Hnames). cbn [fst].
      destruct Hs as [Hall Hnd]. split.
      * eapply Forall_sublist_of; eassumption.
      * rewrite Hnames. apply NoDup_filter, Hnd.
    + rewrite Hr. exact Hs.
Qed.

Lemma registry_run_sound (ops : list RegistryOp) (chans : list ChannelEntry) :
  registry_sound chans -> registry_sound (registry_run ops chans).
Proof.
  revert chans. induction ops as [|op ops IH]; intros chans Hs; simpl; [exact Hs |].
  apply IH, registry_step_sound, Hs.
Qed.

Lemma registry_sound_nil : registry_sound [].
Proof. split; [constructor | apply NoDup_nil_2]. Qed.

(** X15.  The channel list a board builds through its handlers is clean.
    Starting from a board without channels, after any sequence of channel
    creations and deletions, each served to completion, by whatever
    callers: every entry is a channel
    object whose name matches [[a-z0-9-]+] and is not ["general"], no two
    entries share a name, and an entry's access list is absent or a
    non-empty name. *)
Theorem registry_stays_sound (ops : list RegistryOp) :
  let chans := registry_run ops [] in
  NoDup (channel_names chans)
  /\ Forall (fun e => exists c, e = ChObj c
                                /\ channel_pattern (ch_name c) = true
                                /\ ch_name c <> "general"%string
                                /\ ch_list c <> Some ""%string) chans.
Proof.
  cbv zeta. destruct (registry_run_sound ops [] registry_sound_nil) as [Hall Hnd].
  split; assumption.
Qed.

(** X16.  Deleting a channel, on a channel list built through the
    handlers and for an admin: if a channel of that name exists, the
    answer is a success and the list loses that name and no other, the
    remaining channels keeping their order; if none exists, the answer is
    404 and the list is unchanged.  A caller that is not an admin gets 403
    and the list is unchanged. *)
Theorem delete_channel_effect (client : option Client) (o : Oracle) (name : string)
    (ops : list RegistryOp) :
  let chans := registry_run ops [] in
  let res := deleteChannel client o name chans in
  if allowed (checkAdminPermission client o)
  then if decide (name ∈ channel_names chans)
       then snd res = Json tt
            /\ fst res `sublist_of` chans
            /\ channel_names (fst res) = filter (fun n => n <> name) (channel_names chans)
       else res = (chans, Error 404 "Channel not found")
  else res = (chans, Error 403 "Only admins can delete channels").
Proof.
  cbv zeta. unfold deleteChannel.
  destruct (allowed (checkAdminPermission client o)); [| reflexivity]. cbn [negb].
  pose proof (remove_channel_sound name _ (registry_run_sound ops [] registry_sound_nil))
    as Hr.
  destruct (decide (name ∈ channel_names (registry_run ops []))).
  - destruct Hr as (chans' & -> & Hsub & Hnames). cbn [fst snd].
    split; [reflexivity |]. split; assumption.
  - rewrite Hr. reflexivity.
Qed.

(* ================================================================== *)
(** * Sidebar links and slug links *)
(* ================================================================== *)

Lemma splice_one_lookup {A} (i : nat) (links : list A) (j : nat) :
  (i < length links)%nat ->
  splice_one (Some (Z.of_nat i)) links !! j
  = if (j <? i)%nat then links !! j else links !! S j.
Proof.
  intros Hi. unfold splice_one.
  destruct (Z.ltb_spec (Z.of_nat i) 0) as [|_]; [lia |].
  rewrite Z.min_l by lia. rewrite Nat2Z.id.
  destruct (Nat.ltb_spec j i) as [Hj|Hj].
  - rewrite lookup_app_l by (rewrite length_take; lia).
    apply lookup_take_lt. exact Hj.
  - rewrite lookup_app_r by (rewrite length_take; lia).
    rewrite length_take, Nat.min_l by lia.
    rewrite lookup_drop. f_equal. lia.
Qed.

Lemma splice_one_length {A} (i : nat) (links : list A) :
  (i < length links)%nat ->
  S (length (splice_one (Some (Z.of_nat i)) links)) = length links.
Proof.
  intros Hi. unfold splice_one.
  destruct (Z.ltb_spec (Z.of_nat i) 0) as [|_]; [lia |].
  rewrite Z.min_l by lia. rewrite Nat2Z.id.
  rewrite length_app, length_take, length_drop. lia.
Qed.

(** X17.  Deleting a sidebar link by index, for an admin.  An index
    within the list removes exactly the link at that position: the list
    is one shorter, the links before the position stay where they are and
    the links after it move up by one.  An index outside the list, negative
    or too large, is answered 404 and leaves the file untouched.  An index
    that does not parse as a number is not rejected: it removes the first
    link. *)
Theorem sidebar_delete_by_index (client : option Client) (o : Oracle)
    (file : option (list SidebarLink)) :
  allowed (checkAdminPermission client o) = true ->
  let links := loadSidebarLinks file in
  (forall i : nat, (i < length links)%nat ->
     exists links',
       deleteSidebarLink client o (Some (Z.of_nat i)) file = (Some links', Json links')
       /\ S (length links') = length links
       /\ forall j, links' !! j = if (j <? i)%nat then links !! j else links !! S j)
  /\ (forall i : Z, i < 0 \/ Z.of_nat (length links) <= i ->
        deleteSidebarLink client o (Some i) file = (file, Error 404 "Link not found"))
  /\ deleteSidebarLink client o None file = (Some (drop 1 links), Json (drop 1 links)).
Proof.
  intros Hadmin. cbv zeta. unfold deleteSidebarLink. rewrite Hadmin. cbn [negb].
  split; [| split].
  - intros i Hi.
    destruct (Z.ltb_spec (Z.of_nat i) 0) as [|_]; [lia |].
    destruct (Z.leb_spec (Z.of_nat (length (loadSidebarLinks file))) (Z.of_nat i))
      as [|_]; [lia |].
    cbn [orb]. eexists. split; [reflexivity |].
    split; [apply splice_one_length, Hi |].
    intros j. apply splice_one_lookup, Hi.
  - intros i [Hi|Hi].
    + destruct (Z.ltb_spec i 0) as [_|]; [reflexivity | lia].
    + destruct (Z.leb_spec (Z.of_nat (length (loadSidebarLinks file))) i) as [_|];
        [| lia].
      rewrite orb_true_r. reflexivity.
  - reflexivity.
Qed.

Lemma sidebar_delete_by_index_witness :
  let file := Some [mkSidebarLink "Docs" "/docs"; mkSidebarLink "Chat" "/chat";
                    mkSidebarLink "Wiki" "/wiki"] in
  (exists links',
     deleteSidebarLink (Some Sample.alice) (Sample.oracle 3) (Some (Z.of_nat 1)) file
     = (Some links', Json links')
     /\ links' !! 1%nat = Some (mkSidebarLink "Wiki" "/wiki"))
  /\ deleteSidebarLink (Some Sample.alice) (Sample.oracle 3) (Some 3) file
     = (file, Error 404 "Link not found").
Proof.
  cbv zeta.
  destruct (sidebar_delete_by_index (Some Sample.alice) (Sample.oracle 3)
              (Some [mkSidebarLink "Docs" "/docs"; mkSidebarLink "Chat" "/chat";
                     mkSidebarLink "Wiki" "/wiki"]) eq_refl) as (Hin & Hout & _).
  split.
  - destruct (Hin 1%nat) as (links' & Hdel & _ & Hlookup); [simpl; lia |].
    exists links'. split; [exact Hdel |]. rewrite Hlookup. reflexivity.
  - apply (Hout 3). right. simpl. lia.
Defined.

(** X18.  Adding a sidebar link and deleting it again restores the links.
    When an admin adds a link with a title and a URL, the link is appended,
    and deleting the index of the last position gives back the links that
    were there before. *)
Theorem sidebar_add_then_delete (client : option Client) (o : Oracle)
    (title url : string) (file : option (list SidebarLink)) :
  allowed (checkAdminPermission client o) = true ->
  title <> ""%string -> url <> ""%string ->
  let links := loadSidebarLinks file in
  let added := addSidebarLink client o (Some title) (Some url) file in
  snd added = Json (links ++ [mkSidebarLink title url])
  /\ deleteSidebarLink client o (Some (Z.of_nat (length links))) (fst added)
     = (Some links, Json links).
Proof.
  intros Hadmin Ht Hu. cbv zeta. unfold addSidebarLink.
  rewrite Hadmin, (truthy_str_Some _ Ht), (truthy_str_Some _ Hu). cbn [negb fst snd].
  split; [reflexivity |].
  unfold deleteSidebarLink. rewrite Hadmin. cbn [negb].
  set (links := loadSidebarLinks file).
  change (loadSidebarLinks (Some (links ++ [mkSidebarLink title url])))
    with (links ++ [mkSidebarLink title url]).
  cbv zeta. rewrite length_app. cbn [length].
  destruct (Z.ltb_spec (Z.of_nat (length links)) 0) as [|_]; [lia |].
  destruct (Z.leb_spec (Z.of_nat (length links + 1)) (Z.of_nat (length links)))
    as [|_]; [lia |].
  cbn [orb].
  assert (Hs : splice_one (Some (Z.of_nat (length links)))
                 (links ++ [mkSidebarLink title url]) = links).
  { unfold splice_one.
    destruct (Z.ltb_spec (Z.of_nat (length links)) 0) as [|_]; [lia |].
    rewrite Z.min_l by (rewrite length_app; cbn [length]; lia).
    rewrite Nat2Z.id, take_app_length.
    rewrite drop_ge by (rewrite length_app; cbn [length]; lia).
    apply app_nil_r. }
  rewrite Hs. reflexivity.
Qed.

Lemma sidebar_add_then_delete_witness :
  let added := addSidebarLink (Some Sample.alice) (Sample.oracle 3)
                 (Some "Wiki") (Some "/wiki") (Some [mkSidebarLink "Docs" "/docs"]) in
  snd added = Json [mkSidebarLink "Docs" "/docs"; mkSidebarLink "Wiki" "/wiki"]
  /\ deleteSidebarLink (Some Sample.alice) (Sample.oracle 3) (Some 1) (fst added)
     = (Some [mkSidebarLink "Docs" "/docs"], Json [mkSidebarLink "Docs" "/docs"]).
Proof.
  apply (sidebar_add_then_delete (Some Sample.alice) (Sample.oracle 3) "Wiki" "/wiki"
           (Some [mkSidebarLink "Docs" "/docs"])).
  - reflexivity.
  - discriminate.
  - discriminate.
Defined.

(* ------------------------------------------------------------------ *)
(** ** Slug links *)

Lemma upsert_link_found (link : SlugLink) (links : list SlugLink) :
  find (fun l => bool_decide (lk_slug l = lk_slug link)) (upsert_link link links)
  = Some link.
Proof.
  induction links as [|l rest IH]; simpl.
  - rewrite bool_decide_eq_true_2 by reflexivity. reflexivity.
  - destruct (decide (lk_slug l = lk_slug link)) as [Heq|Hne]; simpl.
    + rewrite bool_decide_eq_true_2 by reflexivity. reflexivity.
    + rewrite bool_decide_eq_false_2 by exact Hne. exact IH.
Qed.

Lemma upsert_link_others (link : SlugLink) (links : list SlugLink) (s : string) :
  s <> lk_slug link ->
  find (fun l => bool_decide (lk_slug l = s)) (upsert_link link links)
  = find (fun l => bool_decide (lk_slug l = s)) links.
Proof.
  intros Hs. induction links as [|l rest IH]; simpl.
  - rewrite bool_decide_eq_false_2 by (intros H; apply Hs; symmetry; exact H).
    reflexivity.
  - destruct (decide (lk_slug l = lk_slug link)) as [Heq|Hne]; simpl.
    + rewrite !bool_decide_eq_false_2
        by (intros H; apply Hs; congruence).
      reflexivity.
    + rewrite IH. reflexivity.
Qed.

Lemma upsert_link_slugs (link : SlugLink) (links : list SlugLink) (s : string) :
  s ∈ map lk_slug (upsert_link link links) <->
  s = lk_slug link \/ s ∈ map lk_slug links.
Proof.
  induction links as [|l rest IH]; simpl.
  - rewrite list_elem_of_singleton. split; [auto |].
    intros [H|H]; [exact H | apply elem_of_nil in H; contradiction].
  - destruct (decide (lk_slug l = lk_slug link)) as [Heq|Hne]; simpl.
    + rewrite !elem_of_cons, Heq. tauto.
    + rewrite !elem_of_cons, IH. tauto.
Qed.

Lemma upsert_link_NoDup (link : SlugLink) (links : list SlugLink) :
  NoDup (map lk_slug links) -> NoDup (map lk_slug (upsert_link link links)).
Proof.
  induction links as [|l rest IH]; simpl; intros Hnd.
  - apply NoDup_singleton.
  - apply NoDup_cons in Hnd as [Hl Hnd].
    destruct (decide (lk_slug l = lk_slug link)) as [Heq|Hne]; simpl.
    + apply NoDup_cons. split; [rewrite <- Heq; exact Hl | exact Hnd].
    + apply NoDup_cons. split; [| apply IH, Hnd].
      rewrite upsert_link_slugs. intros [H|H]; [contradiction | exact (Hl H)].
Qed.

Lemma find_filter_slug (slug s : string) (links : list SlugLink) :
  find (fun l => bool_decide (lk_slug l = s)) (filter (fun l => lk_slug l <> slug) links)
  = if decide (s = slug) then None
    else find (fun l => bool_decide (lk_slug l = s)) links.
Proof.
  induction links as [|l rest IH]; simpl.
  - destruct (decide (s = slug)); reflexivity.
  - rewrite filter_cons. destruct (decide (lk_slug l <> slug)) as [Hne|Heq]; simpl.
    + rewrite IH. destruct (decide (s = slug)) as [->|_]; [| reflexivity].
      rewrite bool_decide_eq_false_2 by exact Hne. reflexivity.
    + rewrite IH. destruct (decide (s = slug)) as [->|Hs]; [reflexivity |].
      rewrite bool_decide_eq_false_2; [reflexivity |].
      intros H. apply Heq. intros H'. apply Hs. congruence.
Qed.

Lemma filter_length_slug (slug : string) (links : list SlugLink) :
  (length (filter (fun l => lk_slug l <> slug) links) =? length links)%nat
  = match find (fun l => bool_decide (lk_slug l = slug)) links with
    | Some _ => false
    | None => true
    end.
Proof.
  induction links as [|l rest IH]; [reflexivity |].
  rewrite filter_cons. cbn [find].
  pose proof (length_filter (fun l => lk_slug l <> slug) rest) as Hle.
  destruct (decide (lk_slug l <> slug)) as [Hne|Heq].
  - rewrite bool_decide_eq_false_2 by exact Hne. cbn [length].
    rewrite <- IH.
    destruct (Nat.eqb_spec (length (filter (fun l => lk_slug l <> slug) rest)) (length rest)),
             (Nat.eqb_spec (S (length (filter (fun l => lk_slug l <> slug) rest)))
                           (S (length rest))); try reflexivity; lia.
  - rewrite bool_decide_eq_true_2 by (destruct (decide (lk_slug l = slug)); tauto).
    cbn [length]. apply Nat.eqb_neq. lia.
Qed.

(** X19.  Saving a slug link.  When the save is answered with a link,
    that link carries the slug and the URL of the request and the title of
    the request, or the slug where the request has no title; afterwards a
    reader finds this link under its slug, and finds under every other
    slug what was there before. *)
Theorem save_link_effect (client : option Client) (o : Oracle)
    (slug url title : option string) (links links' : option (list SlugLink))
    (link : SlugLink) :
  saveLink client o slug url title links = (links', Json link) ->
  slug = Some (lk_slug link) /\ url = Some (lk_url link)
  /\ lk_title link = default (lk_slug link) (truthy_str title)
  /\ allowed (checkAdminPermission client o) = true
  /\ link_for (lk_slug link) links' = Some link
  /\ forall s, s <> lk_slug link -> link_for s links' = link_for s links.
Proof.
  unfold saveLink.
  destruct (truthy_str slug) as [s|] eqn:Hs; [| discriminate].
  destruct (truthy_str url) as [u|] eqn:Hu; [| discriminate].
  apply truthy_str_inv in Hs as [-> _]. apply truthy_str_inv in Hu as [-> _].
  destruct (allowed (checkAdminPermission client o)); [| discriminate]. cbn [negb].
  intros H. injection H as <- <-. cbn [lk_slug lk_url lk_title].
  split; [reflexivity |]. split; [reflexivity |]. split; [reflexivity |].
  split; [reflexivity |]. unfold link_for, getLinks. split.
  - apply (upsert_link_found (mkSlugLink s u (default s (truthy_str title)))).
  - intros s' Hs'.
    apply (upsert_link_others (mkSlugLink s u (default s (truthy_str title)))), Hs'.
Qed.

Lemma save_link_effect_witness :
  let links := Some [mkSlugLink "docs" "/old" "Docs"; mkSlugLink "chat" "/chat" "Chat"] in
  let link := mkSlugLink "docs" "/new" "docs" in
  exists links',
    saveLink (Some Sample.alice) (Sample.oracle 3) (Some "docs") (Some "/new") None links
    = (links', Json link)
    /\ link_for "docs" links' = Some link
    /\ link_for "chat" links' = Some (mkSlugLink "chat" "/chat" "Chat").
Proof.
  cbv zeta. eexists. split; [vm_compute; reflexivity |].
  destruct (save_link_effect (Some Sample.alice) (Sample.oracle 3) (Some "docs"%string)
              (Some "/new"%string) None
              (Some [mkSlugLink "docs" "/old" "Docs"; mkSlugLink "chat" "/chat" "Chat"])
              (Some [mkSlugLink "docs" "/new" "docs"; mkSlugLink "chat" "/chat" "Chat"])
              (mkSlugLink "docs" "/new" "docs") eq_refl)
    as (_ & _ & _ & _ & Hfound & Hothers).
  split; [exact Hfound |].
  rewrite (Hothers "chat"%string) by discriminate. reflexivity.
Defined.

(** X20.  Deleting a slug link, for an admin.  If a link with the slug
    exists, the answer is a success, a reader finds nothing under the slug
    afterwards and finds under every other slug what was there before; if
    none exists, the answer is 404 and the links are unchanged. *)
Theorem delete_link_effect (client : option Client) (o : Oracle) (slug : string)
    (links : option (list SlugLink)) :
  allowed (checkAdminPermission client o) = true ->
  match link_for slug links with
  | Some _ =>
      exists links',
        deleteLink client o slug links = (links', Json tt)
        /\ link_for slug links' = None
        /\ forall s, s <> slug -> link_for s links' = link_for s links
  | None => deleteLink client o slug links = (links, Error 404 "Link not found")
  end.
Proof.
  intros Hadmin.
  assert (Hdel : deleteLink client o slug links
                 = match links with
                   | None => (links, Error 404 "Link not found")
                   | Some ls =>
                       if (length (filter (fun l => lk_slug l <> slug) ls) =? length ls)%nat
                       then (links, Error 404 "Link not found")
                       else (Some (filter (fun l => lk_slug l <> slug) ls), Json tt)
                   end).
  { unfold deleteLink. rewrite Hadmin. reflexivity. }
  rewrite Hdel. clear Hdel. unfold link_for, getLinks.
  destruct links as [ls|]; [| reflexivity].
  change (default [] (Some ls)) with ls.
  rewrite filter_length_slug.
  destruct (find (fun l => bool_decide (lk_slug l = slug)) ls) as [found|];
    [| reflexivity].
  eexists. split; [reflexivity |].
  change (default [] (Some (filter (fun l => lk_slug l <> slug) ls)))
    with (filter (fun l => lk_slug l <> slug) ls).
  split.
  - rewrite find_filter_slug. destruct (decide (slug = slug)); [reflexivity | contradiction].
  - intros s Hs. rewrite find_filter_slug.
    destruct (decide (s = slug)); [contradiction | reflexivity].
Qed.

Lemma delete_link_effect_witness :
  deleteLink (Some Sample.alice) (Sample.oracle 3) "docs"
    (Some [mkSlugLink "docs" "/docs" "Docs"; mkSlugLink "chat" "/chat" "Chat"])
  = (Some [mkSlugLink "chat" "/chat" "Chat"], Json tt)
  /\ deleteLink (Some Sample.alice) (Sample.oracle 3) "wiki"
       (Some [mkSlugLink "chat" "/chat" "Chat"])
     = (Some [mkSlugLink "chat" "/chat" "Chat"], Error 404 "Link not found").
Proof.
  split; [vm_compute; reflexivity |].
  exact (delete_link_effect (Some Sample.alice) (Sample.oracle 3) "wiki"
           (Some [mkSlugLink "chat" "/chat" "Chat"]) eq_refl).
Defined.

Lemma link_step_NoDup (links : option (list SlugLink)) (op : LinkOp) :
  NoDup (map lk_slug (getLinks links)) ->
  NoDup (map lk_slug (getLinks (link_step links op))).
Proof.
  intros Hnd. destruct op as [client o slug url title | client o slug]; cbn [link_step].
  - unfold saveLink.
    destruct (truthy_str slug) as [s|]; [| exact Hnd].
    destruct (truthy_str url) as [u|]; [| exact Hnd].
    destruct (negb (allowed (checkAdminPermission client o))); [exact Hnd |].
    cbn [fst]. apply (upsert_link_NoDup _ (default [] links)), Hnd.
  - unfold deleteLink.
    destruct (negb (allowed (checkAdminPermission client o))); [exact Hnd |].
    destruct links as [ls|]; [| exact Hnd].
    destruct (length _ =? length ls)%nat; [exact Hnd |].
    cbn [fst]. unfold getLinks in *. cbn [default] in *.
    change (from_option id [] (Some ?x)) with x in *.
    eapply sublist_NoDup; [exact Hnd |].
    apply map_sublist, filter_sublist_of.
Qed.

(** X21.  Slugs stay unique.  Starting from a configuration without
    links, after any sequence of saves and deletions, each served to
    completion, by whatever callers, no two links share a slug: saving under an existing slug replaces the
    link instead of adding a second one. *)
Theorem slug_links_unique (ops : list LinkOp) :
  NoDup (map lk_slug (getLinks (link_run ops None))).
Proof.
  unfold link_run.
  assert (H : NoDup (map lk_slug (getLinks None))) by apply NoDup_nil_2.
  revert H. generalize (@None (list SlugLink)).
  induction ops as [|op ops IH]; intros links Hnd; simpl; [exact Hnd |].
  apply IH, link_step_NoDup, Hnd.
Qed.

(* ================================================================== *)
(** * Shutdown *)
(* ================================================================== *)

(** X22.  What [cleanup] leaves pending.  For every domain of the
    process: with a content-store section in the root configuration, a
    domain whose state is in memory ends with an empty chain, whatever the
    content store answers; without that section the flush throws inside
    [flushBatch] and the domain keeps its state.  A domain whose state is
    not in memory is not touched, and no domain is added or removed. *)
Theorem cleanup_flushes_loaded (rf : ReadFile) (cfg : RootConfig)
    (net : string -> FetchOutcome) (now : string -> N) (agent : gmap string Batcher)
    (domain : string) (b : Batcher) :
  agent !! domain = Some b ->
  exists b',
    cleanup rf cfg net now agent !! domain = Some b'
    /\ (loaded b = None -> b' = b)
    /\ match rc_ipfs cfg with
       | Some _ => loaded b <> None -> postChain <$> current_state rf b' = Some []
       | None => current_state rf b' = current_state rf b
       end.
Proof.
  intros Hb. unfold cleanup. rewrite map_lookup_imap, Hb. cbn [mbind option_bind].
  eexists. split; [reflexivity |]. unfold cleanup_domain.
  destruct (loaded b) as [s|] eqn:Hloaded.
  - split; [discriminate |].
    pose proof (current_state_of_loaded rf b s Hloaded) as Hs.
    destruct (postChain s) as [|l chain] eqn:Hchain.
    + destruct (rc_ipfs cfg); [| reflexivity]. intros _. rewrite Hs. cbn. rewrite Hchain.
      reflexivity.
    + rewrite flushBatch_state, Hs, Hchain. unfold uploadToIPFS.
      destruct (rc_ipfs cfg) as [ipfs|]; [| reflexivity].
      intros _. destruct (truthy_str (ipfs_url ipfs)); [| reflexivity].
      destruct (net domain) as [|[] [|]]; reflexivity.
  - split; [reflexivity |]. destruct (rc_ipfs cfg); [| reflexivity].
    intros H. contradiction.
Qed.

Lemma cleanup_flushes_loaded_witness :
  exists b',
    cleanup Sample.read_raw Sample.root_config (fun _ => FetchRejects)
      (fun _ => 1700000000009%N)
      {[ "a.example"%string := Sample.two_links ]} !! "a.example"%string = Some b'
    /\ postChain <$> current_state Sample.read_raw b' = Some [].
Proof.
  destruct (cleanup_flushes_loaded Sample.read_raw Sample.root_config
              (fun _ => FetchRejects)
              (fun _ => 1700000000009%N) {[ "a.example"%string := Sample.two_links ]}
              "a.example"%string Sample.two_links (lookup_singleton_eq _ _))
    as (b' & Hb' & _ & Hflushed).
  exists b'. split; [exact Hb' |].
  apply Hflushed. vm_compute. discriminate.
Defined.

(* ================================================================== *)
(** * Client permissions *)
(* ================================================================== *)

(** X23.  What [getPermissions] grants an authenticated caller.  It
    always answers, with the caller's address and with [read] granted.
    [admin] is granted exactly when the contract reports the caller on the
    admin list, [edit] exactly when it reports the caller on the admin
    list or on the editor list; a contract that cannot be reached or whose
    call fails grants neither, and leaves [read] granted. *)
Theorem getPermissions_grants (c : Client) (contract : string -> result bool) :
  exists p,
    getPermissions (Some c) contract = Ok p
    /\ pm_address p = address c
    /\ pm_read p = true
    /\ (pm_admin p = true <-> contract "epistery::admin"%string = Ok true)
    /\ (pm_edit p = true <->
        contract "epistery::admin"%string = Ok true
        \/ contract "epistery::editor"%string = Ok true)
    /\ ((forall listName, contract listName = Throw) ->
        pm_admin p = false /\ pm_edit p = false).
Proof.
  eexists. split; [reflexivity |]. cbn [pm_address pm_read pm_admin pm_edit].
  split; [reflexivity |]. split; [reflexivity |]. unfold isInACL.
  destruct (contract "epistery::admin"%string) as [[]|] eqn:Ha;
    destruct (contract "epistery::editor"%string) as [[]|] eqn:He;
    (split; [split; congruence |]);
    (split; [split; [auto | intros [H|H]; congruence] |]);
    intros Hdown;
    try (rewrite Hdown in Ha; discriminate);
    try (rewrite Hdown in He; discriminate);
    split; reflexivity.
Qed.

(* ------------------------------------------------------------------ *)
(** ** Commenting on a post *)

(** X24.  Commenting on a post.  For a post that [readData] returns on a
    well-formed storage, a text that is not blank and an authenticated
    caller whom the oracle puts at level 2 or more: the answer is a comment
    with the trimmed text and the caller's address as author; the next
    read returns the same posts in the same order, under the same
    [nextId], with the comment appended to the comments of this one post;
    and nothing is handed to the chain batcher. *)
Theorem comment_effect (c : Client) (o : Oracle) (l : N) (text : string) (now : N)
    (st st1 : Storage) (data : Data) (post : Post) :
  well_formed st ->
  readData st = Ok (st1, data) ->
  post ∈ d_posts data ->
  text <> ""%string ->
  Js.trim text <> ""%string ->
  oracle_access o = AccessLevel l ->
  (2 <= l)%N ->
  let out := submitComment (Some c) o (p_id post) (Some text) now st in
  exists comment,
    out_response out = Json comment
    /\ c_text comment = Js.trim text
    /\ c_author comment = address c
    /\ out_broadcast out = Some (NewComment (p_id post) comment)
    /\ out_batch out = None
    /\ let commented :=
         mkPost (p_id post) (p_text post) (p_image post) (p_author post)
                (p_authorName post) (p_timestamp post) (p_comments post ++ [comment])
                (p_channel post) (p_editedAt post) in
       readData (out_storage out)
       = Ok (out_storage out,
             mkData (map (fun p => if (p_id p =? p_id post)%N then commented else p)
                         (d_posts data))
                    (d_nextId data)).
Proof.
  intros Hwf Hread Hin Htext Htrim Hacc Hl. cbv zeta.
  destruct (readData_well_formed st st1 data Hwf Hread) as (Hwf1 & Hord & Hfiled & _).
  pose proof (nextId_above data post Hord Hin) as Hne.
  unfold submitComment.
  rewrite (truthy_str_Some _ Htext), (nonblank_length _ Htrim).
  unfold checkPostingPermission. rewrite Hacc.
  destruct (N.leb_spec 2 l) as [_|]; [| lia]. cbn [allowed user].
  rewrite Hread, (find_member _ _ (proj1 Hord) Hin).
  cbn [out_response out_broadcast out_batch out_storage u_address u_name].
  eexists. split; [reflexivity |]. cbn [c_text c_author].
  split; [reflexivity |]. split; [reflexivity |]. split; [reflexivity |].
  split; [reflexivity |].
  unfold writeData, writePost. cbn [indexFile postFiles legacyFile].
  rewrite (update_first_by_id _ _ _ (proj1 Hord) Hin).
  match goal with
  | |- context [pushComment ?cm post] => set (comment := cm)
  end.
  apply (readData_synced
           (mkData (map (fun p => if (p_id p =? p_id post)%N
                                  then pushComment comment post else p)
                        (d_posts data)) (d_nextId data)));
    [| exact Hne].
  apply filed_after_update; [exact Hfiled | reflexivity].
Qed.

Lemma comment_effect_witness :
  let out := submitComment (Some Sample.bob) (Sample.oracle 2) 1 (Some " nice ")
               1700000000009 Scenario.two_posts in
  exists comment,
    out_response out = Json comment
    /\ c_text comment = "nice"%string
    /\ c_author comment = "0xB0B"%string
    /\ out_batch out = None.
Proof.
  cbv zeta.
  destruct (comment_effect Sample.bob (Sample.oracle 2) 2 " nice " 1700000000009
              Scenario.two_posts Scenario.two_posts Scenario.two_posts_data
              Scenario.alices_post two_posts_well_formed two_posts_read
              (list_elem_of_further _ _ _ (list_elem_of_here _ _)))
    as (comment & Hr & Htext & Hauthor & _ & Hbatch & _).
  - discriminate.
  - vm_compute. discriminate.
  - reflexivity.
  - lia.
  - exists comment. split; [exact Hr |].
    split; [rewrite Htext; vm_compute; reflexivity |].
    split; [rewrite Hauthor; reflexivity | exact Hbatch].
Defined.

(* ------------------------------------------------------------------ *)
(** ** Reading an index with records missing *)

(** X25.  A record that is missing does not fail the read.  On a storage
    that has an index and files every record under its own id, [readData]
    always returns, leaves the storage as it is, and returns exactly the
    posts of those index entries whose record can be read, in index order;
    the entries without a record are skipped. *)
Theorem readData_skips_missing_records (st : Storage) (ix : Index) :
  keyed (postFiles st) ->
  indexFile st = Some ix ->
  exists data,
    readData st = Ok (st, data)
    /\ map p_id (d_posts data)
       = filter (fun i => is_Some (postFiles st !! i)) (map ie_id (ix_posts ix))
    /\ Forall (fun p => postFiles st !! p_id p = Some p) (d_posts data).
Proof.
  intros Hk Hix. unfold readData. rewrite Hix. eexists. split; [reflexivity |].
  cbn [d_posts]. split.
  - induction (ix_posts ix) as [|e entries IH]; [reflexivity |].
    cbn [omap list_omap map]. rewrite filter_cons.
    destruct (postFiles st !! ie_id e) as [p|] eqn:He.
    + destruct (decide (is_Some (Some p))) as [_|Hn]; [| exfalso; apply Hn; eauto].
      cbn [map]. rewrite (Hk _ _ He). f_equal. exact IH.
    + destruct (decide (is_Some (@None Post))) as [[x Hx]|_]; [discriminate | exact IH].
  - apply Forall_forall. intros p Hp.
    destruct (indexed_posts (postFiles st) (ix_posts ix) Hk) as [_ Hfiled].
    apply Hfiled. exact Hp.
Qed.

Lemma readData_skips_missing_records_witness :
  exists data,
    readData (deletePost 1 Scenario.two_posts) = Ok (deletePost 1 Scenario.two_posts, data)
    /\ map p_id (d_posts data) = [2%N].
Proof.
  destruct (readData_skips_missing_records (deletePost 1 Scenario.two_posts)
              (index_of Scenario.two_posts_data))
    as (data & Hread & Hids & _).
  - apply keyed_delete, two_posts_well_formed.
  - vm_compute. reflexivity.
  - exists data. split; [exact Hread |]. rewrite Hids. vm_compute. reflexivity.
Defined.

(* ================================================================== *)
(** * Browser client: following the server through its broadcasts *)
(* ================================================================== *)

Lemma find_above (posts : list Post) (k : N) :
  Forall (fun i => (i < k)%N) (map p_id posts) -> find (has_id k) posts = None.
Proof.
  induction posts as [|p posts IH]; simpl; intros Hall; [reflexivity |].
  apply Forall_cons in Hall as [Hp Hall]. unfold has_id at 1.
  destruct (N.eqb_spec (p_id p) k); [lia | apply IH, Hall].
Qed.

Lemma find_comment_fresh (comments : list Comment) (k : N) :
  Forall (fun c => c_id c <> k) comments ->
  find (fun c => (c_id c =? k)%N) comments = None.
Proof.
  induction 1 as [|c comments Hc _ IH]; simpl; [reflexivity |].
  destruct (N.eqb_spec (c_id c) k); [contradiction | exact IH].
Qed.

Section Client.

Variable sanitizeSvg : string -> result string.
Variable cfg : BoardConfig.

(** X26.  The browser's copy follows the server.  Take a client whose
    list of posts equals what [readData] returns on a well-formed storage.
    When a request broadcasts a message and the client applies it with
    [handleWebSocketMessage], the client's list equals the posts the next
    [readData] returns: a new post is put in front, a comment is appended
    to its post, a deleted post is removed, an edited post gets the new
    text and [editedAt].  For a comment this needs its id, a clock value,
    to differ from the ids of the comments already on the post: the client
    drops a comment whose id it has seen, the server stores it. *)
Theorem client_follows_server (st st1 : Storage) (data : Data) (op : LedgerOp)
    (e : Event) :
  well_formed st ->
  readData st = Ok (st1, data) ->
  ledger_event sanitizeSvg cfg st op = Some e ->
  (forall postId comment post,
     e = NewComment postId comment -> post ∈ d_posts data -> p_id post = postId ->
     Forall (fun c => c_id c <> c_id comment) (p_comments post)) ->
  exists st2 n,
    readData (ledger_step sanitizeSvg cfg st op)
    = Ok (st2, mkData (handleWebSocketMessage e (d_posts data)) n).
Proof.
  intros Hwf Hread He Hfresh.
  destruct (readData_well_formed st st1 data Hwf Hread) as (Hwf1 & Hord & Hfiled & _).
  destruct op as [rq|client o postId text now|client o postId|client postId text now
                  |client o channel]; cbn [ledger_event ledger_step] in *.
  - (* a new post *)
    assert (Hpost : exists post, out_response (submit sanitizeSvg cfg rq st) = Json post
                                 /\ e = NewPost post).
    { revert He. unfold submit, submitPost.
      destruct (validatePost sanitizeSvg cfg (rq_body rq)); [discriminate |].
      destruct (allowed (checkPostingPermission (rq_client rq) (rq_oracle rq)));
        [| discriminate].
      destruct (user (checkPostingPermission (rq_client rq) (rq_oracle rq)));
        [| discriminate].
      rewrite Hread. cbn [out_broadcast out_response]. intros H. injection H as <-.
      eexists. split; reflexivity. }
    destruct Hpost as (post & Hresp & ->).
    destruct (submitPost_prepends sanitizeSvg cfg rq st st1 data post Hwf Hread Hresp)
      as [Hid Hnext].
    eexists _, _. rewrite Hnext. cbn [handleWebSocketMessage].
    rewrite find_above; [reflexivity |]. rewrite Hid. exact (proj2 Hord).
  - (* a comment *)
    revert He. unfold submitComment.
    destruct (truthy_str text) as [t|]; [| discriminate].
    destruct (String.length (Js.trim t) =? 0)%nat; [discriminate |].
    destruct (allowed (checkPostingPermission client o)); [| discriminate].
    destruct (user (checkPostingPermission client o)) as [u|]; [| discriminate].
    rewrite Hread.
    destruct (find (has_id postId) (d_posts data)) as [post|] eqn:Hfind; [| discriminate].
    cbn [out_broadcast out_storage]. intros H. injection H as <-.
    apply find_has_id in Hfind as Hpost. destruct Hpost as [Hin Hid]. subst postId.
    pose proof (nextId_above data post Hord Hin) as Hne.
    eexists _, _. cbn [handleWebSocketMessage].
    rewrite Hfind, (find_comment_fresh _ _ (Hfresh _ _ post eq_refl Hin eq_refl)).
    unfold writeData, writePost. cbn [indexFile postFiles legacyFile].
    rewrite (update_first_by_id _ _ _ (proj1 Hord) Hin).
    apply (readData_synced
             (mkData (map (fun p => if (p_id p =? p_id post)%N
                                    then pushComment _ post else p)
                          (d_posts data)) (d_nextId data)));
      [| exact Hne].
    apply filed_after_update; [exact Hfiled | reflexivity].
  - (* a deletion *)
    revert He. unfold deletePostRequest.
    destruct client as [c|]; [| discriminate].
    rewrite Hread.
    destruct (find (has_id postId) (d_posts data)) as [post|] eqn:Hfind; [| discriminate].
    destruct (_ || _); [| discriminate].
    cbn [out_broadcast out_storage]. intros H. injection H as <-.
    apply find_has_id in Hfind as [Hin Hid].
    pose proof (nextId_above data post Hord Hin) as Hne.
    eexists _, _. cbn [handleWebSocketMessage].
    unfold writeData, deletePost. cbn [indexFile postFiles legacyFile].
    rewrite (remove_first_filter _ _ (proj1 Hord)).
    apply (readData_synced
             (mkData (filter (fun p => p_id p <> postId) (d_posts data)) (d_nextId data)));
      [| exact Hne].
    apply filed_after_delete, Hfiled.
  - (* an edit *)
    revert He. unfold editPostRequest.
    destruct (truthy_str text) as [t|]; [| discriminate].
    destruct (String.length (Js.trim t) =? 0)%nat; [discriminate |].
    destruct client as [c|]; [| discriminate].
    rewrite Hread.
    destruct (find (has_id postId) (d_posts data)) as [post|] eqn:Hfind; [| discriminate].
    destruct (bool_decide _); [| discriminate].
    cbn [out_broadcast out_storage]. intros H. injection H as <-.
    apply find_has_id in Hfind as [Hin Hid]. subst postId.
    pose proof (nextId_above data post Hord Hin) as Hne.
    eexists _, _. cbn [handleWebSocketMessage setText p_id].
    unfold writeData, writePost. cbn [indexFile postFiles legacyFile].
    rewrite !(update_first_by_id _ _ _ (proj1 Hord) Hin).
    apply (readData_synced
             (mkData (map (fun p => if (p_id p =? p_id post)%N
                                    then setText (Js.trim t) now post else p)
                          (d_posts data)) (d_nextId data)));
      [| exact Hne].
    apply filed_after_update; [exact Hfiled | reflexivity].
  - discriminate.
Qed.

End Client.

Lemma client_follows_server_witness :
  exists st2 n,
    readData (ledger_step Sample.sanitizer Sample.board Scenario.two_posts
                (OpDelete (Some Sample.alice) Sample.oracle_down 1))
    = Ok (st2, mkData (handleWebSocketMessage (DeletePost 1)
                         [Scenario.bobs_post; Scenario.alices_post]) n).
Proof.
  apply (client_follows_server Sample.sanitizer Sample.board Scenario.two_posts
           Scenario.two_posts Scenario.two_posts_data
           (OpDelete (Some Sample.alice) Sample.oracle_down 1) (DeletePost 1)
           two_posts_well_formed two_posts_read).
  - vm_compute. reflexivity.
  - intros postId comment post H. discriminate.
Defined.

(* ================================================================== *)
(** * Reading and writing across channels *)
(* ================================================================== *)

Lemma getUserName_lists_isInACL (access : AccessCheck) (listsFor : result (list string))
    (getACL : string -> result (list AclEntry)) (inACL inACL' : string -> result bool)
    (a : string) (lists : list string) :
  getUserName_lists (mkOracle access listsFor getACL inACL) a lists
  = getUserName_lists (mkOracle access listsFor getACL inACL') a lists.
Proof.
  induction lists as [|listName rest IH]; [reflexivity |].
  cbn [getUserName_lists oracle_getACL]. rewrite IH. reflexivity.
Qed.

Lemma checkPostingPermission_isInACL (access : AccessCheck)
    (listsFor : result (list string)) (getACL : string -> result (list AclEntry))
    (inACL inACL' : string -> result bool) (client : option Client) :
  checkPostingPermission client (mkOracle access listsFor getACL inACL)
  = checkPostingPermission client (mkOracle access listsFor getACL inACL').
Proof.
  unfold checkPostingPermission, getUserName. cbn [oracle_access oracle_listsForMember].
  destruct client as [c|]; [| reflexivity].
  destruct access as [|l]; [reflexivity |].
  destruct listsFor as [lists|]; [| reflexivity].
  rewrite (getUserName_lists_isInACL _ _ _ inACL inACL'). reflexivity.
Qed.

(** X27.  Channel access lists restrict reading, not writing.  What the
    contract answers to [isInACL] has no influence on a post request or a
    comment request: with the same access level and the same name lists,
    the handlers leave the same storage and give the same answer,
    broadcast and batch entry whatever the membership answers are.  A
    caller of level 2 can therefore post into every existing channel, also
    one whose list they are not on. *)
Theorem posting_ignores_channel_lists (sanitizeSvg : string -> result string)
    (cfg : BoardConfig) (client : option Client) (access : AccessCheck)
    (listsFor : result (list string)) (getACL : string -> result (list AclEntry))
    (inACL inACL' : string -> result bool) (now : N) (st : Storage) :
  (forall body,
     submitPost sanitizeSvg cfg client (mkOracle access listsFor getACL inACL) body now st
     = submitPost sanitizeSvg cfg client (mkOracle access listsFor getACL inACL') body
         now st)
  /\ (forall postId text,
        submitComment client (mkOracle access listsFor getACL inACL) postId text now st
        = submitComment client (mkOracle access listsFor getACL inACL') postId text now st).
Proof.
  split.
  - intros body. unfold submitPost.
    rewrite (checkPostingPermission_isInACL _ _ _ inACL inACL'). reflexivity.
  - intros postId text. unfold submitComment.
    rewrite (checkPostingPermission_isInACL _ _ _ inACL inACL'). reflexivity.
Qed.

Section Visibility.

Variable sanitizeSvg : string -> result string.
Variable cfg : BoardConfig.

(** X28.  An accepted post is visible at once.  On a well-formed storage,
    when a post request is answered with a post, the next list read
    without a channel filter, by any caller whose accessible set holds the
    post's channel (["general"] for a post without one), answers with that
    post in front of the posts it would have returned before. *)
Theorem accepted_post_is_listed_first (rq : PostRequest) (st st1 : Storage)
    (data : Data) (post : Post) (client : option Client) (o : Oracle)
    (acc : gset string) :
  well_formed st ->
  readData st = Ok (st1, data) ->
  out_response (submit sanitizeSvg cfg rq st) = Json post ->
  getAccessibleChannelNames client o (channels cfg) = Ok acc ->
  channel_or_general post ∈ acc ->
  snd (getPosts cfg client o None (out_storage (submit sanitizeSvg cfg rq st)))
  = Json (post :: filter (fun p => channel_or_general p ∈ acc) (d_posts data)).
Proof.
  intros Hwf Hread Hresp Hacc Hin.
  destruct (submitPost_prepends sanitizeSvg cfg rq st st1 data post Hwf Hread Hresp)
    as [_ Hnext].
  unfold getPosts. rewrite Hnext, Hacc. cbn [truthy_str snd d_posts].
  rewrite filter_cons_True by exact Hin. reflexivity.
Qed.

End Visibility.

Lemma accepted_post_is_listed_first_witness :
  exists post,
    out_response (submit Sample.sanitizer Sample.board
                    (Sample.request Sample.alice 2 "third" 1700000000003)
                    Scenario.two_posts) = Json post
    /\ snd (getPosts Sample.board None Sample.oracle_down None
              (out_storage (submit Sample.sanitizer Sample.board
                              (Sample.request Sample.alice 2 "third" 1700000000003)
                              Scenario.two_posts)))
       = Json (post :: filter (fun p => channel_or_general p
                                        ∈ ({[ "general"%string ]} ∪ {[ "news"%string ]}
                                           : gset string))
                              [Scenario.bobs_post; Scenario.alices_post]).
Proof.
  eexists. split; [vm_compute; reflexivity |].
  apply (accepted_post_is_listed_first Sample.sanitizer Sample.board
           (Sample.request Sample.alice 2 "third" 1700000000003)
           Scenario.two_posts Scenario.two_posts Scenario.two_posts_data _
           None Sample.oracle_down _ two_posts_well_formed two_posts_read).
  - vm_compute. reflexivity.
  - vm_compute. reflexivity.
  - apply elem_of_union_l, elem_of_singleton. vm_compute. reflexivity.
Defined.

Lemma parsed_leniently_snoc (chans : list ChannelEntry) (ch : Channel) :
  parsed_leniently (chans ++ [ChObj ch]) = parsed_leniently chans ++ [ch].
Proof.
  induction chans as [|e rest IH]; [reflexivity |].
  destruct e as [c|[[c|]|]]; cbn [app parsed_leniently]; rewrite IH; reflexivity.
Qed.

Lemma channel_exists_snoc (chans : list ChannelEntry) (ch : Channel) :
  channel_exists (ch_name ch) chans = Ok false ->
  channel_exists (ch_name ch) (chans ++ [ChObj ch]) = Ok true.
Proof.
  induction chans as [|e rest IH]; simpl; intros H.
  - destruct (decide (ch_name ch = ch_name ch)); [reflexivity | contradiction].
  - destruct (entry_name e) as [n|]; [| discriminate].
    destruct (decide (n = ch_name ch)); [discriminate | apply IH, H].
Qed.

(** X29.  A created channel can be used at once.  When the creation of a
    channel is answered with the channel, a post request that names it
    passes the channel check, and the channel listing answers the creating
    admin (a caller with an address) with every channel of the board that
    parses, the new channel last. *)
Theorem created_channel_is_usable (c : Client) (o : Oracle) (name listRef : option string)
    (chans chans' : list ChannelEntry) (ch : Channel) :
  createChannel (Some c) o name listRef chans = (chans', Json ch) ->
  address c <> ""%string ->
  channel_exists (ch_name ch) chans' = Ok true
  /\ listChannels (Some c) o chans'
     = Json (general_channel :: map listed (parsed_leniently chans ++ [ch])).
Proof.
  intros Hcreate Haddr.
  destruct (createChannel_created _ _ _ _ _ _ _ Hcreate)
    as (Hadmin & _ & _ & _ & Hex & _ & ->).
  split; [apply channel_exists_snoc, Hex |].
  unfold listChannels. rewrite parsed_leniently_snoc.
  rewrite bool_decide_eq_false_2 by exact Haddr. cbn [negb].
  unfold checkAdminPermission in Hadmin.
  destruct (oracle_access o) as [|l]; [discriminate |].
  destruct (3 <=? l)%N; [reflexivity | discriminate].
Qed.

Lemma created_channel_is_usable_witness :
  channel_exists "events" (Scenario.channels ++ [ChObj (mkChannel "events" None)])
  = Ok true
  /\ listChannels (Some Sample.alice) (Sample.oracle 3)
       (Scenario.channels ++ [ChObj (mkChannel "events" None)])
     = Json (general_channel
             :: map listed (parsed_leniently Scenario.channels ++ [mkChannel "events" None])).
Proof.
  apply (created_channel_is_usable Sample.alice (Sample.oracle 3) (Some "events"%string)
           None Scenario.channels _ (mkChannel "events" None)).
  - vm_compute. reflexivity.
  - discriminate.
Defined.

Lemma accessible_below_admin_level (access access' : AccessCheck)
    (listsFor listsFor' : result (list string))
    (getACL getACL' : string -> result (list AclEntry))
    (inACL : string -> result bool) (l l' : N) (chs : list Channel)
    (acc0 acc0' acc : gset string) :
  (l <= l')%N -> acc0 ⊆ acc0' ->
  accessible_below_admin (mkOracle access listsFor getACL inACL) l chs acc0 = Ok acc ->
  exists acc',
    accessible_below_admin (mkOracle access' listsFor' getACL' inACL) l' chs acc0' = Ok acc'
    /\ acc ⊆ acc'.
Proof.
  intros Hl. revert acc0 acc0'.
  induction chs as [|ch rest IH]; intros acc0 acc0' Hsub; simpl.
  - intros H. injection H as <-. exists acc0'. split; [reflexivity | exact Hsub].
  - destruct (truthy_str (ch_list ch)) as [listRef|].
    + destruct (inACL listRef) as [isInList|]; [| discriminate].
      apply IH. destruct isInList; [| exact Hsub].
      apply union_mono_r, Hsub.
    + apply IH.
      destruct (N.leb_spec 1 l), (N.leb_spec 1 l'); try lia.
      * apply union_mono_r, Hsub.
      * apply union_subseteq_l', Hsub.
      * exact Hsub.
Qed.

(** X30.  A higher level never sees fewer channels.  For one caller and one
    set of list memberships: if [getAccessibleChannelNames] returns a set
    when the oracle puts the caller at level [l], it also returns one at
    every level [l'] above [l], and that set contains the first. *)
Theorem access_grows_with_level (client : option Client)
    (listsFor listsFor' : result (list string))
    (getACL getACL' : string -> result (list AclEntry))
    (inACL : string -> result bool) (l l' : N) (chans : list ChannelEntry)
    (acc : gset string) :
  (l <= l')%N ->
  getAccessibleChannelNames client (mkOracle (AccessLevel l) listsFor getACL inACL) chans
  = Ok acc ->
  exists acc',
    getAccessibleChannelNames client
      (mkOracle (AccessLevel l') listsFor' getACL' inACL) chans = Ok acc'
    /\ acc ⊆ acc'.
Proof.
  intros Hl Hacc.
  pose proof (fun chs => accessible_names_known client _ chans acc chs Hacc) as Hknown.
  revert Hacc. unfold getAccessibleChannelNames.
  destruct (parsed_channels chans) as [chs|]; [| discriminate].
  specialize (Hknown chs eq_refl). cbv zeta. cbn [oracle_access].
  destruct (match client with
            | Some c => negb (bool_decide (address c = ""%string))
            | None => false
            end).
  - destruct (N.leb_spec 3 l') as [Hl3'|Hl3'], (N.leb_spec 3 l) as [Hl3|Hl3]; try lia.
    + intros H. eexists. split; [reflexivity | injection H as <-; reflexivity].
    + intros _. eexists. split; [reflexivity |].
      intros n Hn. destruct (Hknown n Hn) as [->|Hin].
      * apply elem_of_union_l, elem_of_singleton. reflexivity.
      * apply elem_of_union_r, elem_of_list_to_set, Hin.
    + apply accessible_below_admin_level; [exact Hl | reflexivity].
  - intros H. eexists. split; [reflexivity | injection H as <-; reflexivity].
Qed.

Lemma access_grows_with_level_witness :
  exists acc',
    getAccessibleChannelNames (Some Sample.bob) (Sample.oracle 1) Scenario.channels
    = Ok acc'
    /\ ({[ "general"%string ]} : gset string) ⊆ acc'.
Proof.
  apply (access_grows_with_level (Some Sample.bob)
           (Ok ["message-board::posting"%string]) (Ok ["message-board::posting"%string])
           (fun _ => Ok [mkAclEntry "0xa11ce" (Some "Alice"%string)])
           (fun _ => Ok [mkAclEntry "0xa11ce" (Some "Alice"%string)])
           (fun _ => Ok false) 0 1 Scenario.channels).
  - lia.
  - vm_compute. reflexivity.
Defined.
